(** * DataLex core engine: canonicalizer, resolver and differ

    A shallow embedding of [dm_core/canonical.py] and [dm_core/resolver.py],
    and of the exit code of [dm resolve] ([dm_cli/main.py]), together with
    the properties of their specification.

    Model documents are the nested mappings that the YAML loader returns.
    The keys the engine reads become record fields of type [option _]
    ([None]: the key is absent, which is what [dict.get] tests); every
    other key travels in an [*_extra] bag that no function inspects.
    Strings are byte strings in UTF-8, so that the byte-wise order of
    [String.compare] is Python's code point order on [str]. *)

From Stdlib Require Import String Ascii ZArith.
From stdpp Require Import gmap strings list sorting pretty.

Local Open Scope string_scope.
Local Open Scope list_scope.

(** ** Python primitives *)

Module Py.

(** [str.__lt__] *)
Definition str_lt (a b : string) : bool :=
  match String.compare a b with Lt => true | _ => false end.

(** Comparison of two tuples of strings: the first position where they
    differ decides, a proper prefix is smaller. *)
Fixpoint tuple_compare (k1 k2 : list string) : comparison :=
  match k1, k2 with
  | [], [] => Eq
  | [], _ :: _ => Lt
  | _ :: _, [] => Gt
  | a :: k1', b :: k2' =>
      match String.compare a b with
      | Eq => tuple_compare k1' k2'
      | c => c
      end
  end.

Definition tuple_lt (k1 k2 : list string) : bool :=
  match tuple_compare k1 k2 with Lt => true | _ => false end.

(** [sorted(l, key=key)]: a stable sort that only ever asks [<] of two
    keys.  An item goes in front of the first item of the sorted rest that
    is not strictly smaller, so items with equal keys keep their input
    order.  A key is a tuple of strings; a single string [s] is the
    one-element tuple [[s]]. *)
Section Sorted.
Context {A : Type} (key : A -> list string).

Fixpoint insert_sorted (x : A) (l : list A) : list A :=
  match l with
  | [] => [x]
  | y :: l' =>
      if tuple_lt (key y) (key x) then y :: insert_sorted x l'
      else x :: y :: l'
  end.

Fixpoint sorted (l : list A) : list A :=
  match l with
  | [] => []
  | x :: l' => insert_sorted x (sorted l')
  end.
End Sorted.

(** [sorted(l)] on a list of strings. *)
Definition sorted_str (l : list string) : list string :=
  sorted (fun s => [s]) l.

(** [s.startswith(".")] *)
Definition starts_with_dot (s : string) : bool :=
  match s with
  | String c _ => bool_decide (c = "."%char)
  | EmptyString => false
  end.

(** [s.split(sep)[0]]: the part of [s] before the first [sep]. *)
Fixpoint split_head (sep : ascii) (s : string) : string :=
  match s with
  | EmptyString => EmptyString
  | String c s' =>
      if bool_decide (c = sep) then EmptyString
      else String c (split_head sep s')
  end.

(** [s.split(sep)] *)
Fixpoint split (sep : ascii) (s : string) : list string :=
  match s with
  | EmptyString => [EmptyString]
  | String c s' =>
      if bool_decide (c = sep) then EmptyString :: split sep s'
      else match split sep s' with
           | w :: ws => String c w :: ws
           | [] => [String c EmptyString]
           end
  end.

(** Truth value of a [str]. *)
Definition truthy (s : string) : bool :=
  match s with EmptyString => false | _ => true end.

(** An insertion-ordered [dict] with [str] keys. *)
Definition dict (V : Type) : Type := list (string * V).

Fixpoint dict_get {V} (k : string) (d : dict V) : option V :=
  match d with
  | [] => None
  | (k', v) :: d' => if bool_decide (k' = k) then Some v else dict_get k d'
  end.

(** [d[k] = v]: an existing key keeps its position. *)
Fixpoint dict_set {V} (k : string) (v : V) (d : dict V) : dict V :=
  match d with
  | [] => [(k, v)]
  | (k', v') :: d' =>
      if bool_decide (k' = k) then (k, v) :: d'
      else (k', v') :: dict_set k v d'
  end.

Definition dict_keys {V} (d : dict V) : list string := d.*1.

(** [sorted(d.items())]: keys are distinct, so the key decides. *)
Definition sorted_items {V} (d : dict V) : dict V :=
  sorted (fun kv => [kv.1]) d.

End Py.

(** ** Documents *)

(** A value of the loader, for the parts of a document that are carried
    along unread. *)
#[local] Unset Elimination Schemes.
Inductive yaml : Type :=
  | YNull
  | YBool (b : bool)
  | YInt (n : Z)
  | YStr (s : string)
  | YSeq (items : list yaml)
  | YMap (entries : list (string * yaml)).
#[local] Set Elimination Schemes.

Record Field := mkField {
  fld_name : option string;
  fld_type : option string;
  fld_nullable : option bool;
  fld_extra : Py.dict yaml
}.

Record Entity := mkEntity {
  ent_name : option string;
  ent_fields : option (list Field);
  ent_tags : option (list string);
  ent_extra : Py.dict yaml
}.

Record Relationship := mkRelationship {
  rel_name : option string;
  rel_from : option string;
  rel_to : option string;
  rel_cardinality : option string;
  rel_extra : Py.dict yaml
}.

Record Index := mkIndex {
  idx_name : option string;
  idx_entity : option string;
  idx_fields : option (list string);
  idx_unique : option bool;
  idx_extra : Py.dict yaml
}.

Record Rule := mkRule {
  rule_name : option string;
  rule_target : option string;
  rule_extra : Py.dict yaml
}.

Record Term := mkTerm {
  term_term : option string;
  term_related_fields : option (list string);
  term_tags : option (list string);
  term_extra : Py.dict yaml
}.

Record Import := mkImport {
  imp_model : option string;
  imp_alias : option string;
  imp_path : option string;
  imp_entities : option (list string)
}.

(** The [model] block. *)
Record Meta := mkMeta {
  meta_name : option string;
  meta_owners : option (list string);
  meta_imports : option (list Import);
  meta_extra : Py.dict yaml
}.

Record Governance := mkGovernance {
  gov_classification : option (Py.dict yaml);
  gov_stewards : option (Py.dict yaml);
  gov_extra : Py.dict yaml
}.

Record Model := mkModel {
  m_model : option Meta;
  m_entities : option (list Entity);
  m_relationships : option (list Relationship);
  m_indexes : option (list Index);
  m_rules : option (list Rule);
  m_governance : option Governance;
  m_glossary : option (list Term);
  m_display : option (Py.dict yaml);
  m_extra : Py.dict yaml
}.

(** The empty mapping [{}] at each of these types. *)
Definition empty_meta : Meta := mkMeta None None None [].
Definition empty_governance : Governance := mkGovernance None None [].
Definition empty_model : Model :=
  mkModel None None None None None None None None [].

(** [d.get(k, "")] for a key that holds a string. *)
Definition get_str (o : option string) : string := default "" o.

(** ** canonical.py *)

(** The [key=lambda item: ...] of each [sorted]: the tuple of
    [item.get(k, "")], a one-element tuple for a single [get]. *)
Definition field_key (item : Field) : list string := [get_str (fld_name item)].
Definition entity_key (item : Entity) : list string := [get_str (ent_name item)].
Definition relationship_key (item : Relationship) : list string :=
  [get_str (rel_name item); get_str (rel_from item); get_str (rel_to item);
   get_str (rel_cardinality item)].
Definition rule_key (item : Rule) : list string :=
  [get_str (rule_name item); get_str (rule_target item)].
Definition index_key (item : Index) : list string :=
  [get_str (idx_name item); get_str (idx_entity item)].
Definition term_key (item : Term) : list string := [get_str (term_term item)].

Definition _sort_fields (fields : list Field) : list Field :=
  Py.sorted field_key fields.

(** The body of the loop of [_sort_entities]: the clone with its fields
    and, if present, its tags sorted. *)
Definition sorted_entity (entity : Entity) : Entity :=
  let cloned := entity in
  mkEntity (ent_name cloned)
           (Some (_sort_fields (default [] (ent_fields cloned))))
           (Py.sorted_str <$> ent_tags cloned)
           (ent_extra cloned).

Definition _sort_entities (entities : list Entity) : list Entity :=
  let sorted_entities := map sorted_entity entities in
  Py.sorted entity_key sorted_entities.

Definition _sort_relationships (relationships : list Relationship)
  : list Relationship :=
  Py.sorted relationship_key relationships.

Definition _sort_rules (rules : list Rule) : list Rule :=
  Py.sorted rule_key rules.

Definition _sort_indexes (indexes : list Index) : list Index :=
  Py.sorted index_key indexes.

(** The body of the loop of [_sort_glossary]. *)
Definition sorted_term (term : Term) : Term :=
  let cloned := term in
  mkTerm (term_term cloned)
         (Py.sorted_str <$> term_related_fields cloned)
         (Py.sorted_str <$> term_tags cloned)
         (term_extra cloned).

Definition _sort_glossary (glossary : list Term) : list Term :=
  let sorted_terms := map sorted_term glossary in
  Py.sorted term_key sorted_terms.

(** One step of the dict comprehension below. *)
Definition rekey_step {V} (d acc : Py.dict V) (key : string) : Py.dict V :=
  match Py.dict_get key d with
  | Some v => Py.dict_set key v acc
  | None => acc
  end.

(** [{key: d[key] for key in sorted(d.keys())}] *)
Definition rekey {V} (d : Py.dict V) : Py.dict V :=
  foldl (rekey_step d) [] (Py.sorted_str (Py.dict_keys d)).

Definition compile_model (model : Model) : Model :=
  let canonical_model := default empty_meta (m_model model) in
  let canonical_entities := _sort_entities (default [] (m_entities model)) in
  let canonical_relationships :=
    _sort_relationships (default [] (m_relationships model)) in
  let canonical_indexes := _sort_indexes (default [] (m_indexes model)) in
  let canonical_rules := _sort_rules (default [] (m_rules model)) in
  let governance := default empty_governance (m_governance model) in
  let governance :=
    mkGovernance (rekey <$> gov_classification governance)
                 (rekey <$> gov_stewards governance)
                 (gov_extra governance) in
  let canonical_glossary := _sort_glossary (default [] (m_glossary model)) in
  let canonical_display := default [] (m_display model) in
  let canonical_model :=
    mkMeta (meta_name canonical_model)
           (Py.sorted_str <$> meta_owners canonical_model)
           (meta_imports canonical_model)
           (meta_extra canonical_model) in
  mkModel (Some canonical_model) (Some canonical_entities)
          (Some canonical_relationships) (Some canonical_indexes)
          (Some canonical_rules) (Some governance) (Some canonical_glossary)
          (Some canonical_display) [].

(** ** issues.py

    Only the constructor of [Issue] is used by the resolver. *)

Record Issue := mkIssue {
  severity : string;
  code : string;
  message : string;
  path : string
}.

(** ** The file system and the loader

    A [fpath] is the list of components of a [pathlib.Path].  The resolver
    reaches the disk only through the five operations below; the loader
    [dm_core.loader.load_yaml_model] either returns the parsed document or
    raises, which is the text of the exception on the right. *)

Definition fpath : Type := list string.

Record FileSystem := mkFileSystem {
  fs_exists : fpath -> bool;
  fs_is_dir : fpath -> bool;
  fs_iterdir : fpath -> list string;
  fs_resolve : fpath -> fpath;
  load_yaml_model : fpath -> Model + string
}.

(** [dir / s] for a string [s]: an absolute [s] replaces [dir]; empty
    components and [.] are dropped, [..] is kept. *)
Definition path_div (dir : fpath) (s : string) : fpath :=
  let parts :=
    filter (fun c => c <> "" /\ c <> ".") (Py.split "/"%char s) in
  match s with
  | String "/"%char _ => parts
  | _ => dir ++ parts
  end.

(** [p.parent] *)
Definition parent (p : fpath) : fpath := removelast p.

(** ** resolver.py *)

Section Resolver.
Variable fs : FileSystem.

(** The first of [candidates] for which [dir / candidate] exists; the
    candidate is joined as [pathlib] joins it, so a model name with [/]
    in it spans several components. *)
Definition first_candidate (dir : fpath) (candidates : list string)
  : option fpath :=
  path_div dir <$>
    List.find (fun c => fs_exists fs (path_div dir c)) candidates.

(** The inner loop over [sorted(search_dir.iterdir())]. *)
Fixpoint first_in_subdirs (search_dir : fpath) (subs : list string)
    (candidates : list string) : option fpath :=
  match subs with
  | [] => None
  | sub :: subs' =>
      if fs_is_dir fs (search_dir ++ [sub]) && negb (Py.starts_with_dot sub)
      then match first_candidate (search_dir ++ [sub]) candidates with
           | Some p => Some p
           | None => first_in_subdirs search_dir subs' candidates
           end
      else first_in_subdirs search_dir subs' candidates
  end.

Definition model_file_candidates (model_name : string) : list string :=
  [(model_name ++ ".model.yaml")%string; (model_name ++ ".model.yml")%string].

Fixpoint find_in_dirs (candidates : list string) (search_dirs : list fpath)
  : option fpath :=
  match search_dirs with
  | [] => None
  | search_dir :: rest =>
      match first_candidate search_dir candidates with
      | Some p => Some p
      | None =>
          match (if fs_is_dir fs search_dir
                 then first_in_subdirs search_dir
                        (Py.sorted_str (fs_iterdir fs search_dir)) candidates
                 else None) with
          | Some p => Some p
          | None => find_in_dirs candidates rest
          end
      end
  end.

Definition _find_model_file (model_name : string) (search_dirs : list fpath)
  : option fpath :=
  find_in_dirs (model_file_candidates model_name) search_dirs.

Definition _resolve_import_path (imp : Import) (root_dir : fpath)
    (search_dirs : list fpath) : option fpath :=
  if Py.truthy (get_str (imp_path imp)) then
    let candidate := path_div root_dir (get_str (imp_path imp)) in
    if fs_exists fs candidate then Some (fs_resolve fs candidate) else None
  else
    let model_name := get_str (imp_model imp) in
    if negb (Py.truthy model_name) then None
    else _find_model_file model_name (root_dir :: search_dirs).

(** [ResolvedModel]; [imported_models] keeps the order of insertion,
    which [resolve_model] iterates. *)
Record ResolvedModel := mkResolved {
  root_model : Model;
  imported_models : Py.dict Model;
  import_graph : gmap string (list string);
  file_map : gmap string fpath;
  issues : list Issue
}.

(** [ResolvedModel.__init__] *)
Definition ResolvedModel_init : ResolvedModel :=
  mkResolved empty_model [] ∅ ∅ [].

(** The mutable objects that one call of [resolve_model] threads through
    the walk: the result, the cache [loaded_models], and the list of
    the files handed to [load_yaml_model], oldest first. *)
Record Walk := mkWalk {
  result : ResolvedModel;
  loaded_models : gmap string Model;
  file_reads : list fpath
}.

(** [result.issues.append(i)] *)
Definition add_issue (i : Issue) (st : Walk) : Walk :=
  let r := result st in
  mkWalk (mkResolved (root_model r) (imported_models r) (import_graph r)
                     (file_map r) (issues r ++ [i]))
         (loaded_models st) (file_reads st).

(** The two statements under [# Track in import graph]. *)
Definition track_import (model_name imp_model_name : string) (st : Walk)
  : Walk :=
  let r := result st in
  let g := import_graph r in
  mkWalk (mkResolved (root_model r) (imported_models r)
            (<[model_name := default [] (g !! model_name) ++ [imp_model_name]]> g)
            (file_map r) (issues r))
         (loaded_models st) (file_reads st).

(** [result.imported_models[alias] = m] *)
Definition set_imported (alias : string) (m : Model) (st : Walk) : Walk :=
  let r := result st in
  mkWalk (mkResolved (root_model r) (Py.dict_set alias m (imported_models r))
                     (import_graph r) (file_map r) (issues r))
         (loaded_models st) (file_reads st).

(** The two stores after a successful load. *)
Definition remember (imp_model_name : string) (model_data : Model)
    (file_path : fpath) (st : Walk) : Walk :=
  let r := result st in
  mkWalk (mkResolved (root_model r) (imported_models r) (import_graph r)
                     (<[imp_model_name := file_path]> (file_map r)) (issues r))
         (<[imp_model_name := model_data]> (loaded_models st))
         (file_reads st).

(** A call of [load_yaml_model]. *)
Definition read_file (file_path : fpath) (st : Walk) : Walk :=
  mkWalk (result st) (loaded_models st) (file_reads st ++ [file_path]).

Definition with_entities (m : Model) (es : list Entity) : Model :=
  mkModel (m_model m) (Some es) (m_relationships m) (m_indexes m)
          (m_rules m) (m_governance m) (m_glossary m) (m_display m)
          (m_extra m).

(** [model.get("model", {}).get("name", d)] *)
Definition declared_name (d : string) (m : Model) : string :=
  default d (meta_name (default empty_meta (m_model m))).

(** [model.get("model", {}).get("imports", [])] *)
Definition declared_imports (m : Model) : list Import :=
  default [] (meta_imports (default empty_meta (m_model m))).

(** [{e.get("name", "") for e in model.get("entities", [])}] and the
    list it is built from. *)
Definition entity_names (m : Model) : list string :=
  map (fun e => get_str (ent_name e)) (default [] (m_entities m)).

(** The issue for a requested entity that the imported model lacks. *)
Definition entity_not_found (alias imp_model_name requested : string) : Issue :=
  mkIssue "error" "IMPORT_ENTITY_NOT_FOUND"
    ("Import '" ++ alias ++ "' requests entity '" ++ requested
     ++ "' which does not exist in '" ++ imp_model_name ++ "'.")%string
    "/model/imports".

(** The block under [# Apply entity filter if specified]; an absent
    filter and an empty one are both false. *)
Definition apply_entity_filter (alias imp_model_name : string)
    (entity_filter : option (list string)) (model_data : Model) (st : Walk)
  : Walk :=
  match entity_filter with
  | Some ((_ :: _) as entity_filter) =>
      let filtered := model_data in
      let available : gset string := list_to_set (entity_names model_data) in
      let st :=
        foldl (fun st requested =>
                 if bool_decide (requested ∉ available) then
                   add_issue
                     (entity_not_found alias imp_model_name requested) st
                 else st)
              st entity_filter in
      let requested_set : gset string := list_to_set entity_filter in
      let filtered :=
        with_entities filtered
          (filter (fun e => get_str (ent_name e) ∈ requested_set)
                  (default [] (m_entities model_data))) in
      set_imported alias filtered st
  | _ => set_imported alias model_data st
  end.

(** The body of [for imp in imports], with the recursive call as [rec];
    a [continue] is the left injection. *)
Definition resolve_import
    (rec : string -> list Import -> fpath -> Walk -> Walk)
    (model_name : string) (root_dir : fpath) (search_dirs : list fpath)
    (st : Walk) (imp : Import) : Walk :=
  let imp_model_name := get_str (imp_model imp) in
  let alias := default imp_model_name (imp_alias imp) in
  let entity_filter := imp_entities imp in
  if negb (Py.truthy imp_model_name) then
    add_issue (mkIssue "error" "INVALID_IMPORT"
                 "Import entry missing 'model' field." "/model/imports") st
  else
    let st := track_import model_name imp_model_name st in
    let loaded : Walk + Model * Walk :=
      match loaded_models st !! imp_model_name with
      | Some model_data => inr (model_data, st)
      | None =>
          match _resolve_import_path imp root_dir search_dirs with
          | None =>
              inl (add_issue
                     (mkIssue "error" "IMPORT_NOT_FOUND"
                        ("Cannot find model file for import '"
                         ++ imp_model_name ++ "'.")%string
                        "/model/imports") st)
          | Some file_path =>
              let st := read_file file_path st in
              match load_yaml_model fs file_path with
              | inr exc =>
                  inl (add_issue
                         (mkIssue "error" "IMPORT_LOAD_FAILED"
                            ("Failed to load imported model '"
                             ++ imp_model_name ++ "': " ++ exc)%string
                            "/model/imports") st)
              | inl model_data =>
                  let actual_name := declared_name "" model_data in
                  let st :=
                    if Py.truthy actual_name
                       && bool_decide (actual_name <> imp_model_name)
                    then add_issue
                           (mkIssue "warn" "IMPORT_NAME_MISMATCH"
                              ("Import references '" ++ imp_model_name
                               ++ "' but file declares model.name='"
                               ++ actual_name ++ "'.")%string
                              "/model/imports") st
                    else st in
                  let st := remember imp_model_name model_data file_path st in
                  let sub_imports := declared_imports model_data in
                  let st :=
                    match sub_imports with
                    | [] => st
                    | _ :: _ =>
                        rec imp_model_name sub_imports (parent file_path) st
                    end in
                  inr (model_data, st)
              end
          end
      end in
    match loaded with
    | inl st => st
    | inr (model_data, st) =>
        apply_entity_filter alias imp_model_name entity_filter model_data st
    end.

(** [_resolve_imports_recursive].  The pair [(depth, max_depth)] of the
    source is carried as [max_depth] and [gap = max_depth + 1 - depth]:
    [depth > max_depth] is [gap = 0], and the recursive call at
    [depth + 1] is the call at the predecessor of [gap]. *)
Fixpoint _resolve_imports_recursive (gap : nat) (max_depth : nat)
    (search_dirs : list fpath) (model_name : string)
    (imports : list Import) (root_dir : fpath) (st : Walk) {struct gap}
  : Walk :=
  match gap with
  | 0 =>
      add_issue
        (mkIssue "error" "IMPORT_DEPTH_EXCEEDED"
           ("Import depth exceeded " ++ pretty max_depth
            ++ ". Possible circular dependency.")%string
           "/model/imports") st
  | S gap' =>
      foldl (resolve_import
               (_resolve_imports_recursive gap' max_depth search_dirs)
               model_name root_dir search_dirs)
            st imports
  end.

(** The loop [for dep in import_graph.get(model_name, [])] of
    [_detect_cycle], with the recursive call as [rec], followed by the
    two statements after it; the sets are returned with the answer. *)
Fixpoint detect_loop
    (rec : string -> gset string -> gset string ->
           option (bool * gset string * gset string))
    (model_name : string) (deps : list string)
    (visiting visited : gset string)
  : option (bool * gset string * gset string) :=
  match deps with
  | [] => Some (false, visiting ∖ {[model_name]}, {[model_name]} ∪ visited)
  | dep :: deps' =>
      match rec dep visiting visited with
      | None => None
      | Some (true, visiting', visited') => Some (true, visiting', visited')
      | Some (false, visiting', visited') =>
          detect_loop rec model_name deps' visiting' visited'
      end
  end.

(** [_detect_cycle]; [fuel] bounds the depth of the recursion and [None]
    is its exhaustion. *)
Fixpoint _detect_cycle (fuel : nat) (import_graph : gmap string (list string))
    (model_name : string) (visiting visited : gset string)
  : option (bool * gset string * gset string) :=
  match fuel with
  | 0 => None
  | S fuel' =>
      if bool_decide (model_name ∈ visiting) then
        Some (true, visiting, visited)
      else if bool_decide (model_name ∈ visited) then
        Some (false, visiting, visited)
      else
        detect_loop (_detect_cycle fuel' import_graph) model_name
          (default [] (import_graph !! model_name))
          ({[model_name]} ∪ visiting) visited
  end.

(** Every name that occurs in the graph, as a key or as a dependency. *)
Definition graph_nodes (g : gmap string (list string)) : gset string :=
  dom g ∪ list_to_set (concat (map snd (map_to_list g))).

(** The recursion of [_detect_cycle] goes through one unfinished name
    per level, so this many levels are never exhausted
    (see [_detect_cycle_total]). *)
Definition cycle_fuel (g : gmap string (list string)) : nat :=
  S (S (size (graph_nodes g))).

(** The loop [for entity in model.get("entities", [])] of the check
    for duplicate entity names. *)
Definition check_duplicates_in (alias model_name : string)
    (acc : gmap string string * list Issue) (entity : Entity)
  : gmap string string * list Issue :=
  let '(seen_entities, out) := acc in
  let ename := get_str (ent_name entity) in
  if Py.truthy ename && bool_decide (ename ∈ dom seen_entities) then
    (seen_entities,
     out ++ [mkIssue "warn" "DUPLICATE_CROSS_MODEL_ENTITY"
               ("Entity '" ++ ename ++ "' exists in both '"
                ++ default "" (seen_entities !! ename) ++ "' and '"
                ++ model_name ++ "'. Use alias '" ++ alias
                ++ "' to disambiguate.")%string
               "/model/imports"])
  else if Py.truthy ename then (<[ename := model_name]> seen_entities, out)
  else (seen_entities, out).

Definition seen_root_entities (root_name : string) (root : Model)
  : gmap string string :=
  foldl (fun seen entity =>
           let ename := get_str (ent_name entity) in
           if Py.truthy ename then <[ename := root_name]> seen else seen)
        ∅ (default [] (m_entities root)).

Definition check_duplicates (root_name : string) (r : ResolvedModel)
  : gmap string string * list Issue :=
  foldl (fun acc '(alias, model) =>
           let model_name := declared_name alias model in
           foldl (check_duplicates_in alias model_name) acc
                 (default [] (m_entities model)))
        (seen_root_entities root_name (root_model r), issues r)
        (imported_models r).

Definition max_depth_default : nat := 10.

(** [resolve_model], with the walk it leaves behind. *)
Definition resolve_model_walk (root_path : fpath) (search_dirs : list fpath)
  : Walk :=
  let res := ResolvedModel_init in
  let root_file := fs_resolve fs root_path in
  let root_dir := parent root_file in
  let extra_dirs := map (fs_resolve fs) search_dirs in
  match load_yaml_model fs root_file with
  | inr exc =>
      add_issue (mkIssue "error" "ROOT_LOAD_FAILED"
                   ("Failed to load root model: " ++ exc)%string "/")
                (mkWalk res ∅ [root_file])
  | inl root =>
      let root_name := declared_name "unknown" root in
      let res :=
        mkResolved root (imported_models res) (import_graph res)
                   (<[root_name := root_file]> (file_map res))
                   (issues res) in
      let imports := declared_imports root in
      match imports with
      | [] => mkWalk res ∅ [root_file]
      | _ :: _ =>
          let res :=
            mkResolved (root_model res) (imported_models res)
                       (<[root_name := []]> (import_graph res))
                       (file_map res) (issues res) in
          let st :=
            _resolve_imports_recursive (S max_depth_default - 0)
              max_depth_default extra_dirs root_name imports root_dir
              (mkWalk res ∅ [root_file]) in
          let g := import_graph (result st) in
          let st :=
            match _detect_cycle (cycle_fuel g) g root_name ∅ ∅ with
            | Some (true, _, _) =>
                add_issue
                  (mkIssue "error" "CIRCULAR_IMPORT"
                     "Circular import detected in model dependency graph."
                     "/model/imports") st
            | _ => st
            end in
          let r := result st in
          mkWalk (mkResolved (root_model r) (imported_models r)
                             (import_graph r) (file_map r)
                             (check_duplicates root_name r).2)
                 (loaded_models st) (file_reads st)
      end
  end.

Definition resolve_model (root_path : fpath) (search_dirs : list fpath)
  : ResolvedModel :=
  result (resolve_model_walk root_path search_dirs).

End Resolver.

(** The number of issues with the code [c]. *)
Definition count_code (c : string) (l : list Issue) : nat :=
  length (filter (fun i => code i = c) l).

(** ** The views of [ResolvedModel] *)

(** An entity copy with the keys [_source_model] and [_import_alias]
    that [unified_entities] adds to it. *)
Record UnifiedEntity := mkUnifiedEntity {
  ue_entity : Entity;
  ue_source_model : string;
  ue_import_alias : option string
}.

Record UnifiedRelationship := mkUnifiedRelationship {
  ur_relationship : Relationship;
  ur_source_model : string
}.

Definition unified_entities (self : ResolvedModel) : list UnifiedEntity :=
  let root_name := declared_name "root" (root_model self) in
  map (fun entity => mkUnifiedEntity entity root_name None)
      (default [] (m_entities (root_model self)))
  ++ concat
       (map (fun '(alias, model) =>
               let model_name := declared_name alias model in
               map (fun entity => mkUnifiedEntity entity model_name (Some alias))
                   (default [] (m_entities model)))
            (Py.sorted_items (imported_models self))).

Definition unified_relationships (self : ResolvedModel)
  : list UnifiedRelationship :=
  let root_name := declared_name "root" (root_model self) in
  map (fun rel => mkUnifiedRelationship rel root_name)
      (default [] (m_relationships (root_model self)))
  ++ concat
       (map (fun '(alias, model) =>
               let model_name := declared_name alias model in
               map (fun rel => mkUnifiedRelationship rel model_name)
                   (default [] (m_relationships model)))
            (Py.sorted_items (imported_models self))).

(** One entry of [models] in the summary; [ms_file = None] is the empty
    string that [file_map.get(name, "")] gives for an unknown name. *)
Record ModelSummary := mkModelSummary {
  ms_name : string;
  ms_alias : option string;
  ms_file : option fpath;
  ms_entity_count : nat;
  ms_entities : list string;
  ms_imports : list string;
  ms_is_root : bool
}.

Record CrossRel := mkCrossRel {
  cr_name : string;
  cr_from_model : string;
  cr_to_model : string;
  cr_from : string;
  cr_to : string;
  cr_cardinality : string
}.

Record GraphSummary := mkGraphSummary {
  gs_root_model : string;
  gs_model_count : nat;
  gs_total_entities : nat;
  gs_cross_model_relationships : list CrossRel;
  gs_models : list ModelSummary;
  gs_issues : list Issue
}.

(** [[imp.get("alias", imp.get("model", "")) for imp in imports]] *)
Definition import_aliases (m : Model) : list string :=
  map (fun imp => default (get_str (imp_model imp)) (imp_alias imp))
      (declared_imports m).

(** The loop that fills [entity_to_model] in [to_graph_summary]. *)
Definition entity_to_model_of (all_entities : list UnifiedEntity)
  : gmap string string :=
  foldl (fun acc e => <[get_str (ent_name (ue_entity e)) := ue_source_model e]> acc)
        ∅ all_entities.

(** The body of [for rel in self.unified_relationships()]. *)
Definition cross_rel_of (entity_to_model : gmap string string)
    (rel : UnifiedRelationship) : option CrossRel :=
  let r := ur_relationship rel in
  let from_entity := Py.split_head "."%char (get_str (rel_from r)) in
  let to_entity := Py.split_head "."%char (get_str (rel_to r)) in
  let from_model := default "" (entity_to_model !! from_entity) in
  let to_model := default "" (entity_to_model !! to_entity) in
  if Py.truthy from_model && Py.truthy to_model
     && bool_decide (from_model <> to_model)
  then Some (mkCrossRel (get_str (rel_name r)) from_model to_model
               (get_str (rel_from r)) (get_str (rel_to r))
               (get_str (rel_cardinality r)))
  else None.

Definition to_graph_summary (self : ResolvedModel) : GraphSummary :=
  let root_name := declared_name "unknown" (root_model self) in
  let root_entities := default [] (m_entities (root_model self)) in
  let models :=
    [mkModelSummary root_name None (file_map self !! root_name)
       (length root_entities)
       (map (fun e => get_str (ent_name e)) root_entities)
       (import_aliases (root_model self)) true]
    ++ map (fun '(alias, model) =>
              let model_name := declared_name alias model in
              let imp_entities := default [] (m_entities model) in
              mkModelSummary model_name (Some alias)
                (file_map self !! model_name) (length imp_entities)
                (map (fun e => get_str (ent_name e)) imp_entities)
                (import_aliases model) false)
           (Py.sorted_items (imported_models self)) in
  let all_entities := unified_entities self in
  let entity_to_model := entity_to_model_of all_entities in
  let cross_rels :=
    omap (cross_rel_of entity_to_model) (unified_relationships self) in
  mkGraphSummary root_name (length models)
    (foldr Nat.add 0 (map ms_entity_count models))
    cross_rels models (issues self).

(** ** A file system given by its files

    The directories are the proper prefixes of the paths of the files,
    every path is already resolved, and a path that is no file fails to
    load. *)

Definition is_prefix_of (p q : fpath) : bool :=
  bool_decide (take (length p) q = p).

Definition fs_of_files (files : list (fpath * (Model + string))) : FileSystem :=
  let is_file p := bool_decide (p ∈ files.*1) in
  let is_dir p :=
    existsb (fun q => is_prefix_of p q && negb (bool_decide (p = q))) files.*1 in
  mkFileSystem
    (fun p => is_file p || is_dir p)
    is_dir
    (fun p =>
       remove_dups
         (omap (fun q => if is_prefix_of p q then q !! length p else None)
               files.*1))
    (fun p => p)
    (fun p =>
       match list_find (fun f => f.1 = p) files with
       | Some (_, f) => f.2
       | None => inr "No such file or directory"
       end).

(** ** The starter project of [dm init --multi-model] (dm_cli/main.py) *)

Module Scenario.

Definition fld (name type : string) (extra : Py.dict yaml) : Field :=
  mkField (Some name) (Some type) (Some false) extra.

(** [MULTI_MODEL_SHARED] *)
Definition shared_dimensions : Model :=
  mkModel
    (Some (mkMeta (Some "shared_dimensions") (Some ["data-team@example.com"])
             None
             [("spec_version", YInt 2); ("version", YStr "1.0.0");
              ("domain", YStr "shared"); ("state", YStr "draft");
              ("description",
                YStr "Shared dimension entities used across domain models")]))
    (Some [mkEntity (Some "Customer")
             (Some [fld "customer_id" "integer" [("primary_key", YBool true)];
                    fld "email" "string" [("unique", YBool true)];
                    fld "full_name" "string" [];
                    fld "created_at" "timestamp" []])
             None
             [("type", YStr "table");
              ("description", YStr "Customer master record");
              ("schema", YStr "shared");
              ("subject_area", YStr "customer_domain")]])
    None
    (Some [mkIndex (Some "idx_customer_email") (Some "Customer")
             (Some ["email"]) (Some true) []])
    None None None None [].

(** [MULTI_MODEL_ORDERS] *)
Definition orders : Model :=
  mkModel
    (Some (mkMeta (Some "orders") (Some ["data-team@example.com"])
             (Some [mkImport (Some "shared_dimensions") (Some "shared") None
                      (Some ["Customer"])])
             [("spec_version", YInt 2); ("version", YStr "1.0.0");
              ("domain", YStr "sales"); ("state", YStr "draft");
              ("description", YStr "Order domain model")]))
    (Some [mkEntity (Some "Order")
             (Some [fld "order_id" "integer" [("primary_key", YBool true)];
                    fld "customer_id" "integer" [("foreign_key", YBool true)];
                    fld "total_amount" "decimal(12,2)" [];
                    fld "order_date" "timestamp" []])
             None
             [("type", YStr "table");
              ("description", YStr "Customer orders");
              ("schema", YStr "sales");
              ("subject_area", YStr "order_domain")]])
    (Some [mkRelationship (Some "order_customer") (Some "Order.customer_id")
             (Some "Customer.customer_id") (Some "many_to_one")
             [("description",
                YStr "Order belongs to a customer (cross-model)")]])
    None None None None None [].

(** The layout that [cmd_init] writes, and the search directories of
    its [dm.config.yaml]. *)
Definition shared_file : fpath :=
  ["proj"; "models"; "shared"; "shared_dimensions.model.yaml"].
Definition orders_file : fpath :=
  ["proj"; "models"; "orders"; "orders.model.yaml"].

Definition project : FileSystem :=
  fs_of_files [(shared_file, inl shared_dimensions);
               (orders_file, inl orders)].

Definition search_dirs : list fpath :=
  [["proj"; "models"; "shared"]; ["proj"; "models"; "orders"]].

Definition resolved : ResolvedModel :=
  resolve_model project orders_file search_dirs.

End Scenario.


(** ** Equality of documents *)

Fixpoint yaml_eq_dec (x y : yaml) {struct x} : {x = y} + {x <> y}.
Proof.
  refine (match x, y with
          | YNull, YNull => left eq_refl
          | YBool a, YBool b => cast_if (decide (a = b))
          | YInt a, YInt b => cast_if (decide (a = b))
          | YStr a, YStr b => cast_if (decide (a = b))
          | YSeq a, YSeq b =>
              cast_if (list_eq_dec (dec := yaml_eq_dec) a b)
          | YMap a, YMap b =>
              cast_if (list_eq_dec
                 (dec := fun p q : string * yaml =>
                    match decide (p.1 = q.1), yaml_eq_dec p.2 q.2 with
                    | left _, left _ => left _
                    | _, _ => right _
                    end) a b)
          | _, _ => right _
          end); try congruence.
  all: try (destruct p, q; simpl in *; congruence).
Defined.

#[global] Instance yaml_eq : EqDecision yaml := yaml_eq_dec.
#[global] Instance Field_eq : EqDecision Field.
Proof. solve_decision. Defined.
#[global] Instance Entity_eq : EqDecision Entity.
Proof. solve_decision. Defined.
#[global] Instance Relationship_eq : EqDecision Relationship.
Proof. solve_decision. Defined.
#[global] Instance Index_eq : EqDecision Index.
Proof. solve_decision. Defined.

(** ** The differ *)

Module Differ.

Record DiffSummary := mkDiffSummary {
  added_entities : nat;
  removed_entities : nat;
  changed_entities : nat;
  added_relationships : nat;
  removed_relationships : nat;
  breaking_change_count : nat
}.

Record DiffReport := mkDiffReport {
  summary : DiffSummary;
  breaking_changes : list string;
  has_breaking_changes : bool
}.

(** A collection keyed by the name of its items. *)
Definition keyed {A} (key : A -> string) (l : list A) : gmap string A :=
  foldl (fun m x => <[key x := x]> m) ∅ l.

(** Keys present only in [new]. *)
Definition added {A} (old new : gmap string A) : list string :=
  Py.sorted_str (elements (dom new ∖ dom old)).

(** Keys present only in [old]. *)
Definition removed {A} (old new : gmap string A) : list string :=
  added new old.

(** Keys present in both whose items differ. *)
Definition changed {A} `{EqDecision A} (old new : gmap string A)
  : list string :=
  filter (fun k => old !! k <> new !! k)
         (Py.sorted_str (elements (dom old ∩ dom new))).

(** The breaking changes inside one entity present in both versions:
    a removed field, a changed type, nullable made non-nullable. *)
Definition field_breaking (ename : string) (old new : Entity) : list string :=
  let fo := keyed (fun f => get_str (fld_name f)) (default [] (ent_fields old)) in
  let fn := keyed (fun f => get_str (fld_name f)) (default [] (ent_fields new)) in
  map (fun f => ("Field removed: " ++ ename ++ "." ++ f)%string)
      (removed fo fn)
  ++ concat
       (map (fun f =>
               match fo !! f, fn !! f with
               | Some a, Some b =>
                   (if bool_decide (fld_type a <> fld_type b)
                    then [("Field type changed: " ++ ename ++ "." ++ f)%string]
                    else [])
                   ++ (if bool_decide (fld_nullable a = Some true
                                       /\ fld_nullable b = Some false)
                       then [("Field became non-nullable: "
                              ++ ename ++ "." ++ f)%string]
                       else [])
               | _, _ => []
               end)
            (changed fo fn)).

(** Modelled from the spec: [dm_core/diffing.py], which defines
    [semantic_diff], is not among the sources; this is section 4.3 of
    the specification.  Both documents go through the canonicalizer,
    entities, relationships and indexes are compared by name, and the
    breaking changes are a removed entity, the field changes of
    [field_breaking], a removed relationship and a removed unique
    index. *)
Definition semantic_diff (old new : Model) : DiffReport :=
  let o := compile_model old in
  let n := compile_model new in
  let eo := keyed (fun e => get_str (ent_name e)) (default [] (m_entities o)) in
  let en := keyed (fun e => get_str (ent_name e)) (default [] (m_entities n)) in
  let ro := keyed (fun r => get_str (rel_name r)) (default [] (m_relationships o)) in
  let rn := keyed (fun r => get_str (rel_name r)) (default [] (m_relationships n)) in
  let io := keyed (fun i => get_str (idx_name i)) (default [] (m_indexes o)) in
  let inw := keyed (fun i => get_str (idx_name i)) (default [] (m_indexes n)) in
  let breaking :=
    map (fun e => ("Entity removed: " ++ e)%string) (removed eo en)
    ++ concat
         (map (fun e =>
                 match eo !! e, en !! e with
                 | Some a, Some b => field_breaking e a b
                 | _, _ => []
                 end)
              (changed eo en))
    ++ map (fun r => ("Relationship removed: " ++ r)%string) (removed ro rn)
    ++ map (fun i => ("Unique index removed: " ++ i)%string)
           (filter (fun i => (io !! i) ≫= idx_unique = Some true)
                   (removed io inw)) in
  mkDiffReport
    (mkDiffSummary (length (added eo en)) (length (removed eo en))
                   (length (changed eo en)) (length (added ro rn))
                   (length (removed ro rn)) (length breaking))
    breaking
    (bool_decide (breaking <> [])).

End Differ.

(** ** The same code over a store of mutable objects

    [canonical.py] and the filter of the resolver copy, share and update
    dictionaries and lists.  Here a list or a dictionary is an object of
    a store, a variable holds a reference to it, and the statements of
    the source act on the store one after the other, so that two names
    for one object see each other's updates.  An exception leaves the
    store as it is at the [raise]. *)

Module Store.

Inductive value : Type :=
  | VNone
  | VBool (b : bool)
  | VInt (n : Z)
  | VStr (s : string)
  | VRef (l : nat).

Inductive object : Type :=
  | OList (items : list value)
  | ODict (entries : Py.dict value).

Abbreviation heap := (list object).

Inductive exn : Type :=
  AttributeError | TypeError | KeyError | RecursionError.

Inductive outcome (A : Type) : Type :=
  | Return (a : A)
  | Raise (e : exn).
Arguments Return {A} a.
Arguments Raise {A} e.

Definition M (A : Type) : Type := heap -> outcome A * heap.

Definition ret {A} (a : A) : M A := fun h => (Return a, h).
Definition raise {A} (e : exn) : M A := fun h => (Raise e, h).
Definition bind {A B} (c : M A) (k : A -> M B) : M B :=
  fun h =>
    match c h with
    | (Return a, h') => k a h'
    | (Raise e, h') => (Raise e, h')
    end.

#[global] Instance M_ret : MRet M := @ret.
#[global] Instance M_bind : MBind M := fun A B k c => bind c k.

#[global] Instance value_eq : EqDecision value.
Proof. solve_decision. Defined.
#[global] Instance object_eq : EqDecision object.
Proof. solve_decision. Defined.

(** A new object: [[]], [{}], a list or dict display. *)
Definition new (o : object) : M value :=
  fun h => (Return (VRef (length h)), h ++ [o]).

(** The object behind [x], or [e] when [x] is no list and no dict. *)
Definition deref (e : exn) (x : value) : M object :=
  fun h =>
    match x with
    | VRef l =>
        match h !! l with
        | Some o => (Return o, h)
        | None => (Raise e, h)
        end
    | _ => (Raise e, h)
    end.

(** The update of the object behind [x], in place. *)
Definition store (x : value) (o : object) : M unit :=
  fun h =>
    match x with
    | VRef l => (Return tt, <[l := o]> h)
    | _ => (Raise TypeError, h)
    end.

(** [x.get(k, d)] *)
Definition get (x : value) (k : string) (d : value) : M value :=
  o ← deref AttributeError x;
  match o with
  | ODict es => ret (default d (Py.dict_get k es))
  | OList _ => raise AttributeError
  end.

(** [x[k]] *)
Definition getitem (x : value) (k : string) : M value :=
  o ← deref TypeError x;
  match o with
  | ODict es =>
      match Py.dict_get k es with
      | Some v => ret v
      | None => raise KeyError
      end
  | OList _ => raise TypeError
  end.

(** [x[k] = v] *)
Definition setitem (x : value) (k : string) (v : value) : M unit :=
  o ← deref TypeError x;
  match o with
  | ODict es => store x (ODict (Py.dict_set k v es))
  | OList _ => raise TypeError
  end.

(** [x.append(v)] *)
Definition append (x : value) (v : value) : M unit :=
  o ← deref AttributeError x;
  match o with
  | OList items => store x (OList (items ++ [v]))
  | ODict _ => raise AttributeError
  end.

(** [k in x] *)
Definition contains (x : value) (k : string) : M bool :=
  o ← deref TypeError x;
  match o with
  | ODict es => ret (bool_decide (is_Some (Py.dict_get k es)))
  | OList items => ret (bool_decide (VStr k ∈ items))
  end.

Definition isinstance_list (x : value) : M bool :=
  fun h =>
    match x with
    | VRef l =>
        match h !! l with
        | Some (OList _) => (Return true, h)
        | _ => (Return false, h)
        end
    | _ => (Return false, h)
    end.

Definition isinstance_dict (x : value) : M bool :=
  fun h =>
    match x with
    | VRef l =>
        match h !! l with
        | Some (ODict _) => (Return true, h)
        | _ => (Return false, h)
        end
    | _ => (Return false, h)
    end.

(** The items that [for a in x] goes through: the items of a list, the
    keys of a dict, the characters of a string. *)
Definition iter (x : value) : M (list value) :=
  match x with
  | VStr s =>
      ret (map (fun c => VStr (String c EmptyString)) (list_ascii_of_string s))
  | _ =>
      o ← deref TypeError x;
      match o with
      | OList items => ret items
      | ODict es => ret (map (fun kv => VStr kv.1) es)
      end
  end.

(** Truth value. *)
Definition truth (x : value) : M bool :=
  match x with
  | VNone => ret false
  | VBool b => ret b
  | VInt n => ret (negb (n =? 0)%Z)
  | VStr s => ret (Py.truthy s)
  | VRef _ =>
      o ← deref TypeError x;
      match o with
      | OList items => ret (negb (bool_decide (items = [])))
      | ODict es => ret (negb (bool_decide (es = [])))
      end
  end.

Fixpoint forM_ {A} (l : list A) (f : A -> M unit) : M unit :=
  match l with
  | [] => ret tt
  | x :: l' => f x ;; forM_ l' f
  end.

(** A [bool] is an [int] in Python: [False] is [0] and [True] is [1]. *)
Definition as_int (v : value) : option Z :=
  match v with
  | VInt n => Some n
  | VBool b => Some (if b then 1 else 0)%Z
  | _ => None
  end.

(** [a < b].  Two strings are ordered, and so are two numbers; every
    other pair is a [TypeError] here, also [None < None] and a dict
    against itself.  CPython orders two lists item by item, which is not
    modelled: on a key that is a list the outcome can differ, the store
    cannot. *)
Definition value_lt (a b : value) : outcome bool :=
  match a, b with
  | VStr s, VStr t => Return (Py.str_lt s t)
  | _, _ =>
      match as_int a, as_int b with
      | Some m, Some n => Return (m <? n)%Z
      | _, _ => Raise TypeError
      end
  end.

(** [a is b or a == b], as the comparison of tuples asks of two items:
    numbers by value, two objects by identity.  CPython also finds two
    distinct objects of equal content equal, which is not modelled. *)
Definition same_item (a b : value) : bool :=
  match as_int a, as_int b with
  | Some m, Some n => (m =? n)%Z
  | _, _ => bool_decide (a = b)
  end.

(** [k1 < k2] on sort keys.  A key of one item stands for the bare value
    of [key=lambda item: item.get(k, "")] and of [sorted(xs)], which [<]
    compares directly; a longer key is the tuple of the source, where
    the first position whose items differ decides. *)
Fixpoint key_lt (k1 k2 : list value) : outcome bool :=
  match k1, k2 with
  | [a], [b] => value_lt a b
  | [], [] => Return false
  | [], _ :: _ => Return true
  | _ :: _, [] => Return false
  | a :: k1', b :: k2' =>
      if same_item a b then key_lt k1' k2' else value_lt a b
  end.

Fixpoint insert_keyed (x : list value * value)
    (l : list (list value * value)) : outcome (list (list value * value)) :=
  match l with
  | [] => Return [x]
  | y :: l' =>
      match key_lt y.1 x.1 with
      | Raise e => Raise e
      | Return true =>
          match insert_keyed x l' with
          | Return r => Return (y :: r)
          | Raise e => Raise e
          end
      | Return false => Return (x :: y :: l')
      end
  end.

Fixpoint sort_keyed (l : list (list value * value))
  : outcome (list (list value * value)) :=
  match l with
  | [] => Return []
  | x :: l' =>
      match sort_keyed l' with
      | Return s => insert_keyed x s
      | Raise e => Raise e
      end
  end.

(** [sorted(xs, key=key)]: the keys are computed first, one call per
    item, and the result is a new list of the same items. *)
Definition sorted_by (key : value -> M (list value)) (xs : value) : M value :=
  items ← iter xs;
  keys ← mapM key items;
  match sort_keyed (zip keys items) with
  | Return s => new (OList (map snd s))
  | Raise e => raise e
  end.

(** [sorted(xs)] *)
Definition sorted (xs : value) : M value :=
  sorted_by (fun item => ret [item]) xs.

(** The loops of [copy.deepcopy] over the items of a list and of a
    dict, with the recursive call as [rec]; [y] is the copy under
    construction. *)
Fixpoint deepcopy_items
    (rec : value -> gmap nat nat -> M (value * gmap nat nat))
    (y : value) (items : list value) (memo : gmap nat nat)
  : M (gmap nat nat) :=
  match items with
  | [] => ret memo
  | a :: items' =>
      r ← rec a memo;
      append y r.1 ;;
      deepcopy_items rec y items' r.2
  end.

Fixpoint deepcopy_entries
    (rec : value -> gmap nat nat -> M (value * gmap nat nat))
    (y : value) (entries : Py.dict value) (memo : gmap nat nat)
  : M (gmap nat nat) :=
  match entries with
  | [] => ret memo
  | (k, v) :: entries' =>
      r ← rec v memo;
      setitem y k r.1 ;;
      deepcopy_entries rec y entries' r.2
  end.

(** [copy.deepcopy(x, memo)]: an object already copied is answered from
    [memo]; [limit] is the recursion limit of the interpreter. *)
Fixpoint deepcopy_memo (limit : nat) (x : value) (memo : gmap nat nat)
  : M (value * gmap nat nat) :=
  match x with
  | VRef l =>
      match memo !! l with
      | Some l' => ret (VRef l', memo)
      | None =>
          match limit with
          | 0 => raise RecursionError
          | S limit' =>
              o ← deref TypeError x;
              match o with
              | OList items =>
                  y ← new (OList []);
                  let memo :=
                    match y with VRef ly => <[l := ly]> memo | _ => memo end in
                  memo ← deepcopy_items (deepcopy_memo limit') y items memo;
                  ret (y, memo)
              | ODict entries =>
                  y ← new (ODict []);
                  let memo :=
                    match y with VRef ly => <[l := ly]> memo | _ => memo end in
                  memo ← deepcopy_entries (deepcopy_memo limit') y entries memo;
                  ret (y, memo)
              end
          end
      end
  | _ => ret (x, memo)
  end.

(** [deepcopy(x)] *)
Definition deepcopy (limit : nat) (x : value) : M value :=
  r ← deepcopy_memo limit x ∅;
  ret r.1.

(** *** canonical.py *)

(** [lambda item: (item.get(k1, ""), ..., item.get(kn, ""))] *)
Definition key_of (ks : list string) (item : value) : M (list value) :=
  mapM (fun k => get item k (VStr "")) ks.

Definition _sort_fields (fields : value) : M value :=
  sorted_by (key_of ["name"]) fields.

Definition _sort_entities (limit : nat) (entities : value) : M value :=
  sorted_entities ← new (OList []);
  items ← iter entities;
  forM_ items (fun entity =>
    cloned ← deepcopy limit entity;
    d ← new (OList []);
    fields ← get cloned "fields" d;
    fields ← _sort_fields fields;
    setitem cloned "fields" fields ;;
    has_tags ← contains cloned "tags";
    (if has_tags : bool then
       tags ← getitem cloned "tags";
       is_list ← isinstance_list tags;
       if is_list : bool then
         tags ← getitem cloned "tags";
         tags ← sorted tags;
         setitem cloned "tags" tags
       else ret tt
     else ret tt) ;;
    append sorted_entities cloned) ;;
  sorted_by (key_of ["name"]) sorted_entities.

Definition _sort_relationships (relationships : value) : M value :=
  sorted_by (key_of ["name"; "from"; "to"; "cardinality"]) relationships.

Definition _sort_rules (rules : value) : M value :=
  sorted_by (key_of ["name"; "target"]) rules.

Definition _sort_indexes (limit : nat) (indexes : value) : M value :=
  copied ← deepcopy limit indexes;
  sorted_by (key_of ["name"; "entity"]) copied.

(** [if k in cloned and isinstance(cloned[k], list):
       cloned[k] = sorted(cloned[k])] *)
Definition sort_if_list (cloned : value) (k : string) : M unit :=
  has ← contains cloned k;
  if has : bool then
    v ← getitem cloned k;
    is_list ← isinstance_list v;
    if is_list : bool then
      v ← getitem cloned k;
      v ← sorted v;
      setitem cloned k v
    else ret tt
  else ret tt.

Definition _sort_glossary (limit : nat) (glossary : value) : M value :=
  sorted_terms ← new (OList []);
  items ← iter glossary;
  forM_ items (fun term =>
    cloned ← deepcopy limit term;
    sort_if_list cloned "related_fields" ;;
    sort_if_list cloned "tags" ;;
    append sorted_terms cloned) ;;
  sorted_by (key_of ["term"]) sorted_terms.

(** [v = governance.get(k)
     if isinstance(v, dict):
         governance[k] = {key: v[key] for key in sorted(v.keys())}] *)
Definition rekey_if_dict (governance : value) (k : string) : M unit :=
  v ← get governance k VNone;
  is_dict ← isinstance_dict v;
  if is_dict : bool then
    o ← deref TypeError v;
    match o with
    | ODict es => rekeyed ← new (ODict (rekey es)); setitem governance k rekeyed
    | OList _ => raise TypeError
    end
  else ret tt.

Definition compile_model (limit : nat) (model : value) : M value :=
  d ← new (ODict []);
  v ← get model "model" d;
  c_model ← deepcopy limit v;
  d ← new (OList []);
  v ← get model "entities" d;
  c_entities ← _sort_entities limit v;
  d ← new (OList []);
  v ← get model "relationships" d;
  c_relationships ← _sort_relationships v;
  d ← new (OList []);
  v ← get model "indexes" d;
  c_indexes ← _sort_indexes limit v;
  d ← new (OList []);
  v ← get model "rules" d;
  c_rules ← _sort_rules v;
  canonical ← new (ODict [("model", c_model); ("entities", c_entities);
                          ("relationships", c_relationships);
                          ("indexes", c_indexes); ("rules", c_rules)]);
  d ← new (ODict []);
  v ← get model "governance" d;
  governance ← deepcopy limit v;
  rekey_if_dict governance "classification" ;;
  rekey_if_dict governance "stewards" ;;
  setitem canonical "governance" governance ;;
  d ← new (OList []);
  v ← get model "glossary" d;
  v ← _sort_glossary limit v;
  setitem canonical "glossary" v ;;
  d ← new (ODict []);
  v ← get model "display" d;
  v ← deepcopy limit v;
  setitem canonical "display" v ;;
  cm ← getitem canonical "model";
  owners ← get cm "owners" VNone;
  is_list ← isinstance_list owners;
  (if is_list : bool then
     owners ← sorted owners;
     cm ← getitem canonical "model";
     setitem cm "owners" owners
   else ret tt) ;;
  ret canonical.

(** *** The entity filter of resolver.py

    [result] is the [ResolvedModel] under construction, an object with
    the attributes [issues] and [imported_models]. *)

(** [Issue(severity=.., code=.., message=.., path=..)] *)
Definition Issue (severity code message path : string) : M value :=
  new (ODict [("severity", VStr severity); ("code", VStr code);
              ("message", VStr message); ("path", VStr path)]).

(** [str(x)], as an f-string formats it. *)
Definition str (x : value) : string :=
  match x with
  | VNone => "None"
  | VBool true => "True"
  | VBool false => "False"
  | VInt n => pretty n
  | VStr s => s
  | VRef _ => "<object>"
  end.

(** The members of a set are hashed: a list or a dict is none. *)
Definition hashed (x : value) : M value :=
  match x with
  | VRef _ => raise TypeError
  | _ => ret x
  end.

Fixpoint filterM {A} (f : A -> M bool) (l : list A) : M (list A) :=
  match l with
  | [] => ret []
  | x :: l' =>
      b ← f x;
      ys ← filterM f l';
      ret (if b : bool then x :: ys else ys)
  end.

(** [{e.get("name", "") for e in model_data.get("entities", [])}] *)
Definition entity_names (model_data : value) : M (list value) :=
  d ← new (OList []);
  entities ← get model_data "entities" d;
  entities ← iter entities;
  mapM (fun e => n ← get e "name" (VStr ""); hashed n) entities.

Definition apply_entity_filter (limit : nat) (result : value)
    (alias imp_model_name : string) (entity_filter model_data : value)
  : M unit :=
  t ← truth entity_filter;
  if t : bool then
    filtered ← deepcopy limit model_data;
    available ← entity_names model_data;
    all_requested ← iter entity_filter;
    forM_ all_requested (fun requested =>
      requested ← hashed requested;
      if bool_decide (requested ∉ available) then
        i ← Issue "error" "IMPORT_ENTITY_NOT_FOUND"
              ("Import '" ++ alias ++ "' requests entity '" ++ str requested
               ++ "' which does not exist in '" ++ imp_model_name ++ "'.")%string
              "/model/imports";
        issues ← getitem result "issues";
        append issues i
      else ret tt) ;;
    d ← new (OList []);
    entities ← get model_data "entities" d;
    entities ← iter entities;
    kept ← filterM (fun e =>
               n ← get e "name" (VStr "");
               n ← hashed n;
               wanted ← iter entity_filter;
               wanted ← mapM hashed wanted;
               ret (bool_decide (n ∈ wanted)))
             entities;
    kept ← new (OList kept);
    setitem filtered "entities" kept ;;
    imported_models ← getitem result "imported_models";
    setitem imported_models alias filtered
  else
    copied ← deepcopy limit model_data;
    imported_models ← getitem result "imported_models";
    setitem imported_models alias copied.

(** *** Documents in the store *)

(** The objects of a parsed document [y]. *)
Fixpoint load (y : yaml) : M value :=
  match y with
  | YNull => ret VNone
  | YBool b => ret (VBool b)
  | YInt n => ret (VInt n)
  | YStr s => ret (VStr s)
  | YSeq items =>
      vs ← (fix go (l : list yaml) : M (list value) :=
              match l with
              | [] => ret []
              | a :: l' => v ← load a; vs ← go l'; ret (v :: vs)
              end) items;
      new (OList vs)
  | YMap entries =>
      vs ← (fix go (l : list (string * yaml)) : M (Py.dict value) :=
              match l with
              | [] => ret []
              | (k, a) :: l' => v ← load a; vs ← go l'; ret ((k, v) :: vs)
              end) entries;
      new (ODict vs)
  end.

(** The document that [x] stands for in the store [h], read to the
    depth [fuel]. *)
Fixpoint dump (fuel : nat) (h : heap) (x : value) : option yaml :=
  match x with
  | VNone => Some YNull
  | VBool b => Some (YBool b)
  | VInt n => Some (YInt n)
  | VStr s => Some (YStr s)
  | VRef l =>
      match fuel with
      | 0 => None
      | S fuel' =>
          match h !! l with
          | Some (OList items) =>
              YSeq <$> mapM (M := option) (dump fuel' h) items
          | Some (ODict es) =>
              YMap <$> mapM (M := option)
                         (fun kv => pair kv.1 <$> dump fuel' h kv.2) es
          | None => None
          end
      end
  end.

(** *** What a computation may change *)

(** [h'] extends [h], and agrees with it at every protected location
    below [n]. *)
Definition keeps (n : nat) (prot : nat -> Prop) (h h' : heap) : Prop :=
  length h <= length h'
  /\ forall l, l < n -> prot l -> h' !! l = h !! l.

(** [v] is no reference to an object below [n]. *)
Definition fresh (n : nat) (v : value) : Prop :=
  forall l, v = VRef l -> n <= l.

(** From a store that has the objects below [n] and satisfies [P], the
    computation [c] keeps the protected objects below [n], whatever its
    outcome, and a result together with the final store satisfies [Q]. *)
Definition triple (n : nat) (prot : nat -> Prop) {A} (P : heap -> Prop)
    (c : M A) (Q : A -> heap -> Prop) : Prop :=
  forall h, n <= length h -> P h ->
    keeps n prot h (c h).2
    /\ forall a, (c h).1 = Return a -> Q a (c h).2.

(** [c] leaves the store as it is. *)
Definition reads {A} (c : M A) : Prop := forall h, (c h).2 = h.

(** [c] only adds objects to the store, whatever its outcome, and its
    result satisfies [Q] at the size of the store it started from. *)
Definition appends {A} (c : M A) (Q : nat -> A -> Prop) : Prop :=
  forall h,
    h `prefix_of` (c h).2
    /\ forall a, (c h).1 = Return a -> Q (length h) a.

(** The values held by the object [o]. *)
Definition refs_of (o : object) : list value :=
  match o with
  | OList items => items
  | ODict es => es.*2
  end.

(** [S] contains every object that an object of [S] refers to. *)
Definition closed (h : heap) (S : nat -> Prop) : Prop :=
  forall l o l', S l -> h !! l = Some o -> VRef l' ∈ refs_of o -> S l'.

(** *** Invariants of the store *)

(** Every copy recorded in [memo] is an object at or above [n]. *)
Definition memo_fresh (n : nat) (memo : gmap nat nat) : Prop :=
  forall l l', memo !! l = Some l' -> n <= l'.

Section Copies.
Context (n : nat) (prot : nat -> Prop).

(** A copying computation returns a value of its own making and keeps
    the memo among the objects of its own making. *)
Definition copies (c : gmap nat nat -> M (value * gmap nat nat)) : Prop :=
  forall memo,
    memo_fresh n memo ->
    triple n prot (fun _ => True) (c memo)
           (fun r _ => fresh n r.1 /\ memo_fresh n r.2).

Definition fills (c : gmap nat nat -> M (gmap nat nat)) : Prop :=
  forall memo,
    memo_fresh n memo ->
    triple n prot (fun _ => True) (c memo) (fun memo' _ => memo_fresh n memo').

End Copies.

(** [P] survives the addition of objects. *)
Definition stable_ext (P : heap -> Prop) : Prop :=
  forall h h', P h -> h `prefix_of` h' -> P h'.

(** [P] survives any update of the object behind [x]. *)
Definition stable_at (P : heap -> Prop) (x : value) : Prop :=
  forall h l o, P h -> x = VRef l -> P (<[l := o]> h).

(** The dict at [lc] holds [cm] under the key ["model"]. *)
Definition holds_model (lc : nat) (cm : value) (h : heap) : Prop :=
  exists d, h !! lc = Some (ODict d) /\ Py.dict_get "model" d = Some cm.

(** The object [result], at [lr] with the attributes [attrs], is as it
    was. *)
Definition result_intact (lr : nat) (attrs : Py.dict value) (h : heap)
  : Prop :=
  h !! lr = Some (ODict attrs).

(** The objects that the filter may update are the values of the
    attributes [issues] and [imported_models] of [result]; [l] is none
    of them. *)
Definition not_of_result (attrs : Py.dict value) (l : nat) : Prop :=
  Py.dict_get "issues" attrs <> Some (VRef l)
  /\ Py.dict_get "imported_models" attrs <> Some (VRef l).

End Store.

(** ** Records as documents

    The mapping that a record stands for: the keys it reads first, then
    the keys it carries along, absent keys left out. *)

Module Doc.

Definition opt {A} (k : string) (f : A -> yaml) (o : option A)
  : Py.dict yaml :=
  match o with Some a => [(k, f a)] | None => [] end.

Definition strs (l : list string) : yaml := YSeq (map YStr l).

Definition of_field (f : Field) : yaml :=
  YMap (opt "name" YStr (fld_name f) ++ opt "type" YStr (fld_type f)
        ++ opt "nullable" YBool (fld_nullable f) ++ fld_extra f).

Definition of_entity (e : Entity) : yaml :=
  YMap (opt "name" YStr (ent_name e) ++ ent_extra e
        ++ opt "fields" (fun l => YSeq (map of_field l)) (ent_fields e)
        ++ opt "tags" strs (ent_tags e)).

Definition of_relationship (r : Relationship) : yaml :=
  YMap (opt "name" YStr (rel_name r) ++ opt "from" YStr (rel_from r)
        ++ opt "to" YStr (rel_to r)
        ++ opt "cardinality" YStr (rel_cardinality r) ++ rel_extra r).

Definition of_index (i : Index) : yaml :=
  YMap (opt "name" YStr (idx_name i) ++ opt "entity" YStr (idx_entity i)
        ++ opt "fields" strs (idx_fields i)
        ++ opt "unique" YBool (idx_unique i) ++ idx_extra i).

Definition of_rule (r : Rule) : yaml :=
  YMap (opt "name" YStr (rule_name r) ++ opt "target" YStr (rule_target r)
        ++ rule_extra r).

Definition of_term (t : Term) : yaml :=
  YMap (opt "term" YStr (term_term t) ++ term_extra t
        ++ opt "related_fields" strs (term_related_fields t)
        ++ opt "tags" strs (term_tags t)).

Definition of_import (i : Import) : yaml :=
  YMap (opt "model" YStr (imp_model i) ++ opt "alias" YStr (imp_alias i)
        ++ opt "path" YStr (imp_path i)
        ++ opt "entities" strs (imp_entities i)).

Definition of_meta (m : Meta) : yaml :=
  YMap (opt "name" YStr (meta_name m) ++ meta_extra m
        ++ opt "owners" strs (meta_owners m)
        ++ opt "imports" (fun l => YSeq (map of_import l)) (meta_imports m)).

Definition of_governance (g : Governance) : yaml :=
  YMap (opt "classification" YMap (gov_classification g)
        ++ opt "stewards" YMap (gov_stewards g) ++ gov_extra g).

Definition of_model (m : Model) : yaml :=
  YMap (opt "model" of_meta (m_model m)
        ++ opt "entities" (fun l => YSeq (map of_entity l)) (m_entities m)
        ++ opt "relationships" (fun l => YSeq (map of_relationship l))
             (m_relationships m)
        ++ opt "indexes" (fun l => YSeq (map of_index l)) (m_indexes m)
        ++ opt "rules" (fun l => YSeq (map of_rule l)) (m_rules m)
        ++ opt "governance" of_governance (m_governance m)
        ++ opt "glossary" (fun l => YSeq (map of_term l)) (m_glossary m)
        ++ opt "display" YMap (m_display m)
        ++ m_extra m).

End Doc.

(** ** Orders and reorderings of documents *)

(** [k1 <= k2] on keys, as "not [k2 < k1]". *)
Definition tuple_le (k1 k2 : list string) : Prop :=
  Py.tuple_lt k2 k1 = false.

Definition key_le {A} (key : A -> list string) (x y : A) : Prop :=
  tuple_le (key x) (key y).

(** [a < b] on strings. *)
Definition str_lt_rel (a b : string) : Prop := Py.str_lt a b = true.

(** The key decides the item: items of [l] with the same key are the
    same item. *)
Definition key_decides {A} (key : A -> list string) (l : list A) : Prop :=
  forall x y, x ∈ l -> y ∈ l -> key x = key y -> x = y.

(** In every collection that [compile_model] sorts by a key, the key
    decides the item. *)
Definition keys_decide (m : Model) : Prop :=
  key_decides entity_key (default [] (m_entities m))
  /\ Forall (fun e => key_decides field_key (default [] (ent_fields e)))
            (default [] (m_entities m))
  /\ key_decides relationship_key (default [] (m_relationships m))
  /\ key_decides index_key (default [] (m_indexes m))
  /\ key_decides rule_key (default [] (m_rules m))
  /\ key_decides term_key (default [] (m_glossary m)).

(** The same list, if any, in another order. *)
Definition reordered {A} (o o' : option (list A)) : Prop :=
  match o, o' with
  | Some l, Some l' => l ≡ₚ l'
  | None, None => True
  | _, _ => False
  end.

(** The same list, if any, in another order and with each item replaced
    by an [R]-variant of it. *)
Definition reordered_with {A} (R : A -> A -> Prop) (o o' : option (list A))
  : Prop :=
  match o, o' with
  | Some l, Some l' => exists l0, Forall2 R l l0 /\ l0 ≡ₚ l'
  | None, None => True
  | _, _ => False
  end.

(** The same entity with its fields and its tags in another order. *)
Definition entity_reordered (e e' : Entity) : Prop :=
  ent_name e = ent_name e'
  /\ reordered (ent_fields e) (ent_fields e')
  /\ reordered (ent_tags e) (ent_tags e')
  /\ ent_extra e = ent_extra e'.

(** The same glossary term with its related fields and its tags in
    another order. *)
Definition term_reordered (t t' : Term) : Prop :=
  term_term t = term_term t'
  /\ reordered (term_related_fields t) (term_related_fields t')
  /\ reordered (term_tags t) (term_tags t')
  /\ term_extra t = term_extra t'.

(** The same document with the collections that [compile_model] sorts,
    and the lists it sorts inside them, in another order. *)
Definition model_reordered (m m' : Model) : Prop :=
  m_model m = m_model m'
  /\ reordered_with entity_reordered (m_entities m) (m_entities m')
  /\ reordered (m_relationships m) (m_relationships m')
  /\ reordered (m_indexes m) (m_indexes m')
  /\ reordered (m_rules m) (m_rules m')
  /\ m_governance m = m_governance m'
  /\ reordered_with term_reordered (m_glossary m) (m_glossary m')
  /\ m_display m = m_display m'
  /\ m_extra m = m_extra m'.

(** The items of [l] that have the sort key [k] stand in [l'] in the
    same order, for every [k]: ties are not reordered. *)
Definition ties_kept {A} (key : A -> list string) (l l' : list A) : Prop :=
  forall k, filter (fun x => key x = k) l' = filter (fun x => key x = k) l.

(** ** The cache in front of an import of the root *)

(** The models that [resolve_model] has in [loaded_models] when the
    loop over the imports of the root [root] is done with the imports
    [before]. *)
Definition loaded_before (fs : FileSystem) (root_path : fpath)
    (search_dirs : list fpath) (root : Model) (before : list Import)
  : gmap string Model :=
  let root_file := fs_resolve fs root_path in
  let root_name := declared_name "unknown" root in
  loaded_models
    (_resolve_imports_recursive fs (S max_depth_default) max_depth_default
       (map (fs_resolve fs) search_dirs) root_name before (parent root_file)
       (mkWalk (mkResolved root [] {[root_name := []]}
                           {[root_name := root_file]} [])
               ∅ [root_file])).

(** ** The import graph and the walk that records it *)

Module ImportGraph.

Section Graph.
Context (g : gmap string (list string)).

(** [a] imports [b] in the recorded graph. *)
Definition edge (a b : string) : Prop :=
  exists deps, g !! a = Some deps /\ b ∈ deps.

(** Every dependency of a finished name is finished. *)
Definition finished (visited : gset string) : Prop :=
  forall v d, v ∈ visited -> edge v d -> d ∈ visited.

(** The number of names not yet met. *)
Definition unmet (visiting visited : gset string) : nat :=
  size (graph_nodes g ∖ (visiting ∪ visited)).

(** What a call of [_detect_cycle] on [n] that does not answer [True]
    leaves behind. *)
Definition after_false (n : string) (vg vd vg' vd' : gset string) : Prop :=
  vg' = vg /\ vd ⊆ vd' /\ n ∈ vd' /\ finished vd' /\ vg' ## vd'.

(** With [fuel] above the number of names not yet met, [_detect_cycle]
    answers. *)
Definition detects (fuel : nat) : Prop :=
  forall n vg vd,
    n ∈ graph_nodes g -> unmet vg vd < fuel -> vg ## vd -> finished vd ->
    exists b vg' vd',
      _detect_cycle fuel g n vg vd = Some (b, vg', vd')
      /\ (b = false -> after_false n vg vd vg' vd').

End Graph.

Definition graph (st : Walk) : gmap string (list string) :=
  import_graph (result st).

Definition no_circular (l : list Issue) : Prop :=
  Forall (fun i => code i <> "CIRCULAR_IMPORT") l.

(** From [st] to [st'] no recorded import is lost and no
    [CIRCULAR_IMPORT] issue is added. *)
Definition grows (st st' : Walk) : Prop :=
  (forall a b, edge (graph st) a b -> edge (graph st') a b)
  /\ (no_circular (issues (result st)) -> no_circular (issues (result st'))).

(** A recursive call that only adds. *)
Definition rec_grows (rec : string -> list Import -> fpath -> Walk -> Walk)
  : Prop :=
  forall name imports dir st, grows st (rec name imports dir st).

(** The imports of [m] that name a model are recorded as imports of
    [n]. *)
Definition recorded (st : Walk) (n : string) (m : Model) : Prop :=
  forall imp,
    imp ∈ declared_imports m -> Py.truthy (get_str (imp_model imp)) = true ->
    edge (graph st) n (get_str (imp_model imp)).

(** The walk has reported that it went too deep. *)
Definition too_deep (st : Walk) : Prop :=
  exists i, i ∈ issues (result st) /\ code i = "IMPORT_DEPTH_EXCEEDED".

(** Where the walk stands when [active] are the names whose imports are
    being walked.  A name with recorded imports is the name of the root
    or the name of a model in the cache; and a model in the cache, under
    a name that is neither the root's nor active, has its imports
    recorded, unless the walk went too deep, in which case the name may
    have no recorded import at all. *)
Definition walked (root_name : string) (active : gset string) (st : Walk)
  : Prop :=
  (forall n, n ∈ dom (graph st) ->
             n = root_name \/ n ∈ dom (loaded_models st))
  /\ forall n m,
       n <> root_name -> n ∉ active -> loaded_models st !! n = Some m ->
       recorded st n m \/ (n ∉ dom (graph st) /\ too_deep st).

(** A recursive call either records every import that it is given, or
    reports that it went too deep and records nothing. *)
Definition rec_records (rec : string -> list Import -> fpath -> Walk -> Walk)
  : Prop :=
  forall name imports dir st,
    (forall imp,
       imp ∈ imports -> Py.truthy (get_str (imp_model imp)) = true ->
       edge (graph (rec name imports dir st)) name (get_str (imp_model imp)))
    \/ (graph (rec name imports dir st) = graph st
        /\ too_deep (rec name imports dir st)).

(** A recursive call that keeps [walked], for the imports of the root
    or of an active name that is in the cache. *)
Definition rec_walked (root_name : string)
    (rec : string -> list Import -> fpath -> Walk -> Walk) : Prop :=
  forall active name imports dir st,
    name ∈ dom (file_map (result st)) ->
    name = root_name \/ (name ∈ active /\ name ∈ dom (loaded_models st)) ->
    walked root_name active st ->
    walked root_name active (rec name imports dir st).

End ImportGraph.

(** ** The order of the search for a model file, in words *)

Module SearchOrder.
Section Order.
Variable fs : FileSystem.

(** The immediate subdirectories of [dir] that are not hidden, in
    lexicographic order. *)
Definition subdirectories (dir : fpath) : list fpath :=
  if fs_is_dir fs dir then
    map (fun sub => dir ++ [sub])
        (List.filter
           (fun sub => fs_is_dir fs (dir ++ [sub])
                       && negb (Py.starts_with_dot sub))
           (Py.sorted_str (fs_iterdir fs dir)))
  else [].

(** Directory by directory: each directory is followed at once by
    its subdirectories. *)
Definition depth_first (dirs : list fpath) : list fpath :=
  flat_map (fun dir => dir :: subdirectories dir) dirs.

(** All the directories first, then the subdirectories of each. *)
Definition top_levels_first (dirs : list fpath) : list fpath :=
  dirs ++ flat_map subdirectories dirs.

(** The first path that exists when the directories are tried in
    the given order, each with [candidates] in their order. *)
Definition first_existing (candidates : list string) (order : list fpath)
  : option fpath :=
  List.find (fs_exists fs)
    (flat_map (fun dir => map (path_div dir) candidates) order).
End Order.
End SearchOrder.

(** ** Who owns an entity name, in words *)

Module Ownership.

(** The pairs (entity name, model) of the entities of one model. *)
Definition named (model_name : string) (m : Model) : Py.dict string :=
  map (fun e => (get_str (ent_name e), model_name)) (default [] (m_entities m)).

(** The root first, then the imported models in the order [models]. *)
Definition in_order (root_name : string) (root : Model)
    (models : Py.dict Model) : Py.dict string :=
  named root_name root
  ++ flat_map (fun '(alias, m) => named (declared_name alias m) m) models.

(** The first owner of [name] in [order]. *)
Definition first_owner (name : string) (order : Py.dict string)
  : option string :=
  Py.dict_get name order.

(** The last owner of [name] in [order]. *)
Definition last_owner (name : string) (order : Py.dict string)
  : option string :=
  Py.dict_get name (reverse order).

(** A relationship crosses models when the entity at each of its two
    ends has an owner, the owners have a name, and they differ; the
    entry of the summary then names the two owners. *)
Definition crossing (owner : string -> option string)
    (rel : UnifiedRelationship) : option CrossRel :=
  let r := ur_relationship rel in
  match owner (Py.split_head "."%char (get_str (rel_from r))),
        owner (Py.split_head "."%char (get_str (rel_to r))) with
  | Some f, Some t =>
      if bool_decide (f <> "" /\ t <> "" /\ f <> t)
      then Some (mkCrossRel (get_str (rel_name r)) f t
                   (get_str (rel_from r)) (get_str (rel_to r))
                   (get_str (rel_cardinality r)))
      else None
  | _, _ => None
  end.

(** The warning about the entity [ename] of the model [model_name],
    imported as [alias], when [owner] has declared the name before. *)
Definition duplicate_warning (ename owner model_name alias : string) : Issue :=
  mkIssue "warn" "DUPLICATE_CROSS_MODEL_ENTITY"
    ("Entity '" ++ ename ++ "' exists in both '" ++ owner ++ "' and '"
     ++ model_name ++ "'. Use alias '" ++ alias ++ "' to disambiguate.")%string
    "/model/imports".

End Ownership.

(** ** Documents used as examples *)

Module Examples.

Definition only_indexes (l : list Index) : Model :=
  mkModel None None None (Some l) None None None None [].

Definition only_relationships (l : list Relationship) : Model :=
  mkModel None None (Some l) None None None None None [].

(** One composite index, its columns in two orders. *)
Definition idx_ba : Index :=
  mkIndex (Some "idx_order") (Some "Order") (Some ["b"; "a"]) None [].
Definition idx_ab : Index :=
  mkIndex (Some "idx_order") (Some "Order") (Some ["a"; "b"]) None [].

(** Two relationships with the same name, ends and cardinality, and
    different descriptions. *)
Definition rel_first : Relationship :=
  mkRelationship (Some "r") (Some "A.id") (Some "B.id") (Some "one_to_one")
                 [("description", YStr "first")].
Definition rel_second : Relationship :=
  mkRelationship (Some "r") (Some "A.id") (Some "B.id") (Some "one_to_one")
                 [("description", YStr "second")].

(** [Scenario.orders] with the fields of [Order] in another order. *)
Definition orders_reordered : Model :=
  mkModel
    (m_model Scenario.orders)
    (Some [mkEntity (Some "Order")
             (Some [Scenario.fld "customer_id" "integer" [("foreign_key", YBool true)];
                    Scenario.fld "order_id" "integer" [("primary_key", YBool true)];
                    Scenario.fld "total_amount" "decimal(12,2)" [];
                    Scenario.fld "order_date" "timestamp" []])
             None
             [("type", YStr "table");
              ("description", YStr "Customer orders");
              ("schema", YStr "sales");
              ("subject_area", YStr "order_domain")]])
    (m_relationships Scenario.orders)
    None None None None None [].

(** A model [dim] that exists twice: in a subdirectory of the
    directory of the importing model, and at the top of a search
    directory. *)
Definition dim : Model :=
  mkModel (Some (mkMeta (Some "dim") None None [])) None None None None
          None None None [].
Definition two_copies : FileSystem :=
  fs_of_files [(["app"; "main.model.yaml"], inl empty_model);
               (["app"; "vendored"; "dim.model.yaml"], inl dim);
               (["lib"; "dim.model.yaml"], inl dim)].
Definition import_dim : Import := mkImport (Some "dim") None None None.

(** A root model and an imported one that both declare [Customer]. *)
Definition crm : Model :=
  mkModel (Some (mkMeta (Some "crm") None None []))
          (Some [mkEntity (Some "Customer") None None []])
          None None None None None None [].
Definition billing : Model :=
  mkModel (Some (mkMeta (Some "billing") None None []))
          (Some [mkEntity (Some "Customer") None None []])
          None None None None None None [].
Definition crm_with_billing : ResolvedModel :=
  mkResolved crm [("billing", billing)] ∅ ∅ [].

(** A root that imports [zmod] and then [amod], which both declare the
    entity [Item]; a relationship of the root ends at [Item]. *)
Definition zmod : Model :=
  mkModel (Some (mkMeta (Some "zmod") None None []))
          (Some [mkEntity (Some "Item") None None []])
          None None None None None None [].
Definition amod : Model :=
  mkModel (Some (mkMeta (Some "amod") None None []))
          (Some [mkEntity (Some "Item") None None []])
          None None None None None None [].
Definition shop : Model :=
  mkModel (Some (mkMeta (Some "shop") None
                   (Some [mkImport (Some "zmod") None None None;
                          mkImport (Some "amod") None None None]) []))
          (Some [mkEntity (Some "Order") None None []])
          (Some [mkRelationship (Some "order_item") (Some "Order.item_id")
                   (Some "Item.id") (Some "many_to_one") []])
          None None None None None [].
Definition shop_file : fpath := ["proj"; "shop.model.yaml"].
Definition two_owners : FileSystem :=
  fs_of_files [(shop_file, inl shop);
               (["proj"; "zmod.model.yaml"], inl zmod);
               (["proj"; "amod.model.yaml"], inl amod)].
Definition shop_resolved : ResolvedModel :=
  resolve_model two_owners shop_file [].

(** [app] imports [lib] with the filter [Keep] and then [mid], and
    [mid] imports [lib] without a filter; [lib] declares [Keep] and
    [Drop]. *)
Definition lib : Model :=
  mkModel (Some (mkMeta (Some "lib") None None []))
          (Some [mkEntity (Some "Keep") None None [];
                 mkEntity (Some "Drop") None None []])
          None None None None None None [].
Definition mid : Model :=
  mkModel (Some (mkMeta (Some "mid") None
                   (Some [mkImport (Some "lib") None None None]) []))
          None None None None None None None [].
Definition app : Model :=
  mkModel (Some (mkMeta (Some "app") None
                   (Some [mkImport (Some "lib") None None (Some ["Keep"]);
                          mkImport (Some "mid") None None None]) []))
          None None None None None None None [].
Definition app_file : fpath := ["proj"; "app.model.yaml"].
Definition lib_twice : FileSystem :=
  fs_of_files [(app_file, inl app);
               (["proj"; "lib.model.yaml"], inl lib);
               (["proj"; "mid.model.yaml"], inl mid)].

(** Two models in one directory that import each other. *)
Definition model_a : Model :=
  mkModel (Some (mkMeta (Some "a") None
                   (Some [mkImport (Some "b") None None None]) []))
          (Some [mkEntity (Some "Account") None None []])
          None None None None None None [].
Definition model_b : Model :=
  mkModel (Some (mkMeta (Some "b") None
                   (Some [mkImport (Some "a") None None None]) []))
          (Some [mkEntity (Some "Bill") None None []])
          None None None None None None [].
Definition file_a : fpath := ["proj"; "a.model.yaml"].
Definition file_b : fpath := ["proj"; "b.model.yaml"].
Definition mutual : FileSystem :=
  fs_of_files [(file_a, inl model_a); (file_b, inl model_b)].

(** Twelve models in one directory: [a] imports [c1] and then [b],
    [c1] imports [c2] and so on up to [c10], which imports [b], and [b]
    imports [a]. *)
Definition importing (name : string) (deps : list string) : Model :=
  mkModel (Some (mkMeta (Some name) None
                   (Some (map (fun d => mkImport (Some d) None None None) deps))
                   []))
          None None None None None None None [].
Definition chain_file (name : string) : fpath :=
  ["proj"; (name ++ ".model.yaml")%string].
Definition chain_models : list Model :=
  [importing "a" ["c1"; "b"];
   importing "c1" ["c2"]; importing "c2" ["c3"]; importing "c3" ["c4"];
   importing "c4" ["c5"]; importing "c5" ["c6"]; importing "c6" ["c7"];
   importing "c7" ["c8"]; importing "c8" ["c9"]; importing "c9" ["c10"];
   importing "c10" ["b"];
   importing "b" ["a"]].
Definition chain : FileSystem :=
  fs_of_files
    (map (fun m => (chain_file (declared_name "unknown" m), inl m))
         chain_models).

(** [a] imports [c] and then [b], [c] imports [b], and [b] imports
    [a]: [b] is in the cache when the loop over the imports of [a]
    comes to it. *)
Definition through_cache : FileSystem :=
  fs_of_files
    (map (fun m => (chain_file (declared_name "unknown" m), inl m))
         [importing "a" ["c"; "b"]; importing "c" ["b"];
          importing "b" ["a"]]).

(** An import of [shared_dimensions] whose filter is the empty list,
    applied to a walk that has nothing yet. *)
Definition empty_walk : Walk := mkWalk ResolvedModel_init ∅ [].
Definition after_empty_filter : Walk :=
  apply_entity_filter "shared" "shared_dimensions" (Some [])
    Scenario.shared_dimensions empty_walk.

(** A store with a [result] object at 0, its [issues] at 1 and its
    [imported_models] at 2, followed by the objects of
    [shared_dimensions] and by a filter that asks for [Customer] and for
    [Ghost]. *)
Definition result_attrs : Py.dict Store.value :=
  [("issues", Store.VRef 1); ("imported_models", Store.VRef 2)].
Definition filter_loaded : Store.outcome Store.value * list Store.object :=
  Store.load (Doc.of_model Scenario.shared_dimensions)
    [Store.ODict result_attrs; Store.OList []; Store.ODict []].
Definition filter_model : Store.value :=
  match filter_loaded.1 with
  | Store.Return md => md
  | Store.Raise _ => Store.VNone
  end.
Definition filter_request : Store.value := Store.VRef (length filter_loaded.2).
Definition filter_store : list Store.object :=
  filter_loaded.2 ++ [Store.OList [Store.VStr "Customer"; Store.VStr "Ghost"]].

(** The objects of the document of [Scenario.orders], in a store that
    has nothing else. *)
Definition orders_loaded : Store.outcome Store.value * list Store.object :=
  Store.load (Doc.of_model Scenario.orders) [].
Definition orders_object : Store.value :=
  match orders_loaded.1 with
  | Store.Return x => x
  | Store.Raise _ => Store.VNone
  end.
Definition orders_store : list Store.object := orders_loaded.2.

(** [compile_model] run in the store on the objects of the document of
    [m]: does it return the document of [compile_model m], with its
    argument still standing for the document of [m]? *)
Definition agrees_in_store (m : Model) : bool :=
  match Store.load (Doc.of_model m) [] with
  | (Store.Return x, h) =>
      match Store.compile_model 100 x h with
      | (Store.Return c, h') =>
          bool_decide (Store.dump 100 h' c
                       = Some (Doc.of_model (compile_model m)))
          && bool_decide (Store.dump 100 h' x = Some (Doc.of_model m))
      | _ => false
      end
  | _ => false
  end.

End Examples.

(** ** What a canonical document keeps *)

(** [e'] is the entity [e] up to the order of its fields and of its
    tags; an entity without [fields] counts as one with no field. *)
Definition entity_content (e e' : Entity) : Prop :=
  ent_name e' = ent_name e
  /\ default [] (ent_fields e') ≡ₚ default [] (ent_fields e)
  /\ reordered (ent_tags e) (ent_tags e')
  /\ ent_extra e' = ent_extra e.

(** The document [m] with every key that [compile_model] reads with a
    default filled in with that default: the eight top-level keys, and
    [fields] in every entity. *)
Definition with_defaults (m : Model) : Model :=
  mkModel (Some (default empty_meta (m_model m)))
          (Some (map (fun e => mkEntity (ent_name e)
                                 (Some (default [] (ent_fields e)))
                                 (ent_tags e) (ent_extra e))
                     (default [] (m_entities m))))
          (Some (default [] (m_relationships m)))
          (Some (default [] (m_indexes m)))
          (Some (default [] (m_rules m)))
          (Some (default empty_governance (m_governance m)))
          (Some (default [] (m_glossary m)))
          (Some (default [] (m_display m)))
          (m_extra m).

(** [l'] holds the items of [l], each up to [R], in some order. *)
Definition same_items {A} (R : A -> A -> Prop) (l l' : list A) : Prop :=
  exists l0, Forall2 R l l0 /\ l0 ≡ₚ l'.

(** ** The other views of [ResolvedModel] *)

(** [ResolvedModel.all_model_names] *)
Definition all_model_names (self : ResolvedModel) : list string :=
  let names :=
    [declared_name "" (root_model self)]
    ++ Py.sorted_str (Py.dict_keys (imported_models self)) in
  List.filter Py.truthy names.

(** An index copy with the key [_source_model] that [unified_indexes]
    adds to it. *)
Record UnifiedIndex := mkUnifiedIndex {
  ui_index : Index;
  ui_source_model : string
}.

Definition unified_indexes (self : ResolvedModel) : list UnifiedIndex :=
  let root_name := declared_name "root" (root_model self) in
  map (fun idx => mkUnifiedIndex idx root_name)
      (default [] (m_indexes (root_model self)))
  ++ concat
       (map (fun '(alias, model) =>
               let model_name := declared_name alias model in
               map (fun idx => mkUnifiedIndex idx model_name)
                   (default [] (m_indexes model)))
            (Py.sorted_items (imported_models self))).

(** ** Names and cycles, in words *)

(** The entity names of a model that are not empty, in order. *)
Definition named_entities (m : Model) : list string :=
  List.filter Py.truthy (entity_names m).

(** The issue is a warning about an entity name declared twice. *)
Definition is_duplicate_warning (i : Issue) : Prop :=
  severity i = "warn" /\ code i = "DUPLICATE_CROSS_MODEL_ENTITY"
  /\ path i = "/model/imports".

(** From [n], following recorded imports, one reaches a name that
    imports itself through one or more steps. *)
Definition cycle_from (g : gmap string (list string)) (n : string) : Prop :=
  exists c, rtc (ImportGraph.edge g) n c /\ tc (ImportGraph.edge g) c c.

(** ** Sorting in the store, in words *)

(** The computation [c] either raises and leaves the store as it is,
    or returns a new list, the one object that it adds to the store,
    which holds the very items that [for a in xs] goes through, in some
    order: an item that is an object is shared, not copied. *)
Definition sorts_into_new_list (xs : Store.value) (c : Store.M Store.value)
  : Prop :=
  forall h,
    match (c h).1 with
    | Store.Return v =>
        exists items items',
          (Store.iter xs h).1 = Store.Return items
          /\ v = Store.VRef (length h)
          /\ (c h).2 = h ++ [Store.OList items']
          /\ items' ≡ₚ items
    | Store.Raise _ => (c h).2 = h
    end.

(** ** The walk over the imports, in words *)

(** The issues of [_resolve_imports_recursive] that come without a
    call of the loader. *)
Definition import_issue (i : Issue) : Prop :=
  path i = "/model/imports"
  /\ (severity i = "error"
      /\ (code i = "INVALID_IMPORT" \/ code i = "IMPORT_NOT_FOUND"
          \/ code i = "IMPORT_ENTITY_NOT_FOUND"
          \/ code i = "IMPORT_DEPTH_EXCEEDED")
      \/ severity i = "warn" /\ code i = "IMPORT_NAME_MISMATCH").

(** The issue for a file that the loader rejects. *)
Definition load_failure (i : Issue) : Prop :=
  severity i = "error" /\ code i = "IMPORT_LOAD_FAILED"
  /\ path i = "/model/imports".

(** The issues of the two checks that follow the walk. *)
Definition check_issue (i : Issue) : Prop :=
  (severity i = "error" /\ code i = "CIRCULAR_IMPORT"
   /\ path i = "/model/imports")
  \/ is_duplicate_warning i.

Definition root_failure (i : Issue) : Prop :=
  severity i = "error" /\ code i = "ROOT_LOAD_FAILED" /\ path i = "/".

(** The model [m] is [md], or [md] with some of its entities only. *)
Definition filtered_from (md m : Model) : Prop :=
  m = md
  \/ exists es, m = with_entities md es
               /\ sublist es (default [] (m_entities md)).

(** A name without [/]: joined to a directory it is one component. *)
Definition no_slash (s : string) : Prop :=
  Forall (fun c => c <> "/"%char) (list_ascii_of_string s).

(** The file map has an entry for [name]. *)
Definition has_file (name : string) (st : Walk) : Prop :=
  name ∈ dom (file_map (result st)).

(** From [st] to [st'] no name leaves the file map and no entry of the
    cache changes. *)
Definition kept (st st' : Walk) : Prop :=
  dom (file_map (result st)) ⊆ dom (file_map (result st'))
  /\ forall k v, loaded_models st !! k = Some v -> loaded_models st' !! k = Some v.

(** The property [I] of walks survives each kind of step that
    [_resolve_imports_recursive] takes. *)
Record walk_invariant (fs : FileSystem) (I : Walk -> Prop) : Prop := {
  inv_issue : forall i st, import_issue i -> I st -> I (add_issue i st);
  inv_track : forall a b st, has_file a st -> I st -> I (track_import a b st);
  inv_imported : forall alias name md m st,
    loaded_models st !! name = Some md -> filtered_from md m ->
    I st -> I (set_imported alias m st);
  inv_failed : forall p i st,
    load_failure i -> I st -> I (add_issue i (read_file p st));
  inv_loaded : forall name m p st,
    loaded_models st !! name = None -> load_yaml_model fs p = inl m ->
    I st -> I (remember name m p (read_file p st))
}.

(** A recursive call that keeps [I]. *)
Definition rec_keeps (I : Walk -> Prop)
    (rec : string -> list Import -> fpath -> Walk -> Walk) : Prop :=
  forall name imports dir st,
    has_file name st -> I st ->
    I (rec name imports dir st) /\ kept st (rec name imports dir st).

(** Every call of the loader is accounted for: one for the root, one
    for each name in the cache, one for each failure reported. *)
Definition accounted (st : Walk) : Prop :=
  length (file_reads st)
  = 1 + size (loaded_models st)
    + count_code "IMPORT_LOAD_FAILED" (issues (result st)).

(** An issue that [resolve_model] can report. *)
Definition resolver_issue (i : Issue) : Prop :=
  root_failure i \/ import_issue i \/ load_failure i \/ check_issue i.

(** Every name with recorded imports has a file, and every file of the
    file map went to the loader. *)
Definition files_recorded (st : Walk) : Prop :=
  dom (import_graph (result st)) ⊆ dom (file_map (result st))
  /\ forall name p, file_map (result st) !! name = Some p -> p ∈ file_reads st.

(** Every model in the cache is what the loader returns for the file
    recorded under its name, and every registered model comes from a
    model in the cache. *)
Definition provenance (fs : FileSystem) (st : Walk) : Prop :=
  (forall name md,
     loaded_models st !! name = Some md ->
     exists p, file_map (result st) !! name = Some p
               /\ load_yaml_model fs p = inl md)
  /\ (forall alias m,
        Py.dict_get alias (imported_models (result st)) = Some m ->
        exists name md, loaded_models st !! name = Some md /\ filtered_from md m).

(** The issue [i] reports that the import [imp] has failed: it names
    no model, its file is not found, or its file does not load. *)
Definition import_failure (imp : Import) (i : Issue) : Prop :=
  let name := get_str (imp_model imp) in
  (name = ""
   /\ i = mkIssue "error" "INVALID_IMPORT"
             "Import entry missing 'model' field." "/model/imports")
  \/ i = mkIssue "error" "IMPORT_NOT_FOUND"
            ("Cannot find model file for import '" ++ name ++ "'.")%string
            "/model/imports"
  \/ exists exc,
       i = mkIssue "error" "IMPORT_LOAD_FAILED"
             ("Failed to load imported model '" ++ name ++ "': " ++ exc)%string
             "/model/imports".

(** The import [imp] is registered under its alias, or an issue reports
    its failure. *)
Definition import_settled (imp : Import) (st : Walk) : Prop :=
  default (get_str (imp_model imp)) (imp_alias imp)
    ∈ Py.dict_keys (imported_models (result st))
  \/ exists i, i ∈ issues (result st) /\ import_failure imp i.

(** ** What an alias holds *)

(** The alias of an import: [imp.get("alias", imp_model_name)]. *)
Definition alias_of (imp : Import) : string :=
  default (get_str (imp_model imp)) (imp_alias imp).

(** The model that the filter block registers for the model
    [model_data] under the filter [entity_filter]: the entities whose
    name is in a filter that is not empty, every entity otherwise. *)
Definition registered (entity_filter : option (list string))
    (model_data : Model) : Model :=
  match entity_filter with
  | Some ((_ :: _) as requested) =>
      with_entities model_data
        (filter (fun e => get_str (ent_name e) ∈ requested)
                (default [] (m_entities model_data)))
  | _ => model_data
  end.

(** If the import [imp] names a model and is registered under [alias],
    the model is [name] and the filter is [ok]. *)
Definition alias_use (alias name : string)
    (ok : option (list string) -> Prop) (imp : Import) : Prop :=
  Py.truthy (get_str (imp_model imp)) = true -> alias_of imp = alias ->
  get_str (imp_model imp) = name /\ ok (imp_entities imp).

(** Among the imports of [m], the alias [alias] is used for the model
    [name] only, and only with a filter that is [ok]. *)
Definition alias_reserved (alias name : string)
    (ok : option (list string) -> Prop) (m : Model) : Prop :=
  Forall (alias_use alias name ok) (declared_imports m).

(** Every model in the cache reserves the alias. *)
Definition cache_reserved (alias name : string)
    (ok : option (list string) -> Prop) (st : Walk) : Prop :=
  map_Forall (fun _ m => alias_reserved alias name ok m) (loaded_models st).

(** What is registered under [alias], if anything, is the model in the
    cache under [name] as an import with a filter that is [ok] registers
    it, and every requested name that the model lacks has its issue. *)
Definition alias_holds (alias name : string)
    (ok : option (list string) -> Prop) (st : Walk) : Prop :=
  forall m,
    Py.dict_get alias (imported_models (result st)) = Some m ->
    exists md ef,
      loaded_models st !! name = Some md /\ ok ef /\ m = registered ef md
      /\ forall n, n ∈ default [] ef -> n ∉ entity_names md ->
                   entity_not_found alias name n ∈ issues (result st).

(** ** The command line (dm_cli/main.py) *)

(** The value that [cmd_resolve] returns, the exit code of
    [dm resolve]; the lines it prints on the way are left out. *)
Definition cmd_resolve (fs : FileSystem) (model : fpath)
    (search_dir : list fpath) : Z :=
  let resolved := resolve_model fs model search_dir in
  let has_errs :=
    existsb (fun i => bool_decide (severity i = "error")) (issues resolved) in
  if has_errs then 1%Z else 0%Z.

(** What an answer of [_detect_cycle] with this much fuel says, when
    every name in [visiting] leads to the name of the call and no name
    in [visited] reaches a cycle. *)
Definition detect_sound (g : gmap string (list string)) (fuel : nat) : Prop :=
  forall n vg vd b vg' vd',
    _detect_cycle fuel g n vg vd = Some (b, vg', vd') ->
    (forall v, v ∈ vg -> tc (ImportGraph.edge g) v n) ->
    (forall v, v ∈ vd -> ~ cycle_from g v) ->
    if b then cycle_from g n
    else vg' = vg /\ n ∈ vd' /\ forall v, v ∈ vd' -> ~ cycle_from g v.

(** * Properties *)

(** ** Order of strings and of tuples of strings *)

Module PyFacts.

Lemma ascii_compare_trans a b c :
  Ascii.compare a b = Lt -> Ascii.compare b c = Lt -> Ascii.compare a c = Lt.
Proof.
  unfold Ascii.compare. rewrite !N.compare_lt_iff. apply N.lt_trans.
Qed.

Lemma string_compare_refl s : String.compare s s = Eq.
Proof.
  induction s as [|a s IH]; simpl; [done|].
  replace (Ascii.compare a a) with Eq; [done|].
  symmetry. unfold Ascii.compare. apply N.compare_refl.
Qed.

Lemma string_compare_trans s1 s2 s3 :
  String.compare s1 s2 = Lt -> String.compare s2 s3 = Lt ->
  String.compare s1 s3 = Lt.
Proof.
  revert s2 s3. induction s1 as [|a s1 IH]; intros [|b s2] [|c s3]; simpl;
    try done.
  destruct (Ascii.compare a b) eqn:Hab; try done;
    destruct (Ascii.compare b c) eqn:Hbc; try done; intros H1 H2.
  - apply Ascii.compare_eq_iff in Hab, Hbc. subst.
    replace (Ascii.compare c c) with Eq
      by (symmetry; apply N.compare_refl).
    eauto.
  - apply Ascii.compare_eq_iff in Hab. subst. by rewrite Hbc.
  - apply Ascii.compare_eq_iff in Hbc. subst. by rewrite Hab.
  - by rewrite (ascii_compare_trans _ _ _ Hab Hbc).
Qed.

Lemma tuple_compare_antisym k1 k2 :
  Py.tuple_compare k1 k2 = CompOpp (Py.tuple_compare k2 k1).
Proof.
  revert k2. induction k1 as [|a k1 IH]; intros [|b k2]; simpl; try done.
  rewrite (String.compare_antisym b a).
  destruct (String.compare a b); simpl; auto.
Qed.

Lemma tuple_compare_eq k1 k2 : Py.tuple_compare k1 k2 = Eq -> k1 = k2.
Proof.
  revert k2. induction k1 as [|a k1 IH]; intros [|b k2]; simpl; try done.
  destruct (String.compare a b) eqn:Hab; try done.
  apply String.compare_eq_iff in Hab. intros H. f_equal; auto.
Qed.

Lemma tuple_compare_refl k : Py.tuple_compare k k = Eq.
Proof.
  induction k as [|a k IH]; simpl; [done|].
  by rewrite string_compare_refl.
Qed.

Lemma tuple_compare_trans k1 k2 k3 :
  Py.tuple_compare k1 k2 = Lt -> Py.tuple_compare k2 k3 = Lt ->
  Py.tuple_compare k1 k3 = Lt.
Proof.
  revert k2 k3.
  induction k1 as [|a k1 IH]; intros [|b k2] [|c k3]; simpl; try done.
  destruct (String.compare a b) eqn:Hab; try done;
    destruct (String.compare b c) eqn:Hbc; try done; intros H1 H2.
  - apply String.compare_eq_iff in Hab, Hbc. subst.
    rewrite string_compare_refl. eauto.
  - apply String.compare_eq_iff in Hab. subst. by rewrite Hbc.
  - apply String.compare_eq_iff in Hbc. subst. by rewrite Hab.
  - by rewrite (string_compare_trans _ _ _ Hab Hbc).
Qed.

Lemma tuple_le_alt k1 k2 : tuple_le k1 k2 <-> Py.tuple_compare k1 k2 <> Gt.
Proof.
  unfold tuple_le, Py.tuple_lt. rewrite (tuple_compare_antisym k2 k1).
  destruct (Py.tuple_compare k1 k2); simpl; split; done.
Qed.

Lemma tuple_le_refl k : tuple_le k k.
Proof. apply tuple_le_alt. by rewrite tuple_compare_refl. Qed.

Lemma tuple_le_total k1 k2 : tuple_le k1 k2 \/ tuple_le k2 k1.
Proof.
  rewrite !tuple_le_alt, (tuple_compare_antisym k2 k1).
  destruct (Py.tuple_compare k1 k2); simpl; auto.
Qed.

Lemma tuple_le_antisym k1 k2 : tuple_le k1 k2 -> tuple_le k2 k1 -> k1 = k2.
Proof.
  rewrite !tuple_le_alt, (tuple_compare_antisym k2 k1).
  destruct (Py.tuple_compare k1 k2) eqn:H; simpl; try done.
  intros _ _. by apply tuple_compare_eq.
Qed.

Lemma tuple_le_trans k1 k2 k3 :
  tuple_le k1 k2 -> tuple_le k2 k3 -> tuple_le k1 k3.
Proof.
  rewrite !tuple_le_alt.
  destruct (Py.tuple_compare k1 k2) eqn:H12;
    destruct (Py.tuple_compare k2 k3) eqn:H23; try done; intros _ _.
  - apply tuple_compare_eq in H12, H23. subst.
    by rewrite tuple_compare_refl.
  - apply tuple_compare_eq in H12. subst. by rewrite H23.
  - apply tuple_compare_eq in H23. subst. by rewrite H12.
  - by rewrite (tuple_compare_trans _ _ _ H12 H23).
Qed.

(** *** [sorted] *)

Section Sorted.
Context {A : Type} (key : A -> list string).

#[local] Instance key_le_trans : Transitive (key_le key).
Proof. intros x y z. apply tuple_le_trans. Qed.

Lemma insert_sorted_perm x l : Py.insert_sorted key x l ≡ₚ x :: l.
Proof.
  induction l as [|y l IH]; simpl; [done|].
  destruct (Py.tuple_lt (key y) (key x)); [|done].
  rewrite IH. apply Permutation_swap.
Qed.

Lemma sorted_perm l : Py.sorted key l ≡ₚ l.
Proof.
  induction l as [|x l IH]; simpl; [done|].
  by rewrite insert_sorted_perm, IH.
Qed.

Lemma tuple_lt_ne k1 k2 : Py.tuple_lt k1 k2 = true -> k1 <> k2.
Proof.
  unfold Py.tuple_lt. intros H ->. by rewrite tuple_compare_refl in H.
Qed.

(** The sort is stable: the item put in goes past strictly smaller items
    only, so it stays in front of the items of the same key. *)
Lemma insert_sorted_ties x l k :
  filter (fun y => key y = k) (Py.insert_sorted key x l)
  = filter (fun y => key y = k) (x :: l).
Proof.
  induction l as [|y l IH]; simpl; [done|].
  destruct (Py.tuple_lt (key y) (key x)) eqn:Hlt; [|done].
  apply tuple_lt_ne in Hlt.
  rewrite filter_cons, IH, !filter_cons.
  destruct (decide (key y = k)), (decide (key x = k)); congruence.
Qed.

Lemma sorted_ties l : ties_kept key l (Py.sorted key l).
Proof.
  intros k. induction l as [|x l IH]; simpl; [done|].
  by rewrite insert_sorted_ties, !filter_cons, IH.
Qed.

Lemma insert_sorted_sorted x l :
  StronglySorted (key_le key) l ->
  StronglySorted (key_le key) (Py.insert_sorted key x l).
Proof.
  induction 1 as [|y l Hs IH Hy]; simpl.
  - repeat constructor.
  - destruct (Py.tuple_lt (key y) (key x)) eqn:Hlt.
    + constructor; [done|].
      rewrite Forall_forall. intros z Hz.
      apply (elem_of_Permutation_proper _ _ _ (insert_sorted_perm x l)) in Hz.
      apply elem_of_cons in Hz as [->|Hz].
      * destruct (tuple_le_total (key y) (key x)) as [H|H]; [done|].
        unfold tuple_le in H. congruence.
      * rewrite Forall_forall in Hy. auto.
    + constructor; [by constructor|].
      constructor; [done|].
      eapply Forall_impl; [exact Hy|].
      intros z Hz. by transitivity y.
Qed.

Lemma sorted_sorted l : StronglySorted (key_le key) (Py.sorted key l).
Proof.
  induction l as [|x l IH]; simpl; [constructor|].
  by apply insert_sorted_sorted.
Qed.

(** A list already in order comes out as it is. *)
Lemma sorted_fixed l : StronglySorted (key_le key) l -> Py.sorted key l = l.
Proof.
  induction 1 as [|x l Hs IH Hx]; simpl; [done|].
  rewrite IH. destruct l as [|y l]; simpl; [done|].
  apply Forall_cons in Hx as [Hxy _].
  unfold key_le, tuple_le in Hxy. by rewrite Hxy.
Qed.

Lemma sorted_idem l : Py.sorted key (Py.sorted key l) = Py.sorted key l.
Proof. apply sorted_fixed, sorted_sorted. Qed.

Lemma key_decides_perm l l' :
  l ≡ₚ l' -> key_decides key l -> key_decides key l'.
Proof.
  intros Hp H x y Hx Hy. apply H; by rewrite Hp.
Qed.

Lemma NoDup_key_decides l : NoDup (map key l) -> key_decides key l.
Proof.
  induction l as [|a l IH]; intros Hnd x y Hx Hy Hk.
  - by apply elem_of_nil in Hx.
  - apply NoDup_cons in Hnd as [Ha Hnd].
    apply elem_of_cons in Hx as [->|Hx], Hy as [->|Hy]; [done|..].
    + exfalso. apply Ha. rewrite Hk. by apply list_elem_of_fmap_2.
    + exfalso. apply Ha. rewrite <- Hk. by apply list_elem_of_fmap_2.
    + by apply IH.
Qed.

(** The order of the input does not show in the output when the key
    decides the item. *)
Lemma sorted_perm_invariant l l' :
  key_decides key l -> l ≡ₚ l' -> Py.sorted key l = Py.sorted key l'.
Proof.
  intros Hk Hp.
  apply (StronglySorted_unique_strong (key_le key)).
  - intros x y Hx Hy Hxy Hyx. apply Hk.
    + by rewrite <- (sorted_perm l).
    + by rewrite Hp, <- (sorted_perm l').
    + by apply tuple_le_antisym.
  - apply sorted_sorted.
  - apply sorted_sorted.
  - by rewrite !sorted_perm.
Qed.
End Sorted.

Lemma sorted_str_idem l : Py.sorted_str (Py.sorted_str l) = Py.sorted_str l.
Proof. apply sorted_idem. Qed.

Lemma sorted_str_perm_invariant l l' :
  l ≡ₚ l' -> Py.sorted_str l = Py.sorted_str l'.
Proof.
  apply sorted_perm_invariant. intros x y _ _ H. by injection H.
Qed.

End PyFacts.

(** ** The canonicalizer *)

Module CanonicalFacts.
Import PyFacts.

Lemma str_lt_le a b : str_lt_rel a b -> key_le (fun s => [s]) a b.
Proof.
  unfold str_lt_rel, Py.str_lt, key_le, tuple_le, Py.tuple_lt. simpl.
  rewrite (String.compare_antisym a b).
  destruct (String.compare b a); simpl; done.
Qed.

Lemma str_le_lt a b : key_le (fun s => [s]) a b -> a <> b -> str_lt_rel a b.
Proof.
  unfold str_lt_rel, Py.str_lt, key_le, tuple_le, Py.tuple_lt. simpl.
  rewrite (String.compare_antisym a b).
  destruct (String.compare b a) eqn:H; simpl; try done.
  apply String.compare_eq_iff in H. congruence.
Qed.

Lemma str_lt_irrefl a : ~ str_lt_rel a a.
Proof.
  unfold str_lt_rel, Py.str_lt. by rewrite string_compare_refl.
Qed.

Lemma strictly_sorted_sorted ks :
  StronglySorted str_lt_rel ks -> StronglySorted (key_le (fun s => [s])) ks.
Proof.
  induction 1 as [|k ks Hs IH Hk]; constructor; [done|].
  eapply Forall_impl; [exact Hk|]. intros. by apply str_lt_le.
Qed.

Lemma strictly_sorted_NoDup ks : StronglySorted str_lt_rel ks -> NoDup ks.
Proof.
  induction 1 as [|k ks Hs IH Hk]; constructor; [|done].
  intros Hin. rewrite Forall_forall in Hk.
  by apply (str_lt_irrefl k), Hk.
Qed.

(** *** Dictionaries *)

Lemma dict_get_None {V} k (d : Py.dict V) :
  Py.dict_get k d = None <-> k ∉ Py.dict_keys d.
Proof.
  unfold Py.dict_keys. induction d as [|[k' v] d IH]; simpl.
  - split; [intros _; apply not_elem_of_nil|done].
  - rewrite not_elem_of_cons. case_bool_decide; subst.
    + split; [done|]. by intros [? _].
    + rewrite IH. split; [by intros ?; split|by intros [_ ?]].
Qed.

Lemma dict_set_fresh {V} k v (d : Py.dict V) :
  k ∉ Py.dict_keys d -> Py.dict_set k v d = d ++ [(k, v)].
Proof.
  unfold Py.dict_keys. induction d as [|[k' v'] d IH]; simpl; [done|].
  rewrite not_elem_of_cons. intros [Hne Hd].
  case_bool_decide; [congruence|]. by rewrite IH.
Qed.

Lemma dict_set_keys_present {V} k v (d : Py.dict V) :
  k ∈ Py.dict_keys d -> Py.dict_keys (Py.dict_set k v d) = Py.dict_keys d.
Proof.
  unfold Py.dict_keys. induction d as [|[k' v'] d IH]; simpl.
  - intros H. by apply elem_of_nil in H.
  - intros H. case_bool_decide; subst; simpl; [done|].
    apply elem_of_cons in H as [->|H]; [done|]. f_equal. by apply IH.
Qed.

Lemma dict_get_app_fresh {V} k (d1 d2 : Py.dict V) :
  k ∉ Py.dict_keys d1 -> Py.dict_get k (d1 ++ d2) = Py.dict_get k d2.
Proof.
  unfold Py.dict_keys. induction d1 as [|[k' v'] d1 IH]; simpl; [done|].
  rewrite not_elem_of_cons. intros [Hne Hd].
  case_bool_decide; [congruence|]. auto.
Qed.

(** *** [rekey] *)

Lemma rekey_keys_sorted {V} (d : Py.dict V) ks acc :
  StronglySorted (key_le (fun s => [s])) ks ->
  StronglySorted str_lt_rel (Py.dict_keys acc) ->
  (forall a k, a ∈ Py.dict_keys acc -> k ∈ ks -> key_le (fun s => [s]) a k) ->
  StronglySorted str_lt_rel (Py.dict_keys (foldl (rekey_step d) acc ks)).
Proof.
  revert acc. induction ks as [|k ks IH]; intros acc Hks Hacc Hle; simpl;
    [done|].
  apply StronglySorted_inv in Hks as [Hks Hk].
  rewrite Forall_forall in Hk.
  assert (Hle' : forall a k', a ∈ Py.dict_keys acc -> k' ∈ ks ->
                   key_le (fun s => [s]) a k').
  { intros a k' Ha Hk'. apply Hle; [done|]. by right. }
  unfold rekey_step at 2. destruct (Py.dict_get k d) as [v|]; [|by apply IH].
  destruct (decide (k ∈ Py.dict_keys acc)) as [Hin|Hin].
  - apply IH; rewrite ?dict_set_keys_present; auto.
  - rewrite (dict_set_fresh _ _ _ Hin).
    apply IH; [done|..]; unfold Py.dict_keys; rewrite fmap_app; simpl.
    + apply StronglySorted_app_2; [|exact Hacc|repeat constructor].
      intros a b Ha Hb. apply list_elem_of_singleton in Hb as ->.
      apply str_le_lt; [apply Hle; [done|by left]|].
      intros ->. by apply Hin.
    + intros a k' Ha Hk'. apply elem_of_app in Ha as [Ha|Ha]; [by apply Hle'|].
      apply list_elem_of_singleton in Ha as ->. by apply Hk.
Qed.

Lemma rekey_sorted {V} (d : Py.dict V) :
  StronglySorted str_lt_rel (Py.dict_keys (rekey d)).
Proof.
  apply rekey_keys_sorted.
  - apply (sorted_sorted (fun s => [s])).
  - constructor.
  - intros a k Ha. by apply elem_of_nil in Ha.
Qed.

Lemma rekey_rebuild {V} (d1 d2 : Py.dict V) :
  NoDup (Py.dict_keys (d1 ++ d2)) ->
  foldl (rekey_step (d1 ++ d2)) d1 (Py.dict_keys d2) = d1 ++ d2.
Proof.
  revert d1. induction d2 as [|[k v] d2 IH]; intros d1 Hnd; simpl.
  - by rewrite app_nil_r.
  - assert (Hk : k ∉ Py.dict_keys d1).
    { unfold Py.dict_keys in *. rewrite fmap_app in Hnd.
      apply NoDup_app in Hnd as (_ & Hnd & _).
      intros Hin. apply (Hnd k Hin). by left. }
    unfold rekey_step at 2. rewrite (dict_get_app_fresh _ _ _ Hk). simpl.
    rewrite bool_decide_eq_true_2 by done.
    rewrite (dict_set_fresh _ _ _ Hk).
    replace (d1 ++ (k, v) :: d2) with ((d1 ++ [(k, v)]) ++ d2)
      by by rewrite <- app_assoc.
    apply IH. by rewrite <- app_assoc.
Qed.

(** A dictionary whose keys are in strictly ascending order is
    re-keyed to itself. *)
Lemma rekey_fixed {V} (d : Py.dict V) :
  StronglySorted str_lt_rel (Py.dict_keys d) -> rekey d = d.
Proof.
  intros Hs. unfold rekey, Py.sorted_str.
  rewrite (sorted_fixed _ _ (strictly_sorted_sorted _ Hs)).
  apply (rekey_rebuild [] d), strictly_sorted_NoDup, Hs.
Qed.

Lemma rekey_idem {V} (d : Py.dict V) : rekey (rekey d) = rekey d.
Proof. apply rekey_fixed, rekey_sorted. Qed.

(** *** Idempotence *)

Lemma sorted_entity_idem e : sorted_entity (sorted_entity e) = sorted_entity e.
Proof.
  unfold sorted_entity, _sort_fields. destruct e as [n f t x]; simpl.
  f_equal.
  - f_equal. apply sorted_idem.
  - destruct t; simpl; [|done]. f_equal. apply sorted_str_idem.
Qed.

Lemma sorted_term_idem t : sorted_term (sorted_term t) = sorted_term t.
Proof.
  unfold sorted_term. destruct t as [n r g x]; simpl.
  f_equal.
  - destruct r; simpl; [|done]. f_equal. apply sorted_str_idem.
  - destruct g; simpl; [|done]. f_equal. apply sorted_str_idem.
Qed.

(** Sorting the images of a map whose images are its fixed points,
    then mapping again, changes nothing. *)
Lemma map_sorted_fixed {A} (key : A -> list string) (f : A -> A) l :
  (forall x, f (f x) = f x) ->
  map f (Py.sorted key (map f l)) = Py.sorted key (map f l).
Proof.
  intros Hf.
  assert (H : Forall (fun x => f x = x) (Py.sorted key (map f l))).
  { rewrite Forall_forall. intros x Hx.
    rewrite (sorted_perm key (map f l)) in Hx.
    apply list_elem_of_fmap in Hx as (y & -> & _). apply Hf. }
  induction H as [|x l' Hx _ IH]; simpl; [done|]. by rewrite Hx, IH.
Qed.

Lemma _sort_entities_idem es :
  _sort_entities (_sort_entities es) = _sort_entities es.
Proof.
  unfold _sort_entities.
  rewrite (map_sorted_fixed _ _ _ sorted_entity_idem). apply sorted_idem.
Qed.

Lemma _sort_glossary_idem g :
  _sort_glossary (_sort_glossary g) = _sort_glossary g.
Proof.
  unfold _sort_glossary.
  rewrite (map_sorted_fixed _ _ _ sorted_term_idem). apply sorted_idem.
Qed.

Lemma compile_model_idem m : compile_model (compile_model m) = compile_model m.
Proof.
  unfold compile_model. simpl. f_equal.
  - do 2 f_equal. destruct (meta_owners _); simpl; [|done].
    f_equal. apply sorted_str_idem.
  - f_equal. apply _sort_entities_idem.
  - f_equal. apply sorted_idem.
  - f_equal. apply sorted_idem.
  - f_equal. apply sorted_idem.
  - do 2 f_equal.
    + destruct (gov_classification _); simpl; [|done]. f_equal. apply rekey_idem.
    + destruct (gov_stewards _); simpl; [|done]. f_equal. apply rekey_idem.
  - f_equal. apply _sort_glossary_idem.
Qed.

(** *** The order of the input *)

Lemma reordered_sorted {A} (key : A -> list string) o o' :
  reordered o o' ->
  key_decides key (default [] o) ->
  Py.sorted key (default [] o) = Py.sorted key (default [] o').
Proof.
  destruct o as [l|], o' as [l'|]; simpl; try done.
  intros Hp Hk. by apply sorted_perm_invariant.
Qed.

Lemma reordered_sorted_str o o' :
  reordered o o' -> Py.sorted_str <$> o = Py.sorted_str <$> o'.
Proof.
  destruct o as [l|], o' as [l'|]; simpl; try done.
  intros Hp. f_equal. by apply sorted_str_perm_invariant.
Qed.

Lemma sorted_entity_reordered e e' :
  key_decides field_key (default [] (ent_fields e)) ->
  entity_reordered e e' -> sorted_entity e = sorted_entity e'.
Proof.
  intros Hk (Hn & Hf & Ht & Hx). unfold sorted_entity, _sort_fields.
  rewrite Hn, Hx, (reordered_sorted_str _ _ Ht).
  by rewrite (reordered_sorted _ _ _ Hf Hk).
Qed.

Lemma sorted_term_reordered t t' :
  term_reordered t t' -> sorted_term t = sorted_term t'.
Proof.
  intros (Hn & Hr & Ht & Hx). unfold sorted_term.
  by rewrite Hn, Hx, (reordered_sorted_str _ _ Hr),
    (reordered_sorted_str _ _ Ht).
Qed.

(** The shape shared by [_sort_entities] and [_sort_glossary]. *)
Lemma reordered_with_sorted {A} (key : A -> list string) (f : A -> A)
    (R : A -> A -> Prop) o o' :
  (forall x, key (f x) = key x) ->
  Forall (fun x => forall y, R x y -> f x = f y) (default [] o) ->
  key_decides key (default [] o) ->
  reordered_with R o o' ->
  Py.sorted key (map f (default [] o)) = Py.sorted key (map f (default [] o')).
Proof.
  intros Hkey HR Hk. destruct o as [l|], o' as [l'|]; simpl in *; try done.
  intros (l0 & Hl0 & Hp).
  assert (Hmap : map f l = map f l0).
  { clear Hp Hk. induction Hl0 as [|x y l l0 Hxy _ IH]; simpl; [done|].
    apply Forall_cons in HR as [Hx HR]. by rewrite (Hx y Hxy), IH. }
  apply sorted_perm_invariant.
  - intros x y Hx Hy Hxy.
    apply list_elem_of_fmap in Hx as (x0 & -> & Hx0).
    apply list_elem_of_fmap in Hy as (y0 & -> & Hy0).
    rewrite !Hkey in Hxy. by rewrite (Hk x0 y0 Hx0 Hy0 Hxy).
  - rewrite Hmap. by apply fmap_Permutation.
Qed.

Lemma compile_model_reordered m m' :
  keys_decide m -> model_reordered m m' -> compile_model m' = compile_model m.
Proof.
  intros (He & Hf & Hr & Hi & Hu & Hg)
         (E1 & E2 & E3 & E4 & E5 & E6 & E7 & E8 & E9).
  unfold compile_model. rewrite <- E1, <- E6, <- E8.
  f_equal; f_equal; symmetry.
  - unfold _sort_entities.
    apply (reordered_with_sorted entity_key sorted_entity entity_reordered);
      try done.
    eapply Forall_impl; [exact Hf|]. intros e Hk e' He'.
    by apply sorted_entity_reordered.
  - by apply (reordered_sorted relationship_key).
  - by apply (reordered_sorted index_key).
  - by apply (reordered_sorted rule_key).
  - unfold _sort_glossary.
    apply (reordered_with_sorted term_key sorted_term term_reordered);
      try done.
    rewrite Forall_forall. intros t _ t' Ht. by apply sorted_term_reordered.
Qed.

End CanonicalFacts.

(** ** Claim C1 *)

(** C1, against the claim as stated: the order of the input shows in the
    output.  The columns of an index, a list inside the collection
    [indexes], are not sorted by [compile_model]; and two relationships
    with the same sort key stay in their input order. *)
Lemma compile_model_order_sensitive :
  (reordered (idx_fields Examples.idx_ba) (idx_fields Examples.idx_ab)
   /\ compile_model (Examples.only_indexes [Examples.idx_ab])
      <> compile_model (Examples.only_indexes [Examples.idx_ba]))
  /\ (reordered (Some [Examples.rel_first; Examples.rel_second])
                (Some [Examples.rel_second; Examples.rel_first])
      /\ compile_model
           (Examples.only_relationships [Examples.rel_second; Examples.rel_first])
         <> compile_model
              (Examples.only_relationships [Examples.rel_first; Examples.rel_second])).
Proof.
  split; (split; [simpl; apply Permutation_swap|]); by vm_compute.
Qed.

(** C1 (amended): [compile_model] is idempotent, and two documents that
    differ only in the order of the collections it sorts (entities,
    relationships, indexes, rules, glossary) and of the lists it sorts
    inside them (the fields and tags of an entity, the related fields and
    tags of a glossary term) have the same canonical form, provided that
    in each collection sorted by a key the key decides the item.  Items
    that tie on the sort key keep the order they have in the input, in
    every collection sorted by a key; and an index, a relationship and a
    rule go to the output as they are, so that a list inside them, such
    as the fields of an index, keeps its order, as does the display
    list. *)
Theorem compile_model_canonical :
  (forall m, compile_model (compile_model m) = compile_model m)
  /\ (forall m m',
        keys_decide m -> model_reordered m m' ->
        compile_model m' = compile_model m)
  /\ (forall m,
        let c := compile_model m in
        ties_kept entity_key
          (map sorted_entity (default [] (m_entities m)))
          (default [] (m_entities c))
        /\ ties_kept relationship_key
             (default [] (m_relationships m)) (default [] (m_relationships c))
        /\ ties_kept index_key
             (default [] (m_indexes m)) (default [] (m_indexes c))
        /\ ties_kept rule_key (default [] (m_rules m)) (default [] (m_rules c))
        /\ ties_kept term_key
             (map sorted_term (default [] (m_glossary m)))
             (default [] (m_glossary c))
        /\ forall e,
             ties_kept field_key
               (default [] (ent_fields e))
               (default [] (ent_fields (sorted_entity e))))
  /\ (forall m,
        let c := compile_model m in
        default [] (m_indexes c) ≡ₚ default [] (m_indexes m)
        /\ default [] (m_relationships c) ≡ₚ default [] (m_relationships m)
        /\ default [] (m_rules c) ≡ₚ default [] (m_rules m)
        /\ m_display c = Some (default [] (m_display m))).
Proof.
  split_and!.
  - apply CanonicalFacts.compile_model_idem.
  - apply CanonicalFacts.compile_model_reordered.
  - intros m. cbv zeta. simpl. split_and!; try apply PyFacts.sorted_ties.
    intros e. apply PyFacts.sorted_ties.
  - intros m. cbv zeta. simpl. split_and!; try apply PyFacts.sorted_perm.
    done.
Qed.

Lemma compile_model_canonical_witness :
  keys_decide Scenario.orders
  /\ model_reordered Scenario.orders Examples.orders_reordered
  /\ compile_model Examples.orders_reordered = compile_model Scenario.orders.
Proof.
  assert (Hk : keys_decide Scenario.orders).
  { unfold keys_decide. split_and!; [|repeat constructor|..];
      apply PyFacts.NoDup_key_decides, (bool_decide_unpack _); by vm_compute. }
  assert (Hr : model_reordered Scenario.orders Examples.orders_reordered).
  { unfold model_reordered. split_and!; try done; simpl; [|reflexivity].
    eexists. split; [|reflexivity].
    constructor; [|constructor].
    unfold entity_reordered. split_and!; try done. simpl.
    apply Permutation_swap. }
  split; [exact Hk|]. split; [exact Hr|].
  exact (proj1 (proj2 compile_model_canonical) _ _ Hk Hr).
Defined.

(** ** The resolver, one import at a time *)

Module ResolverFacts.

Section Steps.
Variable fs : FileSystem.

(** The import that is not in the cache, whose file is found and
    loads. *)
Lemma resolve_import_loaded rec model_name root_dir dirs st imp p m :
  Py.truthy (get_str (imp_model imp)) = true ->
  loaded_models st !! get_str (imp_model imp) = None ->
  _resolve_import_path fs imp root_dir dirs = Some p ->
  load_yaml_model fs p = inl m ->
  resolve_import fs rec model_name root_dir dirs st imp
  = let name := get_str (imp_model imp) in
    let st := read_file p (track_import model_name name st) in
    let st :=
      if Py.truthy (declared_name "" m)
         && bool_decide (declared_name "" m <> name)
      then add_issue
             (mkIssue "warn" "IMPORT_NAME_MISMATCH"
                ("Import references '" ++ name
                 ++ "' but file declares model.name='"
                 ++ declared_name "" m ++ "'.")%string
                "/model/imports") st
      else st in
    let st := remember name m p st in
    let st :=
      match declared_imports m with
      | [] => st
      | _ :: _ => rec name (declared_imports m) (parent p) st
      end in
    apply_entity_filter (default name (imp_alias imp)) name
      (imp_entities imp) m st.
Proof.
  intros Hname Hcache Hpath Hload. unfold resolve_import.
  rewrite Hname. cbn [negb track_import loaded_models].
  rewrite Hcache, Hpath, Hload. reflexivity.
Qed.

(** The import that is in the cache. *)
Lemma resolve_import_cached rec model_name root_dir dirs st imp m :
  Py.truthy (get_str (imp_model imp)) = true ->
  loaded_models st !! get_str (imp_model imp) = Some m ->
  resolve_import fs rec model_name root_dir dirs st imp
  = let name := get_str (imp_model imp) in
    apply_entity_filter (default name (imp_alias imp)) name
      (imp_entities imp) m (track_import model_name name st).
Proof.
  intros Hname Hcache. unfold resolve_import.
  rewrite Hname. cbn [negb track_import loaded_models].
  by rewrite Hcache.
Qed.

(** [resolve_model] on a root that loads and has imports. *)
Lemma resolve_model_walk_imports root_path search_dirs root :
  load_yaml_model fs (fs_resolve fs root_path) = inl root ->
  declared_imports root <> [] ->
  resolve_model_walk fs root_path search_dirs
  = let root_file := fs_resolve fs root_path in
    let root_name := declared_name "unknown" root in
    let st :=
      _resolve_imports_recursive fs 11 10 (map (fs_resolve fs) search_dirs)
        root_name (declared_imports root) (parent root_file)
        (mkWalk (mkResolved root [] {[root_name := []]}
                            {[root_name := root_file]} [])
                ∅ [root_file]) in
    let g := import_graph (result st) in
    let st :=
      match _detect_cycle (cycle_fuel g) g root_name ∅ ∅ with
      | Some (true, _, _) =>
          add_issue
            (mkIssue "error" "CIRCULAR_IMPORT"
               "Circular import detected in model dependency graph."
               "/model/imports") st
      | _ => st
      end in
    let r := result st in
    mkWalk (mkResolved (root_model r) (imported_models r)
                       (import_graph r) (file_map r)
                       (check_duplicates root_name r).2)
           (loaded_models st) (file_reads st).
Proof.
  intros Hload Himports. unfold resolve_model_walk. rewrite Hload.
  destruct (declared_imports root) eqn:E; [done|].
  reflexivity.
Qed.
End Steps.

End ResolverFacts.

(** ** Claim C2 *)

(** C2, against the claim as stated: in the starter project the one
    cross-model relationship goes from [orders] to [shared_dimensions],
    not the other way round. *)
Lemma starter_project_cross_model_direction :
  ~ (exists cr,
       gs_cross_model_relationships (to_graph_summary Scenario.resolved) = [cr]
       /\ cr_from_model cr = "shared_dimensions"
       /\ cr_to_model cr = "orders").
Proof.
  intros (cr & Hcr & Hfrom & _).
  vm_compute in Hcr. injection Hcr as <-. discriminate Hfrom.
Qed.

(** C2 (amended): whenever the root document is [orders], and its import
    of [shared_dimensions] under the alias [shared], filtered to
    [Customer], resolves to a file that holds [shared_dimensions], the
    summary counts two models and two entities and lists exactly one
    cross-model relationship, from model [orders] (the owner of [Order],
    the [from] end) to model [shared_dimensions] (the owner of
    [Customer], the [to] end). *)
Theorem starter_project_summary fs root_path search_dirs p :
  load_yaml_model fs (fs_resolve fs root_path) = inl Scenario.orders ->
  _resolve_import_path fs
    (mkImport (Some "shared_dimensions") (Some "shared") None (Some ["Customer"]))
    (parent (fs_resolve fs root_path)) (map (fs_resolve fs) search_dirs)
    = Some p ->
  load_yaml_model fs p = inl Scenario.shared_dimensions ->
  let s := to_graph_summary (resolve_model fs root_path search_dirs) in
  gs_model_count s = 2
  /\ gs_total_entities s = 2
  /\ gs_cross_model_relationships s
     = [mkCrossRel "order_customer" "orders" "shared_dimensions"
          "Order.customer_id" "Customer.customer_id" "many_to_one"].
Proof.
  intros Hroot Hpath Hshared. unfold resolve_model.
  rewrite (ResolverFacts.resolve_model_walk_imports _ _ _ _ Hroot) by done.
  change (declared_imports Scenario.orders)
    with [mkImport (Some "shared_dimensions") (Some "shared") None
            (Some ["Customer"])].
  cbn [_resolve_imports_recursive foldl].
  erewrite ResolverFacts.resolve_import_loaded;
    [|reflexivity|reflexivity|exact Hpath|exact Hshared].
  by vm_compute.
Qed.

Lemma starter_project_summary_witness :
  let s := to_graph_summary Scenario.resolved in
  gs_model_count s = 2
  /\ gs_total_entities s = 2
  /\ gs_cross_model_relationships s
     = [mkCrossRel "order_customer" "orders" "shared_dimensions"
          "Order.customer_id" "Customer.customer_id" "many_to_one"].
Proof.
  apply (starter_project_summary Scenario.project Scenario.orders_file
           Scenario.search_dirs Scenario.shared_file); by vm_compute.
Defined.

(** ** Claim C4 *)

(** C4: when the root document fails to load, [resolve_model] returns at
    once with exactly one issue, of the most severe kind the engine has
    ([error], code [ROOT_LOAD_FAILED], the text of the failure in its
    message), and with nothing else: the root model is the empty
    mapping, and there are no imported models, no edges in the import
    graph and no entries in the file map. *)
Theorem root_load_failure fs root_path search_dirs exc :
  load_yaml_model fs (fs_resolve fs root_path) = inr exc ->
  let r := resolve_model fs root_path search_dirs in
  issues r = [mkIssue "error" "ROOT_LOAD_FAILED"
                ("Failed to load root model: " ++ exc)%string "/"]
  /\ root_model r = empty_model
  /\ imported_models r = []
  /\ import_graph r = ∅
  /\ file_map r = ∅.
Proof.
  intros Hload. unfold resolve_model, resolve_model_walk.
  rewrite Hload. by cbn.
Qed.

Lemma root_load_failure_witness :
  let r := resolve_model Scenario.project ["proj"; "models"; "missing.model.yaml"]
             Scenario.search_dirs in
  issues r = [mkIssue "error" "ROOT_LOAD_FAILED"
                "Failed to load root model: No such file or directory" "/"]
  /\ root_model r = empty_model
  /\ imported_models r = []
  /\ import_graph r = ∅
  /\ file_map r = ∅.
Proof.
  apply (root_load_failure Scenario.project
           ["proj"; "models"; "missing.model.yaml"] Scenario.search_dirs
           "No such file or directory").
  reflexivity.
Defined.

(** ** Claim C5 *)

Module SearchFacts.
Import SearchOrder.

Section Facts.
Variable fs : FileSystem.

Lemma find_app {A} (f : A -> bool) l1 l2 :
  List.find f (l1 ++ l2)
  = match List.find f l1 with
    | Some x => Some x
    | None => List.find f l2
    end.
Proof.
  induction l1 as [|x l1 IH]; simpl; [done|]. by destruct (f x).
Qed.

Lemma first_candidate_find dir candidates :
  first_candidate fs dir candidates
  = List.find (fs_exists fs) (map (path_div dir) candidates).
Proof.
  unfold first_candidate.
  induction candidates as [|c cs IH]; simpl; [done|].
  by destruct (fs_exists fs (path_div dir c)).
Qed.

Lemma first_in_subdirs_find dir subs candidates :
  first_in_subdirs fs dir subs candidates
  = List.find (fs_exists fs)
      (flat_map (fun d => map (path_div d) candidates)
         (map (fun sub => dir ++ [sub])
            (List.filter
               (fun sub => fs_is_dir fs (dir ++ [sub])
                           && negb (Py.starts_with_dot sub))
               subs))).
Proof.
  induction subs as [|sub subs IH]; simpl; [done|].
  destruct (fs_is_dir fs (dir ++ [sub]) && negb (Py.starts_with_dot sub));
    simpl; [|done].
  rewrite find_app, <- first_candidate_find, IH.
  by destruct (first_candidate fs (dir ++ [sub]) candidates).
Qed.

Lemma find_in_dirs_depth_first candidates dirs :
  find_in_dirs fs candidates dirs
  = first_existing fs candidates (depth_first fs dirs).
Proof.
  unfold first_existing, depth_first.
  induction dirs as [|dir dirs IH]; simpl; [done|].
  rewrite !flat_map_app, !find_app, <- first_candidate_find, IH.
  destruct (first_candidate fs dir candidates); [done|].
  unfold subdirectories.
  destruct (fs_is_dir fs dir); simpl; [|done].
  by rewrite first_in_subdirs_find.
Qed.
End Facts.
End SearchFacts.

(** C5, against the claim as stated: a file in a subdirectory of the
    directory of the importing model wins over a file at the top of a
    search directory, where trying all the top levels first would find
    the latter. *)
Lemma subdirectory_wins_over_search_dir :
  _resolve_import_path Examples.two_copies Examples.import_dim ["app"] [["lib"]]
  = Some ["app"; "vendored"; "dim.model.yaml"]
  /\ SearchOrder.first_existing Examples.two_copies
       (model_file_candidates "dim")
       (SearchOrder.top_levels_first Examples.two_copies [["app"]; ["lib"]])
     = Some ["lib"; "dim.model.yaml"].
Proof. by vm_compute. Qed.

(** C5 (amended): for an import without an explicit path, the file is the
    first existing path in this order: the directory of the importing
    model followed at once by its immediate subdirectories that are not
    hidden, in lexicographic order, then each search directory in the
    order given, each followed at once by its own such subdirectories;
    in every directory [<model>.model.yaml] is tried before
    [<model>.model.yml]. *)
Theorem import_search_order fs imp root_dir search_dirs :
  Py.truthy (get_str (imp_path imp)) = false ->
  Py.truthy (get_str (imp_model imp)) = true ->
  _resolve_import_path fs imp root_dir search_dirs
  = SearchOrder.first_existing fs
      [(get_str (imp_model imp) ++ ".model.yaml")%string;
       (get_str (imp_model imp) ++ ".model.yml")%string]
      (SearchOrder.depth_first fs (root_dir :: search_dirs)).
Proof.
  intros Hpath Hname. unfold _resolve_import_path, _find_model_file.
  rewrite Hpath, Hname. apply SearchFacts.find_in_dirs_depth_first.
Qed.

Lemma import_search_order_witness :
  _resolve_import_path Examples.two_copies Examples.import_dim ["app"] [["lib"]]
  = SearchOrder.first_existing Examples.two_copies
      ["dim.model.yaml"; "dim.model.yml"]
      (SearchOrder.depth_first Examples.two_copies [["app"]; ["lib"]]).
Proof.
  apply (import_search_order Examples.two_copies Examples.import_dim
           ["app"] [["lib"]]); reflexivity.
Defined.

(** ** Claim C10 *)

Module OwnershipFacts.
Import Ownership CanonicalFacts.

Lemma dict_get_app {V} k (d1 d2 : Py.dict V) :
  Py.dict_get k (d1 ++ d2)
  = match Py.dict_get k d1 with
    | Some v => Some v
    | None => Py.dict_get k d2
    end.
Proof.
  induction d1 as [|[k' v'] d1 IH]; simpl; [done|]. by case_bool_decide.
Qed.

(** A loop of assignments [index[k] = v] leaves the last one. *)
Lemma foldl_insert_last {A} (kv : A -> string * string) l
    (m0 : gmap string string) n :
  foldl (fun acc e => <[(kv e).1 := (kv e).2]> acc) m0 l !! n
  = match Py.dict_get n (reverse (map kv l)) with
    | Some v => Some v
    | None => m0 !! n
    end.
Proof.
  revert m0. induction l as [|e l IH] using rev_ind; intros m0; [done|].
  rewrite foldl_app, map_app, reverse_app. simpl.
  destruct (kv e) as [k v] eqn:E. simpl.
  case_bool_decide; subst.
  - by rewrite lookup_insert_eq.
  - rewrite lookup_insert_ne by done. apply IH.
Qed.

Lemma unified_owners self :
  map (fun e => (get_str (ent_name (ue_entity e)), ue_source_model e))
      (unified_entities self)
  = in_order (declared_name "root" (root_model self)) (root_model self)
      (Py.sorted_items (imported_models self)).
Proof.
  unfold unified_entities, in_order, named.
  rewrite map_app, map_map. f_equal.
  induction (Py.sorted_items (imported_models self)) as [|[alias m] l IH];
    simpl; [done|].
  by rewrite map_app, map_map, IH.
Qed.

Lemma entity_to_model_last self n :
  entity_to_model_of (unified_entities self) !! n
  = last_owner n
      (in_order (declared_name "root" (root_model self)) (root_model self)
         (Py.sorted_items (imported_models self))).
Proof.
  unfold entity_to_model_of, last_owner.
  rewrite <- unified_owners.
  rewrite (foldl_insert_last
             (fun e => (get_str (ent_name (ue_entity e)), ue_source_model e))).
  rewrite lookup_empty. by destruct (Py.dict_get _ _).
Qed.

Lemma dict_get_const {A} (k : A -> string) (c : string) l n v :
  Py.dict_get n (map (fun e => (k e, c)) l) = Some v -> v = c.
Proof.
  induction l as [|e l IH]; simpl; [done|].
  case_bool_decide; [congruence|auto].
Qed.

Lemma seen_root_first root_name (m0 : gmap string string) l n :
  Py.truthy n = true ->
  foldl (fun seen entity =>
           let ename := get_str (ent_name entity) in
           if Py.truthy ename then <[ename := root_name]> seen else seen)
        m0 l !! n
  = match Py.dict_get n (map (fun e => (get_str (ent_name e), root_name)) l) with
    | Some v => Some v
    | None => m0 !! n
    end.
Proof.
  intros Hn. revert m0. induction l as [|e l IH]; intros m0; simpl; [done|].
  rewrite IH. case_bool_decide as Hk.
  - destruct (Py.dict_get n _) eqn:E.
    + by rewrite (dict_get_const _ _ _ _ _ E).
    + rewrite Hk, Hn. by rewrite lookup_insert_eq.
  - destruct (Py.dict_get n _); [done|].
    destruct (Py.truthy (get_str _)); [|done]. by rewrite lookup_insert_ne.
Qed.

Lemma check_in_first alias mn l seen out n :
  Py.truthy n = true ->
  (foldl (check_duplicates_in alias mn) (seen, out) l).1 !! n
  = match seen !! n with
    | Some v => Some v
    | None => Py.dict_get n (map (fun e => (get_str (ent_name e), mn)) l)
    end.
Proof.
  intros Hn. revert seen out.
  induction l as [|e l IH]; intros seen out.
  - simpl. by destruct (seen !! n).
  - cbn [foldl map Py.dict_get fst].
    destruct (check_duplicates_in alias mn (seen, out) e)
      as [seen' out'] eqn:E.
    rewrite IH. unfold check_duplicates_in in E.
    destruct (Py.truthy (get_str (ent_name e))) eqn:Ht; simpl in E.
    + case_bool_decide as Hdom; injection E as <- <-.
      * apply elem_of_dom in Hdom as [o Ho].
        destruct (seen !! n) eqn:E; [done|].
        case_bool_decide; [congruence|done].
      * apply not_elem_of_dom in Hdom.
        case_bool_decide; subst.
        -- by rewrite lookup_insert_eq, Hdom.
        -- by rewrite lookup_insert_ne.
    + injection E as <- <-. destruct (seen !! n); [done|].
      case_bool_decide; [congruence|done].
Qed.

Lemma check_duplicates_first root_name r n :
  Py.truthy n = true ->
  (check_duplicates root_name r).1 !! n
  = first_owner n (in_order root_name (root_model r) (imported_models r)).
Proof.
  intros Hn. unfold check_duplicates, first_owner, in_order.
  rewrite dict_get_app.
  assert (Hroot : seen_root_entities root_name (root_model r) !! n
                  = Py.dict_get n (named root_name (root_model r))).
  { unfold seen_root_entities, named. rewrite seen_root_first by done.
    rewrite lookup_empty. by destruct (Py.dict_get _ _). }
  rewrite <- Hroot. clear Hroot.
  generalize (seen_root_entities root_name (root_model r)) (issues r).
  induction (imported_models r) as [|[alias m] l IH]; intros seen out; simpl.
  - by destruct (seen !! n).
  - destruct (foldl (check_duplicates_in alias (declared_name alias m))
                    (seen, out) (default [] (m_entities m)))
      as [seen' out'] eqn:E.
    rewrite IH. rewrite dict_get_app.
    assert (E' : seen' !! n
                 = match seen !! n with
                   | Some v => Some v
                   | None => Py.dict_get n (named (declared_name alias m) m)
                   end).
    { change seen' with (seen', out').1. rewrite <- E.
      by apply check_in_first. }
    rewrite E'. by destruct (seen !! n).
Qed.

(** The classification of [to_graph_summary], with the index read as
    a function from names to owners. *)
Lemma cross_rel_of_crossing (index : gmap string string) rel :
  cross_rel_of index rel = crossing (fun n => index !! n) rel.
Proof.
  unfold cross_rel_of, crossing. cbv zeta.
  destruct (index !! Py.split_head "." (get_str (rel_from (ur_relationship rel))))
    as [f|]; [|done].
  destruct (index !! Py.split_head "." (get_str (rel_to (ur_relationship rel))))
    as [t|]; simpl; [|by rewrite andb_false_r].
  destruct f, t; simpl; repeat case_bool_decide; try done; naive_solver.
Qed.

(** The owner table of the check agrees with the first owner in the
    order [pre] of the declarations seen so far. *)
Lemma check_in_agrees alias mn l seen out (pre : Py.dict string) :
  (forall n, Py.truthy n = true -> seen !! n = Py.dict_get n pre) ->
  forall n, Py.truthy n = true ->
    (foldl (check_duplicates_in alias mn) (seen, out) l).1 !! n
    = Py.dict_get n (pre ++ map (fun e => (get_str (ent_name e), mn)) l).
Proof.
  intros Hpre n Hn. rewrite check_in_first, dict_get_app, Hpre by done.
  done.
Qed.

Lemma check_in_warnings alias mn l seen out (pre : Py.dict string) i :
  (forall n, Py.truthy n = true -> seen !! n = Py.dict_get n pre) ->
  i ∈ (foldl (check_duplicates_in alias mn) (seen, out) l).2 ->
  i ∈ out
  \/ exists e o,
       e ∈ l /\ Py.truthy (get_str (ent_name e)) = true
       /\ Py.dict_get (get_str (ent_name e))
            (pre ++ map (fun e => (get_str (ent_name e), mn)) l) = Some o
       /\ i = duplicate_warning (get_str (ent_name e)) o mn alias.
Proof.
  revert seen out pre. induction l as [|e l IH]; intros seen out pre Hpre Hi.
  - by left.
  - cbn [foldl] in Hi.
    pose proof (check_in_agrees alias mn [e] seen out pre Hpre) as Hstep.
    cbn [foldl map] in Hstep.
    destruct (check_duplicates_in alias mn (seen, out) e)
      as [seen1 out1] eqn:E.
    destruct (IH seen1 out1 (pre ++ [(get_str (ent_name e), mn)]) Hstep Hi)
      as [Hout|(e' & o & He' & Ht & Ho & ->)].
    + unfold check_duplicates_in in E.
      destruct (Py.truthy (get_str (ent_name e))) eqn:Ht; cbn [andb] in E.
      * case_bool_decide as Hdom; injection E as <- <-; [|by left].
        apply elem_of_app in Hout as [Hout|Hout]; [by left|].
        apply list_elem_of_singleton in Hout as ->. right.
        apply elem_of_dom in Hdom as [o Ho].
        exists e, o. split_and!; [left|done| |by rewrite Ho].
        by rewrite dict_get_app, <- Hpre, Ho.
      * injection E as <- <-. by left.
    + right. exists e', o. split_and!; [by right|done| |done].
      by rewrite <- app_assoc in Ho.
Qed.

Lemma check_models_warnings models seen out (pre : Py.dict string) i :
  (forall n, Py.truthy n = true -> seen !! n = Py.dict_get n pre) ->
  i ∈ (foldl (fun acc '(alias, model) =>
                foldl (check_duplicates_in alias (declared_name alias model))
                      acc (default [] (m_entities model)))
             (seen, out) models).2 ->
  i ∈ out
  \/ exists alias m e o,
       (alias, m) ∈ models /\ e ∈ default [] (m_entities m)
       /\ Py.truthy (get_str (ent_name e)) = true
       /\ Py.dict_get (get_str (ent_name e))
            (pre ++ flat_map (fun '(alias, m) => named (declared_name alias m) m)
                      models) = Some o
       /\ i = duplicate_warning (get_str (ent_name e)) o
                (declared_name alias m) alias.
Proof.
  revert seen out pre.
  induction models as [|[alias m] models IH]; intros seen out pre Hpre Hi.
  - by left.
  - cbn [foldl flat_map] in Hi |- *.
    pose proof (check_in_agrees alias (declared_name alias m)
                  (default [] (m_entities m)) seen out pre Hpre) as Hstep.
    pose proof (fun i => check_in_warnings alias (declared_name alias m)
                  (default [] (m_entities m)) seen out pre i Hpre) as Hw.
    destruct (foldl (check_duplicates_in alias (declared_name alias m))
                (seen, out) (default [] (m_entities m))) as [seen1 out1].
    destruct (IH seen1 out1 _ Hstep Hi)
      as [Hout|(alias' & m' & e & o & Hm & He & Ht & Ho & ->)].
    + destruct (Hw i Hout) as [?|(e & o & He & Ht & Ho & ->)]; [by left|].
      right. exists alias, m, e, o. split_and!; [left|done|done| |done].
      rewrite app_assoc, dict_get_app. unfold named. by rewrite Ho.
    + right. exists alias', m', e, o. split_and!; [by right|done|done| |done].
      by rewrite <- app_assoc in Ho.
Qed.

(** Every warning of the check names the first owner of the entity. *)
Lemma check_duplicates_warnings root_name r i :
  i ∈ (check_duplicates root_name r).2 ->
  i ∈ issues r
  \/ exists alias m e o,
       (alias, m) ∈ imported_models r /\ e ∈ default [] (m_entities m)
       /\ Py.truthy (get_str (ent_name e)) = true
       /\ first_owner (get_str (ent_name e))
            (in_order root_name (root_model r) (imported_models r)) = Some o
       /\ i = duplicate_warning (get_str (ent_name e)) o
                (declared_name alias m) alias.
Proof.
  unfold check_duplicates, first_owner, in_order.
  apply check_models_warnings. intros n Hn.
  unfold seen_root_entities, named. rewrite seen_root_first by done.
  rewrite lookup_empty. by destruct (Py.dict_get _ _).
Qed.

End OwnershipFacts.

(** C10, against the claim as stated: the model that the summary takes
    for the owner of an entity name can be the first model that declared
    the name, the owner that the duplicate warning names.  [shop] imports
    [zmod] and then [amod], which both declare [Item]: the last model in
    the order "root, then aliases ascending" is [zmod], and [zmod] is
    also the first model in the order of registration, in which the
    duplicate check goes. *)
Lemma cross_model_owner_can_be_first :
  let r := Examples.shop_resolved in
  imported_models r = [("zmod", Examples.zmod); ("amod", Examples.amod)]
  /\ entity_names Examples.zmod = ["Item"]
  /\ entity_names Examples.amod = ["Item"]
  /\ Ownership.last_owner "Item"
       (Ownership.in_order "shop" (root_model r)
          (Py.sorted_items (imported_models r)))
     = Some "zmod"
  /\ gs_cross_model_relationships (to_graph_summary r)
     = [mkCrossRel "order_item" "shop" "zmod" "Order.item_id" "Item.id"
          "many_to_one"]
  /\ entity_to_model_of (unified_entities r) !! "Item" = Some "zmod"
  /\ Ownership.first_owner "Item"
       (Ownership.in_order "shop" (root_model r) (imported_models r))
     = Some "zmod"
  /\ issues r = [Ownership.duplicate_warning "Item" "zmod" "amod" "amod"].
Proof. cbv zeta. split_and!; by vm_compute. Qed.

(** C10 (amended): [to_graph_summary] attributes an entity name to the
    last model that declares it, in the order "root, then the imported
    models by ascending alias", because each assignment to
    [entity_to_model] overwrites the one before it: the entries of
    [cross_model_relationships] are the relationships whose two ends
    have such owners, with names that differ, and they carry these
    owners.  The check for duplicate entity names in [resolve_model]
    keeps the first model that declares the name, in the order "root,
    then the imported models as registered", and every warning it adds
    names that owner.  The two owners can differ: in [crm_with_billing]
    the summary attributes [Customer] to [billing] and the duplicate
    check to [crm]. *)
Theorem cross_model_owner_is_last :
  (forall self,
     gs_cross_model_relationships (to_graph_summary self)
     = omap (Ownership.crossing
               (fun n =>
                  Ownership.last_owner n
                    (Ownership.in_order
                       (declared_name "root" (root_model self))
                       (root_model self)
                       (Py.sorted_items (imported_models self)))))
            (unified_relationships self))
  /\ (forall self n,
        entity_to_model_of (unified_entities self) !! n
        = Ownership.last_owner n
            (Ownership.in_order (declared_name "root" (root_model self))
               (root_model self) (Py.sorted_items (imported_models self))))
  /\ (forall self,
        StronglySorted (key_le (fun kv => [kv.1]))
          (Py.sorted_items (imported_models self))
        /\ Py.sorted_items (imported_models self) ≡ₚ imported_models self)
  /\ (forall self root_name n,
        Py.truthy n = true ->
        (check_duplicates root_name self).1 !! n
        = Ownership.first_owner n
            (Ownership.in_order root_name (root_model self)
               (imported_models self)))
  /\ (forall self root_name i,
        i ∈ (check_duplicates root_name self).2 ->
        i ∈ issues self
        \/ exists alias m e o,
             (alias, m) ∈ imported_models self
             /\ e ∈ default [] (m_entities m)
             /\ Py.truthy (get_str (ent_name e)) = true
             /\ Ownership.first_owner (get_str (ent_name e))
                  (Ownership.in_order root_name (root_model self)
                     (imported_models self)) = Some o
             /\ i = Ownership.duplicate_warning (get_str (ent_name e)) o
                      (declared_name alias m) alias)
  /\ (entity_to_model_of (unified_entities Examples.crm_with_billing)
        !! "Customer" = Some "billing"
      /\ (check_duplicates "crm" Examples.crm_with_billing).1
           !! "Customer" = Some "crm").
Proof.
  split_and!.
  - intros self. unfold to_graph_summary. cbv zeta. cbn [gs_cross_model_relationships].
    apply list_eq. intros k. f_equal.
    induction (unified_relationships self) as [|rel l IH]; [done|].
    cbn [omap list_omap].
    rewrite OwnershipFacts.cross_rel_of_crossing.
    unfold Ownership.crossing at 1 3.
    rewrite !OwnershipFacts.entity_to_model_last. by rewrite IH.
  - apply OwnershipFacts.entity_to_model_last.
  - intros self. split.
    + apply PyFacts.sorted_sorted.
    + apply PyFacts.sorted_perm.
  - intros self root_name n. apply OwnershipFacts.check_duplicates_first.
  - intros self root_name i. apply OwnershipFacts.check_duplicates_warnings.
  - by vm_compute.
  - by vm_compute.
Qed.

Lemma cross_model_owner_is_last_witness :
  Py.truthy "Customer" = true
  /\ (check_duplicates "crm" Examples.crm_with_billing).1 !! "Customer"
     = Ownership.first_owner "Customer"
         (Ownership.in_order "crm" Examples.crm [("billing", Examples.billing)]).
Proof.
  split; [reflexivity|].
  apply (proj1 (proj2 (proj2 (proj2 cross_model_owner_is_last)))
           Examples.crm_with_billing "crm" "Customer").
  reflexivity.
Defined.

(** ** Claim C8 *)

Module DifferFacts.
Import Differ.

Lemma added_self {A} (m : gmap string A) : added m m = [].
Proof.
  unfold added. by rewrite difference_diag_L, elements_empty.
Qed.

Lemma removed_self {A} (m : gmap string A) : removed m m = [].
Proof. apply added_self. Qed.

Lemma changed_self {A} `{EqDecision A} (m : gmap string A) : changed m m = [].
Proof.
  unfold changed.
  induction (Py.sorted_str (elements (dom m ∩ dom m))) as [|k l IH]; [done|].
  rewrite filter_cons. by destruct (decide (m !! k <> m !! k)).
Qed.

End DifferFacts.

(** C8: the report of a document against itself has every count of its
    summary at zero, no breaking change and [has_breaking_changes]
    false. *)
Theorem semantic_diff_self m :
  Differ.semantic_diff m m
  = Differ.mkDiffReport (Differ.mkDiffSummary 0 0 0 0 0 0) [] false.
Proof.
  unfold Differ.semantic_diff.
  rewrite !DifferFacts.added_self, !DifferFacts.removed_self,
    !DifferFacts.changed_self.
  reflexivity.
Qed.

(** ** The store *)

Module StoreFacts.
Import Store.

Lemma bind_run {A B} (c : M A) (k : A -> M B) h :
  (c ≫= k) h
  = match c h with
    | (Return a, h') => k a h'
    | (Raise e, h') => (Raise e, h')
    end.
Proof. reflexivity. Qed.

Lemma keeps_refl n prot h : keeps n prot h h.
Proof. by split. Qed.

Lemma keeps_trans n prot h1 h2 h3 :
  keeps n prot h1 h2 -> keeps n prot h2 h3 -> keeps n prot h1 h3.
Proof.
  intros [L1 K1] [L2 K2]. split; [lia|].
  intros l Hl Hp. by rewrite K2, K1.
Qed.

Lemma keeps_prefix n prot h h' :
  n <= length h -> h `prefix_of` h' -> keeps n prot h h'.
Proof.
  intros Hn [k ->]. split; [rewrite length_app; lia|].
  intros l Hl _. apply lookup_app_l. lia.
Qed.

Lemma keeps_insert n prot h l o :
  (l < n -> ~ prot l) -> keeps n prot h (<[l := o]> h).
Proof.
  intros Hl. split; [by rewrite length_insert|].
  intros l' Hl' Hp. apply list_lookup_insert_ne. intros ->. by apply Hl.
Qed.

Lemma keeps_all_prefix h h' :
  keeps (length h) (fun _ => True) h h' -> h `prefix_of` h'.
Proof.
  intros [Hlen Hk]. exists (drop (length h) h').
  rewrite <- (take_drop (length h) h') at 1. f_equal.
  apply list_eq. intros i. destruct (decide (i < length h)) as [Hi|Hi].
  - rewrite lookup_take_lt by done. by apply Hk.
  - rewrite lookup_take_ge by lia. symmetry. apply lookup_ge_None. lia.
Qed.

Lemma fresh_mono n m v : n <= m -> fresh m v -> fresh n v.
Proof. intros Hnm Hf l Hl. specialize (Hf l Hl). lia. Qed.

Lemma fresh_atom n v : (forall l, v <> VRef l) -> fresh n v.
Proof. intros H l Hl. by destruct (H l). Qed.

(** *** Rules *)

Section Rules.
Context (n : nat) (prot : nat -> Prop).

Lemma triple_ret {A} (P : heap -> Prop) (a : A) (Q : A -> heap -> Prop) :
  (forall h, P h -> Q a h) -> triple n prot P (mret a) Q.
Proof.
  intros HQ h Hn HP. split; [apply keeps_refl|].
  intros a' [= <-]. by apply HQ.
Qed.

Lemma triple_raise {A} (P : heap -> Prop) e (Q : A -> heap -> Prop) :
  triple n prot P (raise e) Q.
Proof. intros h Hn HP. split; [apply keeps_refl|]. by intros a. Qed.

Lemma triple_bind {A B} (P : heap -> Prop) (c : M A) (Q : A -> heap -> Prop)
    (k : A -> M B) (R : B -> heap -> Prop) :
  triple n prot P c Q ->
  (forall a, triple n prot (Q a) (k a) R) ->
  triple n prot P (c ≫= k) R.
Proof.
  intros Hc Hk h Hn HP. rewrite bind_run.
  destruct (Hc h Hn HP) as [Hkeep HQ].
  destruct (c h) as [[a|e] h'] eqn:E; simpl in *; [|by split].
  destruct (Hk a h') as [Hkeep' HR]; [destruct Hkeep; lia|by apply HQ|].
  split; [by eapply keeps_trans|done].
Qed.

Lemma triple_conseq {A} (P P' : heap -> Prop) (c : M A)
    (Q Q' : A -> heap -> Prop) :
  triple n prot P c Q ->
  (forall h, P' h -> P h) ->
  (forall a h, Q a h -> Q' a h) ->
  triple n prot P' c Q'.
Proof.
  intros Hc HP HQ h Hn HP'. destruct (Hc h Hn (HP _ HP')) as [Hk Hq].
  split; [done|]. intros a Ha. by apply HQ, Hq.
Qed.

(** A fact that holds before [c] and does not depend on the store holds
    after it. *)
Lemma triple_pure {A} (F : Prop) (P : heap -> Prop) (c : M A)
    (Q : A -> heap -> Prop) :
  (F -> triple n prot P c Q) ->
  triple n prot (fun h => F /\ P h) c Q.
Proof. intros Hc h Hn [HF HP]. by apply Hc. Qed.

(** A computation that only reads. *)
Lemma triple_reads {A} (P : heap -> Prop) (c : M A) :
  reads c ->
  triple n prot P c (fun a h => P h /\ (c h).1 = Return a).
Proof.
  intros Hr h Hn HP. rewrite Hr. split; [apply keeps_refl|].
  intros a Ha. rewrite !Hr. by split.
Qed.

(** A computation that only adds objects; [m] is a size that the store
    is known to have. *)
Lemma triple_appends {A} (m : nat) (P : heap -> Prop) (c : M A)
    (Q : nat -> A -> Prop) :
  appends c Q ->
  (forall h h', P h -> h `prefix_of` h' -> P h') ->
  (forall h, n <= length h -> P h -> m <= length h) ->
  (forall k a, m <= k -> Q k a -> Q m a) ->
  triple n prot P c (fun a h => Q m a /\ P h).
Proof.
  intros Hc Hst Hm HQ h Hn HP. destruct (Hc h) as [Hpre Hq].
  split; [by apply keeps_prefix|].
  intros a Ha. split; [|by eapply Hst]. eapply HQ; [|by apply Hq]. by apply Hm.
Qed.

(** An update in place of an object that is not protected. *)
Lemma triple_store (P P' : heap -> Prop) l o :
  (l < n -> ~ prot l) ->
  (forall h, P h -> P' (<[l := o]> h)) ->
  triple n prot P (store (VRef l) o) (fun _ h => P' h).
Proof.
  intros Hl HP h Hn HPh. simpl. split; [by apply keeps_insert|].
  intros _ _. by apply HP.
Qed.

Lemma triple_setitem (P P' : heap -> Prop) x k v :
  (forall l, x = VRef l -> l < n -> ~ prot l) ->
  (forall h l d, P h -> x = VRef l -> h !! l = Some (ODict d) ->
                 P' (<[l := ODict (Py.dict_set k v d)]> h)) ->
  triple n prot P (setitem x k v) (fun _ h => P' h).
Proof.
  intros Hl HP h Hn HPh. unfold setitem. rewrite bind_run.
  destruct x as [| | | |l]; simpl; try (split; [apply keeps_refl|done]).
  destruct (h !! l) as [[items|d]|] eqn:E; simpl;
    try (split; [apply keeps_refl|done]).
  split; [apply keeps_insert; by apply Hl|].
  intros _ _. by eapply HP.
Qed.

Lemma triple_append (P P' : heap -> Prop) x v :
  (forall l, x = VRef l -> l < n -> ~ prot l) ->
  (forall h l items, P h -> x = VRef l -> h !! l = Some (OList items) ->
                     P' (<[l := OList (items ++ [v])]> h)) ->
  triple n prot P (append x v) (fun _ h => P' h).
Proof.
  intros Hl HP h Hn HPh. unfold append. rewrite bind_run.
  destruct x as [| | | |l]; simpl; try (split; [apply keeps_refl|done]).
  destruct (h !! l) as [[items|d]|] eqn:E; simpl;
    try (split; [apply keeps_refl|done]).
  split; [apply keeps_insert; by apply Hl|].
  intros _ _. by eapply HP.
Qed.

(** A loop whose body keeps an invariant. *)
Lemma triple_forM_ {A} (I : heap -> Prop) (l : list A) (f : A -> M unit) :
  (forall x, x ∈ l -> triple n prot I (f x) (fun _ h => I h)) ->
  triple n prot I (forM_ l f) (fun _ h => I h).
Proof.
  induction l as [|x l IH]; intros Hf; simpl.
  - by apply triple_ret.
  - eapply triple_bind; [apply Hf; by left|].
    intros []. apply IH. intros y Hy. apply Hf. by right.
Qed.

End Rules.

(** From the rules to the computations that only add objects. *)
Lemma triple_appends_intro {A} (c : M A) (Q : nat -> A -> Prop) :
  (forall h0,
     triple (length h0) (fun _ => True) (fun h => h = h0) c
            (fun a _ => Q (length h0) a)) ->
  appends c Q.
Proof.
  intros Hc h. destruct (Hc h h) as [Hk HQ]; [done..|].
  split; [by apply keeps_all_prefix|done].
Qed.

(** *** Computations that only read *)

Lemma reads_ret {A} (a : A) : reads (mret a).
Proof. by intros h. Qed.

Lemma reads_raise {A} e : reads (raise (A := A) e).
Proof. by intros h. Qed.

Lemma reads_bind {A B} (c : M A) (k : A -> M B) :
  reads c -> (forall a, reads (k a)) -> reads (c ≫= k).
Proof.
  intros Hc Hk h. rewrite bind_run. specialize (Hc h).
  destruct (c h) as [[a|e] h']; simpl in *; subst; [apply Hk|done].
Qed.

Lemma reads_deref e x : reads (deref e x).
Proof.
  intros h. unfold deref. destruct x; try done. by destruct (h !! l).
Qed.

Lemma reads_get x k d : reads (get x k d).
Proof.
  apply reads_bind; [apply reads_deref|].
  intros [items|es]; [apply reads_raise|apply reads_ret].
Qed.

Lemma reads_getitem x k : reads (getitem x k).
Proof.
  apply reads_bind; [apply reads_deref|].
  intros [items|es]; [apply reads_raise|].
  destruct (Py.dict_get k es); [apply reads_ret|apply reads_raise].
Qed.

Lemma reads_contains x k : reads (contains x k).
Proof.
  apply reads_bind; [apply reads_deref|].
  intros [items|es]; apply reads_ret.
Qed.

Lemma reads_isinstance_list x : reads (isinstance_list x).
Proof.
  intros h. unfold isinstance_list. destruct x; try done.
  by destruct (h !! l) as [[]|].
Qed.

Lemma reads_isinstance_dict x : reads (isinstance_dict x).
Proof.
  intros h. unfold isinstance_dict. destruct x; try done.
  by destruct (h !! l) as [[]|].
Qed.

Lemma reads_iter x : reads (iter x).
Proof.
  unfold iter. destruct x; try apply reads_ret;
    (apply reads_bind; [apply reads_deref|]); intros [items|es]; apply reads_ret.
Qed.

Lemma reads_truth x : reads (truth x).
Proof.
  unfold truth. destruct x; try apply reads_ret.
  apply reads_bind; [apply reads_deref|]. intros [items|es]; apply reads_ret.
Qed.

Lemma reads_hashed x : reads (hashed x).
Proof. destruct x; try apply reads_ret. apply reads_raise. Qed.

Lemma reads_mapM {A B} (f : A -> M B) l :
  (forall x, reads (f x)) -> reads (mapM f l).
Proof.
  intros Hf. induction l as [|x l IH]; simpl; [apply reads_ret|].
  apply reads_bind; [apply Hf|]. intros y.
  apply reads_bind; [apply IH|]. intros ys. apply reads_ret.
Qed.

Lemma reads_filterM {A} (f : A -> M bool) l :
  (forall x, reads (f x)) -> reads (filterM f l).
Proof.
  intros Hf. induction l as [|x l IH]; simpl; [apply reads_ret|].
  apply reads_bind; [apply Hf|]. intros y.
  apply reads_bind; [apply IH|]. intros ys. apply reads_ret.
Qed.

Lemma reads_key_of ks item : reads (key_of ks item).
Proof. apply reads_mapM. intros k. apply reads_get. Qed.

(** *** Computations that only add objects *)

Lemma appends_new o : appends (new o) (fun m v => v = VRef m).
Proof.
  intros h. simpl. split; [by apply prefix_app_r|]. by intros a [= <-].
Qed.

Lemma appends_reads {A} (c : M A) : reads c -> appends c (fun _ _ => True).
Proof. intros Hc h. by rewrite Hc. Qed.

Lemma appends_raise {A} e (Q : nat -> A -> Prop) : appends (raise e) Q.
Proof. intros h. by split. Qed.

Lemma appends_weaken {A} (c : M A) (Q Q' : nat -> A -> Prop) :
  appends c Q -> (forall m a, Q m a -> Q' m a) -> appends c Q'.
Proof.
  intros Hc HQ h. destruct (Hc h) as [Hp Hq]. split; [done|].
  intros a Ha. by apply HQ, Hq.
Qed.

Lemma appends_bind {A B} (c : M A) (k : A -> M B) (R : nat -> B -> Prop) :
  appends c (fun _ _ => True) ->
  (forall a, appends (k a) R) ->
  (forall m m' b, m <= m' -> R m' b -> R m b) ->
  appends (c ≫= k) R.
Proof.
  intros Hc Hk HR h. rewrite bind_run. destruct (Hc h) as [Hp _].
  destruct (c h) as [[a|e] h'] eqn:E; simpl in *; [|by split].
  destruct (Hk a h') as [Hp' Hr].
  split; [by etrans|].
  intros b Hb. eapply HR; [|by apply Hr]. by apply prefix_length.
Qed.

Lemma appends_fresh_new o : appends (new o) fresh.
Proof.
  eapply appends_weaken; [apply appends_new|].
  intros m v -> l [= <-]. done.
Qed.

Lemma appends_sorted_by key xs :
  (forall item, reads (key item)) -> appends (sorted_by key xs) fresh.
Proof.
  intros Hkey. unfold sorted_by.
  apply appends_bind; [apply appends_reads, reads_iter| |apply fresh_mono].
  intros items.
  apply appends_bind;
    [by apply appends_reads, reads_mapM| |apply fresh_mono].
  intros keys. destruct (sort_keyed _).
  - apply appends_fresh_new.
  - apply appends_raise.
Qed.

Lemma appends_sorted xs : appends (sorted xs) fresh.
Proof. apply appends_sorted_by. intros item. apply reads_ret. Qed.

(** *** [deepcopy] *)

Section Deepcopy.
Context (n : nat) (prot : nat -> Prop).
Local Abbreviation copies := (Store.copies n prot).
Local Abbreviation fills := (Store.fills n prot).

Lemma deepcopy_items_fills rec ly items :
  n <= ly -> (forall a, copies (rec a)) ->
  fills (deepcopy_items rec (VRef ly) items).
Proof.
  intros Hy Hrec. induction items as [|a items IH]; intros memo Hm; simpl.
  - by apply triple_ret.
  - eapply triple_bind; [by apply Hrec|].
    intros [v memo']. simpl.
    apply (triple_conseq _ _ (fun h => memo_fresh n memo' /\ True) _ _
             (fun memo'' _ => memo_fresh n memo'')); [|by intros h []|done].
    apply triple_pure. intros Hm'.
    eapply triple_bind.
    + apply (triple_append _ _ (fun _ => True) (fun _ => True)); [|done].
      intros l [= <-]. lia.
    + intros []. by apply IH.
Qed.

Lemma deepcopy_entries_fills rec ly entries :
  n <= ly -> (forall a, copies (rec a)) ->
  fills (deepcopy_entries rec (VRef ly) entries).
Proof.
  intros Hy Hrec. induction entries as [|[k a] entries IH]; intros memo Hm;
    simpl.
  - by apply triple_ret.
  - eapply triple_bind; [by apply Hrec|].
    intros [v memo']. simpl.
    apply (triple_conseq _ _ (fun h => memo_fresh n memo' /\ True) _ _
             (fun memo'' _ => memo_fresh n memo'')); [|by intros h []|done].
    apply triple_pure. intros Hm'.
    eapply triple_bind.
    + apply (triple_setitem _ _ (fun _ => True) (fun _ => True)); [|done].
      intros l [= <-]. lia.
    + intros []. by apply IH.
Qed.

Lemma memo_fresh_insert memo l ly :
  memo_fresh n memo -> n <= ly -> memo_fresh n (<[l := ly]> memo).
Proof.
  intros Hm Hy l1 l2. rewrite lookup_insert.
  case_decide; [by intros [= <-]|apply Hm].
Qed.

Lemma deepcopy_memo_copies limit x : copies (deepcopy_memo limit x).
Proof.
  revert x. induction limit as [|limit IH]; intros x memo Hm;
    (destruct x as [| | | |l]; simpl;
     try (apply triple_ret; intros h _; split; [by apply fresh_atom|done])).
  - destruct (memo !! l) as [l'|] eqn:E.
    + apply triple_ret. intros h _. split; [|done].
      intros l0 [= <-]. by eapply Hm.
    + apply triple_raise.
  - destruct (memo !! l) as [l'|] eqn:E.
    { apply triple_ret. intros h _. split; [|done].
      intros l0 [= <-]. by eapply Hm. }
    eapply triple_bind; [apply triple_reads, reads_deref|].
    intros [items|entries].
    + intros h Hn _. rewrite bind_run. simpl.
      destruct (deepcopy_items_fills (deepcopy_memo limit) (length h) items
                  Hn IH (<[l := length h]> memo)
                  (memo_fresh_insert _ _ _ Hm Hn) (h ++ [OList []]))
        as [Hk Hq]; [rewrite length_app; lia|done|].
      rewrite bind_run.
      destruct (deepcopy_items _ _ _ _ _) as [[memo'|e] h'] eqn:E';
        simpl in *.
      * split.
        -- eapply keeps_trans; [|exact Hk].
           apply keeps_prefix; [done|by apply prefix_app_r].
        -- intros r [= <-]. simpl. split; [|by apply Hq].
           intros l0 [= <-]. done.
      * split; [|done].
        eapply keeps_trans; [|exact Hk].
        apply keeps_prefix; [done|by apply prefix_app_r].
    + intros h Hn _. rewrite bind_run. simpl.
      destruct (deepcopy_entries_fills (deepcopy_memo limit) (length h) entries
                  Hn IH (<[l := length h]> memo)
                  (memo_fresh_insert _ _ _ Hm Hn) (h ++ [ODict []]))
        as [Hk Hq]; [rewrite length_app; lia|done|].
      rewrite bind_run.
      destruct (deepcopy_entries _ _ _ _ _) as [[memo'|e] h'] eqn:E';
        simpl in *.
      * split.
        -- eapply keeps_trans; [|exact Hk].
           apply keeps_prefix; [done|by apply prefix_app_r].
        -- intros r [= <-]. simpl. split; [|by apply Hq].
           intros l0 [= <-]. done.
      * split; [|done].
        eapply keeps_trans; [|exact Hk].
        apply keeps_prefix; [done|by apply prefix_app_r].
Qed.

End Deepcopy.

Lemma appends_deepcopy limit x : appends (deepcopy limit x) fresh.
Proof.
  apply triple_appends_intro. intros h0. unfold deepcopy.
  eapply triple_bind.
  - eapply triple_conseq; [by apply (deepcopy_memo_copies _ _ limit x ∅)|done|].
    intros r h H. exact H.
  - intros [v memo]. apply triple_ret. by intros h [].
Qed.

(** *** Invariants *)

Section Invariants.
Context (n : nat) (prot : nat -> Prop) (P : heap -> Prop).

Lemma triple_bind_pure {A B} (c : M A) (F : A -> Prop) (k : A -> M B)
    (R : B -> heap -> Prop) :
  triple n prot P c (fun a h => F a /\ P h) ->
  (forall a, F a -> triple n prot P (k a) R) ->
  triple n prot P (c ≫= k) R.
Proof.
  intros Hc Hk. eapply triple_bind; [exact Hc|].
  intros a. apply (triple_pure n prot (F a) P). apply Hk.
Qed.

Lemma inv_ret {A} (a : A) (F : A -> Prop) :
  F a -> triple n prot P (mret a) (fun a h => F a /\ P h).
Proof. intros Ha. by apply triple_ret. Qed.

Lemma inv_raise {A} e (F : A -> Prop) :
  triple n prot P (raise e) (fun a h => F a /\ P h).
Proof. apply triple_raise. Qed.

Lemma inv_reads {A} (c : M A) :
  reads c -> triple n prot P c (fun _ h => True /\ P h).
Proof.
  intros Hc. eapply triple_conseq; [by apply triple_reads|done|].
  by intros a h [? _].
Qed.

Lemma inv_appends (c : M value) :
  stable_ext P -> appends c fresh ->
  triple n prot P c (fun a h => fresh n a /\ P h).
Proof.
  intros HP Hc. apply (triple_appends n prot n P c fresh); try done.
  intros k a. apply fresh_mono.
Qed.

Lemma inv_setitem x k v :
  fresh n x -> stable_at P x ->
  triple n prot P (setitem x k v) (fun _ h => True /\ P h).
Proof.
  intros Hx HP. apply (triple_setitem n prot P (fun h => True /\ P h)).
  - intros l Hl. specialize (Hx l Hl). lia.
  - intros h l d Hh Hl _. split; [done|]. by eapply HP.
Qed.

Lemma inv_append x v :
  fresh n x -> stable_at P x ->
  triple n prot P (append x v) (fun _ h => True /\ P h).
Proof.
  intros Hx HP. apply (triple_append n prot P (fun h => True /\ P h)).
  - intros l Hl. specialize (Hx l Hl). lia.
  - intros h l d Hh Hl _. split; [done|]. by eapply HP.
Qed.

Lemma inv_forM_ {A} (l : list A) (f : A -> M unit) :
  (forall x, triple n prot P (f x) (fun _ h => True /\ P h)) ->
  triple n prot P (forM_ l f) (fun _ h => True /\ P h).
Proof.
  intros Hf. eapply triple_conseq.
  - apply (triple_forM_ n prot P). intros x _.
    eapply triple_conseq; [apply Hf|done|]. by intros a h [_ ?].
  - done.
  - by intros a h ?.
Qed.

Lemma inv_weaken {A} (c : M A) (F F' : A -> Prop) :
  triple n prot P c (fun a h => F a /\ P h) ->
  (forall a, F a -> F' a) ->
  triple n prot P c (fun a h => F' a /\ P h).
Proof.
  intros Hc HF. eapply triple_conseq; [exact Hc|done|].
  intros a h [? ?]. split; auto.
Qed.

(** *** canonical.py *)

Lemma inv_sort_if_list cloned k :
  stable_ext P -> stable_at P cloned -> fresh n cloned ->
  triple n prot P (sort_if_list cloned k) (fun _ h => True /\ P h).
Proof.
  intros He Ha Hc. unfold sort_if_list.
  eapply triple_bind_pure; [apply inv_reads, reads_contains|].
  intros [] _; [|by apply inv_ret].
  eapply triple_bind_pure; [apply inv_reads, reads_getitem|]. intros v _.
  eapply triple_bind_pure; [apply inv_reads, reads_isinstance_list|].
  intros [] _; [|by apply inv_ret].
  eapply triple_bind_pure; [apply inv_reads, reads_getitem|]. intros v' _.
  eapply triple_bind_pure; [apply inv_appends, appends_sorted; done|].
  intros v'' _. by apply inv_setitem.
Qed.

Lemma inv_rekey_if_dict governance k :
  stable_ext P -> stable_at P governance -> fresh n governance ->
  triple n prot P (rekey_if_dict governance k) (fun _ h => True /\ P h).
Proof.
  intros He Ha Hg. unfold rekey_if_dict.
  eapply triple_bind_pure; [apply inv_reads, reads_get|]. intros v _.
  eapply triple_bind_pure; [apply inv_reads, reads_isinstance_dict|].
  intros [] _; [|by apply inv_ret].
  eapply triple_bind_pure; [apply inv_reads, reads_deref|].
  intros [items|es] _; [apply inv_raise|].
  eapply triple_bind_pure; [apply inv_appends, appends_fresh_new; done|].
  intros v' _. by apply inv_setitem.
Qed.

End Invariants.

Lemma stable_ext_True : stable_ext (fun _ => True).
Proof. done. Qed.

Lemma stable_at_True x : stable_at (fun _ => True) x.
Proof. done. Qed.

(** A computation that keeps every object below the size of the store
    it starts from only adds objects. *)
Lemma appends_intro (c : M value) :
  (forall n prot,
     triple n prot (fun _ => True) c (fun a h => fresh n a /\ True)) ->
  appends c fresh.
Proof.
  intros Hc. apply triple_appends_intro. intros h0.
  eapply triple_conseq; [apply Hc|done|]. by intros a h [? _].
Qed.

Lemma appends_sort_fields fields : appends (_sort_fields fields) fresh.
Proof. apply appends_sorted_by, reads_key_of. Qed.

Lemma appends_sort_relationships rels :
  appends (_sort_relationships rels) fresh.
Proof. apply appends_sorted_by, reads_key_of. Qed.

Lemma appends_sort_rules rules : appends (_sort_rules rules) fresh.
Proof. apply appends_sorted_by, reads_key_of. Qed.

Lemma appends_sort_indexes limit indexes :
  appends (_sort_indexes limit indexes) fresh.
Proof.
  unfold _sort_indexes. apply appends_bind; [| |apply fresh_mono].
  - eapply appends_weaken; [apply appends_deepcopy|done].
  - intros copied. apply appends_sorted_by, reads_key_of.
Qed.

Lemma appends_sort_entities limit entities :
  appends (_sort_entities limit entities) fresh.
Proof.
  apply appends_intro. intros n prot. unfold _sort_entities.
  pose proof stable_ext_True as He. pose proof stable_at_True as Ha.
  eapply triple_bind_pure; [by apply inv_appends, appends_fresh_new|].
  intros sorted_entities Hs.
  eapply triple_bind_pure; [apply inv_reads, reads_iter|]. intros items _.
  eapply triple_bind_pure.
  { apply inv_forM_. intros entity.
    eapply triple_bind_pure; [by apply inv_appends, appends_deepcopy|].
    intros cloned Hc.
    eapply triple_bind_pure; [by apply inv_appends, appends_fresh_new|].
    intros d _.
    eapply triple_bind_pure; [apply inv_reads, reads_get|]. intros fields _.
    eapply triple_bind_pure; [by apply inv_appends, appends_sort_fields|].
    intros fields' _.
    eapply triple_bind_pure; [by apply inv_setitem|]. intros [] _.
    eapply triple_bind_pure; [apply inv_reads, reads_contains|].
    intros has_tags _.
    eapply (triple_bind_pure _ _ _ _ (fun _ => True)).
    { destruct has_tags; [|by apply inv_ret].
      eapply triple_bind_pure; [apply inv_reads, reads_getitem|]. intros v _.
      eapply triple_bind_pure; [apply inv_reads, reads_isinstance_list|].
      intros [] _; [|by apply inv_ret].
      eapply triple_bind_pure; [apply inv_reads, reads_getitem|]. intros v' _.
      eapply triple_bind_pure; [by apply inv_appends, appends_sorted|].
      intros v'' _. by apply inv_setitem. }
    intros [] _. by apply inv_append. }
  intros [] _. apply inv_appends; [done|]. apply appends_sorted_by, reads_key_of.
Qed.

Lemma appends_sort_glossary limit glossary :
  appends (_sort_glossary limit glossary) fresh.
Proof.
  apply appends_intro. intros n prot. unfold _sort_glossary.
  pose proof stable_ext_True as He. pose proof stable_at_True as Ha.
  eapply triple_bind_pure; [by apply inv_appends, appends_fresh_new|].
  intros sorted_terms Hs.
  eapply triple_bind_pure; [apply inv_reads, reads_iter|]. intros items _.
  eapply triple_bind_pure.
  { apply inv_forM_. intros term.
    eapply triple_bind_pure; [by apply inv_appends, appends_deepcopy|].
    intros cloned Hc.
    eapply triple_bind_pure; [by apply inv_sort_if_list|]. intros [] _.
    eapply triple_bind_pure; [by apply inv_sort_if_list|]. intros [] _.
    by apply inv_append. }
  intros [] _. apply inv_appends; [done|]. apply appends_sorted_by, reads_key_of.
Qed.

(** *** [compile_model] *)

Lemma holds_model_ext lc cm : stable_ext (holds_model lc cm).
Proof.
  intros h h' (d & Hd & Hm) Hp. exists d. split; [|done].
  by eapply prefix_lookup_Some.
Qed.

Lemma holds_model_at lc cm x :
  fresh (S lc) x -> stable_at (holds_model lc cm) x.
Proof.
  intros Hx h l o (d & Hd & Hm) Hl. exists d. split; [|done].
  rewrite list_lookup_insert_ne; [done|]. specialize (Hx l Hl). lia.
Qed.

Lemma holds_model_size lc cm h : holds_model lc cm h -> S lc <= length h.
Proof. intros (d & Hd & _). by apply lookup_lt_Some in Hd. Qed.

Lemma dict_get_set_ne {V} k k' (v : V) d :
  k <> k' -> Py.dict_get k' (Py.dict_set k v d) = Py.dict_get k' d.
Proof.
  intros Hne. induction d as [|[k0 v0] d IH]; simpl.
  - by rewrite bool_decide_eq_false_2.
  - case_bool_decide; simpl.
    + subst. by rewrite !bool_decide_eq_false_2.
    + by rewrite IH.
Qed.

Section Canonical.
Context (n : nat) (prot : nat -> Prop).

Lemma holds_model_setitem lc cm k v :
  n <= lc -> k <> "model" ->
  triple n prot (holds_model lc cm) (setitem (VRef lc) k v)
         (fun _ h => True /\ holds_model lc cm h).
Proof.
  intros Hlc Hk.
  apply (triple_setitem n prot _ (fun h => True /\ holds_model lc cm h)).
  - intros l [= <-]. lia.
  - intros h l d (d' & Hd' & Hm) [= <-] Hd. split; [done|].
    assert (d' = d) as -> by congruence.
    exists (Py.dict_set k v d). split.
    + apply list_lookup_insert_eq. by apply lookup_lt_Some in Hd.
    + by rewrite dict_get_set_ne.
Qed.

Lemma holds_model_getitem lc cm :
  triple n prot (holds_model lc cm) (getitem (VRef lc) "model")
         (fun a h => a = cm /\ holds_model lc cm h).
Proof.
  eapply triple_conseq; [apply triple_reads, reads_getitem|done|].
  intros a h [(d & Hd & Hm) Ha]. split; [|by exists d].
  unfold getitem in Ha. rewrite bind_run in Ha. simpl in Ha.
  rewrite Hd in Ha. simpl in Ha. rewrite Hm in Ha. by injection Ha.
Qed.

(** The statements of [compile_model] after the dict display. *)
Lemma compile_model_rest limit model lc cm :
  n <= lc -> fresh n cm ->
  triple n prot (holds_model lc cm)
    (let canonical := VRef lc in
     d ← new (ODict []);
     v ← get model "governance" d;
     governance ← deepcopy limit v;
     rekey_if_dict governance "classification" ;;
     rekey_if_dict governance "stewards" ;;
     setitem canonical "governance" governance ;;
     d ← new (OList []);
     v ← get model "glossary" d;
     v ← _sort_glossary limit v;
     setitem canonical "glossary" v ;;
     d ← new (ODict []);
     v ← get model "display" d;
     v ← deepcopy limit v;
     setitem canonical "display" v ;;
     cm ← getitem canonical "model";
     owners ← get cm "owners" VNone;
     is_list ← isinstance_list owners;
     (if is_list : bool then
        owners ← sorted owners;
        cm ← getitem canonical "model";
        setitem cm "owners" owners
      else mret tt) ;;
     mret canonical)
    (fun a _ => fresh n a /\ True).
Proof.
  intros Hlc Hcm. cbv zeta.
  pose proof (holds_model_ext lc cm) as He.
  eapply triple_bind_pure; [by apply inv_appends, appends_fresh_new|].
  intros d _.
  eapply triple_bind_pure; [apply inv_reads, reads_get|]. intros v _.
  eapply (triple_bind_pure _ _ _ _ (fresh (S lc))).
  { apply (triple_appends n prot (S lc) _ _ fresh);
      [apply appends_deepcopy|done| |intros k a; apply fresh_mono].
    intros h _. apply holds_model_size. }
  intros governance Hg.
  assert (fresh n governance) as Hg' by (eapply fresh_mono; [|done]; lia).
  eapply triple_bind_pure;
    [by apply inv_rekey_if_dict; [|apply holds_model_at|]|]. intros [] _.
  eapply triple_bind_pure;
    [by apply inv_rekey_if_dict; [|apply holds_model_at|]|]. intros [] _.
  eapply triple_bind_pure; [by apply holds_model_setitem|]. intros [] _.
  eapply triple_bind_pure; [by apply inv_appends, appends_fresh_new|].
  intros d' _.
  eapply triple_bind_pure; [apply inv_reads, reads_get|]. intros v' _.
  eapply triple_bind_pure; [by apply inv_appends, appends_sort_glossary|].
  intros glossary _.
  eapply triple_bind_pure; [by apply holds_model_setitem|]. intros [] _.
  eapply triple_bind_pure; [by apply inv_appends, appends_fresh_new|].
  intros d'' _.
  eapply triple_bind_pure; [apply inv_reads, reads_get|]. intros v'' _.
  eapply triple_bind_pure; [by apply inv_appends, appends_deepcopy|].
  intros display _.
  eapply triple_bind_pure; [by apply holds_model_setitem|]. intros [] _.
  eapply triple_bind_pure; [apply holds_model_getitem|]. intros cm' ->.
  eapply triple_bind_pure; [apply inv_reads, reads_get|]. intros owners _.
  eapply triple_bind_pure; [apply inv_reads, reads_isinstance_list|].
  intros is_list _.
  eapply (triple_bind _ _ _ _ (fun _ _ => True)).
  { destruct is_list; [|by apply triple_ret].
    eapply triple_bind_pure; [by apply inv_appends, appends_sorted|].
    intros owners' _.
    eapply triple_bind_pure; [apply holds_model_getitem|]. intros cm' ->.
    apply (triple_setitem n prot _ (fun _ => True)); [|done].
    intros l Hl. specialize (Hcm l Hl). lia. }
  intros []. apply triple_ret. intros h _. split; [|done].
  intros l [= <-]. done.
Qed.

End Canonical.

Lemma appends_compile_model limit model :
  appends (compile_model limit model) fresh.
Proof.
  apply appends_intro. intros n prot. unfold compile_model.
  pose proof stable_ext_True as He.
  eapply triple_bind_pure; [by apply inv_appends, appends_fresh_new|].
  intros d1 _.
  eapply triple_bind_pure; [apply inv_reads, reads_get|]. intros v1 _.
  eapply triple_bind_pure; [by apply inv_appends, appends_deepcopy|].
  intros c_model Hcm.
  eapply triple_bind_pure; [by apply inv_appends, appends_fresh_new|].
  intros d2 _.
  eapply triple_bind_pure; [apply inv_reads, reads_get|]. intros v2 _.
  eapply triple_bind_pure; [by apply inv_appends, appends_sort_entities|].
  intros c_entities _.
  eapply triple_bind_pure; [by apply inv_appends, appends_fresh_new|].
  intros d3 _.
  eapply triple_bind_pure; [apply inv_reads, reads_get|]. intros v3 _.
  eapply triple_bind_pure; [by apply inv_appends, appends_sort_relationships|].
  intros c_relationships _.
  eapply triple_bind_pure; [by apply inv_appends, appends_fresh_new|].
  intros d4 _.
  eapply triple_bind_pure; [apply inv_reads, reads_get|]. intros v4 _.
  eapply triple_bind_pure; [by apply inv_appends, appends_sort_indexes|].
  intros c_indexes _.
  eapply triple_bind_pure; [by apply inv_appends, appends_fresh_new|].
  intros d5 _.
  eapply triple_bind_pure; [apply inv_reads, reads_get|]. intros v5 _.
  eapply triple_bind_pure; [by apply inv_appends, appends_sort_rules|].
  intros c_rules _.
  intros h Hn _. rewrite bind_run. cbn [new].
  destruct (compile_model_rest n prot limit model (length h) c_model Hn Hcm
              (h ++ [ODict [("model", c_model); ("entities", c_entities);
                            ("relationships", c_relationships);
                            ("indexes", c_indexes); ("rules", c_rules)]]))
    as [Hk Hq].
  - rewrite length_app. lia.
  - eexists. split; [by apply list_lookup_middle|]. reflexivity.
  - split; [|exact Hq].
    eapply keeps_trans; [|exact Hk].
    apply keeps_prefix; [done|by apply prefix_app_r].
Qed.

(** *** The entity filter *)

Section Filter.
Context (lr : nat) (attrs : Py.dict value).
Local Abbreviation result_intact := (Store.result_intact lr attrs).
Local Abbreviation not_of_result := (Store.not_of_result attrs).

Context (n : nat) (Hn : S lr <= n).

Lemma result_intact_ext : stable_ext result_intact.
Proof. intros h h' Hh Hp. by eapply prefix_lookup_Some. Qed.

Lemma result_intact_at x : fresh n x -> stable_at result_intact x.
Proof.
  intros Hx h l o Hh Hl. unfold result_intact.
  rewrite list_lookup_insert_ne; [done|]. specialize (Hx l Hl). lia.
Qed.

Lemma result_getitem k :
  triple n not_of_result result_intact (getitem (VRef lr) k)
         (fun a h => Py.dict_get k attrs = Some a /\ result_intact h).
Proof.
  eapply triple_conseq; [apply triple_reads, reads_getitem|done|].
  intros a h [Hh Ha]. split; [|done].
  unfold getitem in Ha. rewrite bind_run in Ha. simpl in Ha.
  rewrite Hh in Ha. simpl in Ha.
  destruct (Py.dict_get k attrs); [by injection Ha as ->|done].
Qed.

Lemma result_issues_append issues i :
  Py.dict_get "issues" attrs = Some issues ->
  triple n not_of_result result_intact (append issues i)
         (fun _ h => True /\ result_intact h).
Proof.
  intros Hi.
  apply (triple_append n not_of_result _ (fun h => True /\ result_intact h)).
  - intros l -> _ [H _]. by apply H.
  - intros h l items Hh -> Hl. split; [done|]. unfold result_intact.
    rewrite list_lookup_insert_ne; [done|]. intros ->.
    unfold result_intact in Hh. congruence.
Qed.

Lemma result_imported_setitem imported alias v :
  Py.dict_get "imported_models" attrs = Some imported ->
  triple n not_of_result result_intact (setitem imported alias v)
         (fun _ _ => True).
Proof.
  intros Hi. apply (triple_setitem n not_of_result _ (fun _ => True)); [|done].
  intros l -> _ [_ H]. by apply H.
Qed.

Lemma inv_entity_names model_data :
  triple n not_of_result result_intact (entity_names model_data)
         (fun _ h => True /\ result_intact h).
Proof.
  unfold entity_names. pose proof result_intact_ext as He.
  eapply triple_bind_pure; [by apply inv_appends, appends_fresh_new|].
  intros d _.
  eapply triple_bind_pure; [apply inv_reads, reads_get|]. intros es _.
  eapply triple_bind_pure; [apply inv_reads, reads_iter|]. intros es' _.
  apply inv_reads, reads_mapM. intros e.
  apply reads_bind; [apply reads_get|]. intros v. apply reads_hashed.
Qed.

Lemma apply_entity_filter_triple limit alias imp_model_name entity_filter
    model_data :
  triple n not_of_result result_intact
    (apply_entity_filter limit (VRef lr) alias imp_model_name entity_filter
       model_data)
    (fun _ _ => True).
Proof.
  unfold apply_entity_filter. pose proof result_intact_ext as He.
  eapply triple_bind_pure; [apply inv_reads, reads_truth|]. intros [] _.
  - eapply triple_bind_pure; [by apply inv_appends, appends_deepcopy|].
    intros filtered Hf.
    eapply triple_bind_pure; [apply inv_entity_names|]. intros available _.
    eapply triple_bind_pure; [apply inv_reads, reads_iter|].
    intros all_requested _.
    eapply triple_bind_pure.
    { apply inv_forM_. intros requested.
      eapply triple_bind_pure; [apply inv_reads, reads_hashed|].
      intros requested' _.
      case_bool_decide; [|by apply inv_ret].
      eapply triple_bind_pure; [by apply inv_appends, appends_fresh_new|].
      intros i _.
      eapply triple_bind_pure; [apply result_getitem|]. intros issues Hi.
      by apply result_issues_append. }
    intros [] _.
    eapply triple_bind_pure; [by apply inv_appends, appends_fresh_new|].
    intros d _.
    eapply triple_bind_pure; [apply inv_reads, reads_get|]. intros es _.
    eapply triple_bind_pure; [apply inv_reads, reads_iter|]. intros es' _.
    eapply (triple_bind_pure _ _ _ _ (fun _ => True)).
    { apply inv_reads, reads_filterM. intros e.
      apply reads_bind; [apply reads_get|]. intros v.
      apply reads_bind; [apply reads_hashed|]. intros v'.
      apply reads_bind; [apply reads_iter|]. intros w.
      apply reads_bind; [apply reads_mapM, reads_hashed|]. intros w'.
      apply reads_ret. }
    intros kept _.
    eapply triple_bind_pure; [by apply inv_appends, appends_fresh_new|].
    intros kept' _.
    eapply triple_bind_pure;
      [by apply inv_setitem; [|apply result_intact_at]|].
    intros [] _.
    eapply triple_bind_pure; [apply result_getitem|]. intros imported Hi.
    by apply result_imported_setitem.
  - eapply triple_bind_pure; [by apply inv_appends, appends_deepcopy|].
    intros copied Hc.
    eapply triple_bind_pure; [apply result_getitem|]. intros imported Hi.
    by apply result_imported_setitem.
Qed.

End Filter.

Lemma dump_agree fuel h h' (S : nat -> Prop) x :
  closed h S ->
  (forall l, S l -> h' !! l = h !! l) ->
  (forall l, x = VRef l -> S l) ->
  dump fuel h' x = dump fuel h x.
Proof.
  intros Hc Hs. revert x.
  induction fuel as [|fuel IH]; intros x Hx; destruct x as [| | | |l];
    simpl; try done.
  rewrite (Hs l) by auto.
  destruct (h !! l) as [[items|es]|] eqn:E; [| |done].
  - f_equal. 
    assert (Hall : Forall (fun a => forall l', a = VRef l' -> S l') items).
    { rewrite Forall_forall. intros a Ha l' ->.
      eapply (Hc l _ l'); [by apply Hx|exact E|done]. }
    clear E. induction Hall as [|a items Ha _ IHl]; simpl; [done|].
    by rewrite (IH a Ha), IHl.
  - f_equal.
    assert (Hall : Forall (fun kv => forall l', kv.2 = VRef l' -> S l') es).
    { rewrite Forall_forall. intros [k a] Ha l'. simpl. intros ->.
      eapply (Hc l _ l'); [by apply Hx|exact E|].
      simpl. by apply (list_elem_of_fmap_2 snd _ (k, VRef l')). }
    clear E. induction Hall as [|[k a] es Ha _ IHl]; simpl; [done|].
    simpl in Ha. by rewrite (IH a Ha), IHl.
Qed.

(** *** Documents in a larger store *)

Lemma dump_prefix fuel h h' x y :
  h `prefix_of` h' -> dump fuel h x = Some y -> dump fuel h' x = Some y.
Proof.
  intros Hp. revert x y.
  induction fuel as [|fuel IH]; intros x y; destruct x as [| | | |l];
    simpl; try done.
  destruct (h !! l) as [o|] eqn:E; [|done].
  rewrite (prefix_lookup_Some _ _ _ _ E Hp).
  destruct o as [items|es]; intros Hy.
  - destruct (mapM (dump fuel h) items) as [ys|] eqn:Em; [|done].
    apply mapM_Some in Em.
    assert (mapM (dump fuel h') items = Some ys) as ->; [|done].
    apply mapM_Some. eapply Forall2_impl; [exact Em|]. intros a b. apply IH.
  - destruct (mapM (fun kv => pair kv.1 <$> dump fuel h kv.2) es)
      as [ys|] eqn:Em; [|done].
    apply mapM_Some in Em.
    assert (mapM (fun kv => pair kv.1 <$> dump fuel h' kv.2) es = Some ys)
      as ->; [|done].
    apply mapM_Some. eapply Forall2_impl; [exact Em|]. intros [k a] b. simpl.
    destruct (dump fuel h a) as [ya|] eqn:Ea; [|done].
    by rewrite (IH _ _ Ea).
Qed.

End StoreFacts.

(** ** Claim C9 *)

(** The two embeddings of [compile_model] agree on the documents of the
    starter project: the canonical form computed in the store is the
    document of the canonical form computed on records, and the argument
    still stands for the same document afterwards. *)
Lemma compile_model_in_store_agrees :
  Examples.agrees_in_store Scenario.orders = true
  /\ Examples.agrees_in_store Scenario.shared_dimensions = true.
Proof. split; by vm_compute. Qed.

(** C9: whatever the store, the argument, the recursion limit and the
    outcome (a result or an exception), [compile_model] only adds objects
    to the store: every object that existed before the call is unchanged
    after it.  So the document that the argument stands for, read to any
    depth through all its lists and nested maps, is the same after the
    call as before. *)
Theorem compile_model_keeps_argument limit model h :
  let h' := (Store.compile_model limit model h).2 in
  h `prefix_of` h'
  /\ (forall l, l < length h -> h' !! l = h !! l)
  /\ (forall fuel y,
        Store.dump fuel h model = Some y -> Store.dump fuel h' model = Some y).
Proof.
  destruct (StoreFacts.appends_compile_model limit model h) as [Hp _].
  split_and!; [done| |].
  - intros l Hl. destruct Hp as [k ->]. by apply lookup_app_l.
  - intros fuel y. by apply StoreFacts.dump_prefix.
Qed.

Lemma compile_model_keeps_argument_witness :
  Store.dump 100 Examples.orders_store Examples.orders_object
  = Some (Doc.of_model Scenario.orders)
  /\ Store.dump 100
       (Store.compile_model 100 Examples.orders_object
          Examples.orders_store).2
       Examples.orders_object
     = Some (Doc.of_model Scenario.orders).
Proof.
  split; [by vm_compute|].
  apply (proj2 (proj2 (compile_model_keeps_argument 100
                         Examples.orders_object Examples.orders_store))).
  by vm_compute.
Defined.

(** ** The filter block, step by step *)

Module FilterFacts.

Lemma dict_get_set_eq {V} k (v : V) d : Py.dict_get k (Py.dict_set k v d) = Some v.
Proof.
  induction d as [|[k' v'] d IH]; simpl.
  - by rewrite bool_decide_eq_true_2.
  - case_bool_decide; simpl.
    + by rewrite bool_decide_eq_true_2.
    + by rewrite bool_decide_eq_false_2.
Qed.

(** The loop [for requested in entity_filter] adds one issue for each
    requested name that is not available, in order, and nothing else. *)
Lemma report_missing alias name (available : gset string) fl st :
  foldl (fun st requested =>
           if bool_decide (requested ∉ available)
           then add_issue (entity_not_found alias name requested) st
           else st) st fl
  = mkWalk
      (mkResolved (root_model (result st)) (imported_models (result st))
         (import_graph (result st)) (file_map (result st))
         (issues (result st)
          ++ map (entity_not_found alias name)
               (filter (fun r => r ∉ available) fl)))
      (loaded_models st) (file_reads st).
Proof.
  revert st. induction fl as [|r fl IH]; intros st; simpl.
  - destruct st as [[]]; simpl. by rewrite app_nil_r.
  - rewrite IH, filter_cons. case_bool_decide as Hr; case_decide; try done.
    simpl. by rewrite <- app_assoc.
Qed.

Lemma apply_entity_filter_nonempty alias name requested rest md st :
  apply_entity_filter alias name (Some (requested :: rest)) md st
  = let fl := requested :: rest in
    let r := result st in
    mkWalk
      (mkResolved (root_model r)
         (Py.dict_set alias
            (with_entities md
               (filter (fun e => get_str (ent_name e) ∈ fl)
                       (default [] (m_entities md))))
            (imported_models r))
         (import_graph r) (file_map r)
         (issues r
          ++ map (entity_not_found alias name)
               (filter (fun r => r ∉ entity_names md) fl)))
      (loaded_models st) (file_reads st).
Proof.
  unfold apply_entity_filter. rewrite report_missing. unfold set_imported.
  cbn [result root_model imported_models import_graph file_map issues
       loaded_models file_reads].
  do 2 f_equal.
  - do 2 f_equal. apply list_filter_iff. intros e.
    by rewrite elem_of_list_to_set.
  - do 2 f_equal. apply list_filter_iff. intros e.
    by rewrite elem_of_list_to_set.
Qed.

End FilterFacts.

(** ** Claim C3 *)

(** C3, the claim at the failing input: with [a] the root, [a] importing
    [b] and [b] importing [a], the file of [a] is handed to the loader
    twice in one call of [resolve_model], first as the root and then as
    the import of [b]: the root is never entered in [loaded_models]. *)
Theorem root_file_read_twice :
  let walk := resolve_model_walk Examples.mutual Examples.file_a [] in
  file_reads walk = [Examples.file_a; Examples.file_b; Examples.file_a]
  /\ loaded_models walk !! "a" = Some Examples.model_a
  /\ map fst (imported_models (result walk)) = ["b"; "a"].
Proof. by vm_compute. Qed.

(** ** The import graph: cycles and what the walk records *)

Module CycleFacts.
Import ImportGraph.

Lemma elem_of_concat {A} (x : A) l ls : x ∈ l -> l ∈ ls -> x ∈ concat ls.
Proof.
  intros Hx. induction 1 as [l ls|l l' ls _ IH]; simpl;
    apply elem_of_app; auto.
Qed.

Section Graph.
Context (g : gmap string (list string)).

Local Abbreviation edge := (ImportGraph.edge g).
Local Abbreviation finished := (ImportGraph.finished g).
Local Abbreviation unmet := (ImportGraph.unmet g).
Local Abbreviation after_false := (ImportGraph.after_false g).
Local Abbreviation detects := (ImportGraph.detects g).

Lemma edge_nodes a b : edge a b -> a ∈ graph_nodes g /\ b ∈ graph_nodes g.
Proof.
  intros (deps & Ha & Hb). unfold graph_nodes. split.
  - apply elem_of_union_l, elem_of_dom. eauto.
  - apply elem_of_union_r, elem_of_list_to_set.
    apply (elem_of_concat _ deps); [done|].
    apply list_elem_of_fmap. exists (a, deps). split; [done|].
    by apply elem_of_map_to_list.
Qed.

Lemma deps_edge m d : d ∈ default [] (g !! m) -> edge m d.
Proof.
  destruct (g !! m) as [deps|] eqn:E; simpl.
  - intros Hd. by exists deps.
  - intros Hd. by apply elem_of_nil in Hd.
Qed.

Lemma unmet_mono vg vd vg' vd' :
  vg ∪ vd ⊆ vg' ∪ vd' -> unmet vg' vd' <= unmet vg vd.
Proof. intros H. apply subseteq_size. set_solver. Qed.

Lemma unmet_enter n vg vd :
  n ∈ graph_nodes g -> n ∉ vg -> n ∉ vd ->
  unmet ({[n]} ∪ vg) vd < unmet vg vd.
Proof.
  intros Hn Hg Hd. apply subset_size. split; [set_solver|].
  intros H. assert (n ∈ graph_nodes g ∖ ({[n]} ∪ vg ∪ vd)) by set_solver.
  set_solver.
Qed.

Lemma detect_loop_spec fuel m deps vg vd :
  detects fuel ->
  m ∈ vg ->
  (forall d, d ∈ deps -> d ∈ graph_nodes g) ->
  unmet vg vd < fuel -> vg ## vd -> finished vd ->
  exists b vg' vd',
    detect_loop (_detect_cycle fuel g) m deps vg vd = Some (b, vg', vd')
    /\ (b = false ->
        exists vd'',
          vg' = vg ∖ {[m]} /\ vd' = {[m]} ∪ vd'' /\ vd ⊆ vd''
          /\ (forall d, d ∈ deps -> d ∈ vd'') /\ finished vd'' /\ vg ## vd'').
Proof.
  intros Hrec Hm. revert vg vd Hm.
  induction deps as [|d deps IH]; intros vg vd Hm Hdeps Hfuel Hdisj Hfin;
    simpl.
  - do 3 eexists. split; [done|]. intros _. exists vd.
    split_and!; try done. intros d Hd. by apply elem_of_nil in Hd.
  - destruct (Hrec d vg vd) as (b & vg1 & vd1 & -> & Hb);
      [apply Hdeps; by left|done..|].
    destruct b.
    + do 3 eexists. split; [done|]. done.
    + destruct (Hb eq_refl) as (-> & Hsub & Hd & Hfin1 & Hdisj1).
      destruct (IH vg vd1) as (b & vg2 & vd2 & -> & Hb2); try done.
      * intros d' Hd'. apply Hdeps. by right.
      * eapply Nat.le_lt_trans; [|exact Hfuel]. apply unmet_mono. set_solver.
      * do 3 eexists. split; [done|]. intros ->.
        destruct (Hb2 eq_refl) as (vd'' & -> & -> & Hsub' & Hall & Hfin2 & Hdisj2).
        exists vd''. split_and!; try done; [set_solver|].
        intros d' Hd'. apply elem_of_cons in Hd' as [->|Hd']; [set_solver|auto].
Qed.

Lemma detects_all fuel : detects fuel.
Proof.
  induction fuel as [|fuel IH]; intros n vg vd Hn Hfuel Hdisj Hfin; [lia|].
  simpl. case_bool_decide as Hvg.
  { do 3 eexists. split; [done|]. done. }
  case_bool_decide as Hvd.
  { do 3 eexists. split; [done|]. intros _. by split_and!. }
  destruct (detect_loop_spec fuel n (default [] (g !! n)) ({[n]} ∪ vg) vd IH)
    as (b & vg' & vd' & -> & Hb).
  - set_solver.
  - intros d Hd. by apply (edge_nodes n d), deps_edge.
  - pose proof (unmet_enter n vg vd Hn Hvg Hvd). lia.
  - set_solver.
  - done.
  - do 3 eexists. split; [done|]. intros ->.
    destruct (Hb eq_refl) as (vd'' & -> & -> & Hsub & Hall & Hfin' & Hdisj').
    split_and!.
    + set_solver.
    + set_solver.
    + set_solver.
    + intros v d Hv Hvd'. apply elem_of_union in Hv as [Hv|Hv].
      * apply elem_of_singleton in Hv as ->.
        apply elem_of_union_r, Hall.
        destruct Hvd' as (deps & -> & Hd). done.
      * apply elem_of_union_r. by eapply Hfin'.
    + set_solver.
Qed.

Lemma _detect_cycle_step fuel n vg vd :
  _detect_cycle (S fuel) g n vg vd
  = if bool_decide (n ∈ vg) then Some (true, vg, vd)
    else if bool_decide (n ∈ vd) then Some (false, vg, vd)
    else detect_loop (_detect_cycle fuel g) n (default [] (g !! n))
           ({[n]} ∪ vg) vd.
Proof. reflexivity. Qed.

(** [_detect_cycle] answers, with the fuel that [resolve_model] gives
    it. *)
Lemma _detect_cycle_total n :
  n ∈ graph_nodes g ->
  exists b vg vd, _detect_cycle (cycle_fuel g) g n ∅ ∅ = Some (b, vg, vd).
Proof.
  intros Hn.
  destruct (detects_all (cycle_fuel g) n ∅ ∅) as (b & vg & vd & H & _);
    try done; [|eauto].
  unfold cycle_fuel, unmet.
  assert (graph_nodes g ∖ (∅ ∪ ∅) ⊆ graph_nodes g) as Hs by set_solver.
  apply subseteq_size in Hs. lia.
Qed.

(** Two names that import each other are a cycle that is found. *)
Lemma _detect_cycle_mutual a b :
  edge a b -> edge b a ->
  exists vg vd, _detect_cycle (cycle_fuel g) g a ∅ ∅ = Some (true, vg, vd).
Proof.
  intros Hab Hba.
  destruct (detects_all (cycle_fuel g) a ∅ ∅) as (r & vg & vd & H & Hr);
    try done.
  - by apply (edge_nodes a b).
  - unfold cycle_fuel, unmet.
    assert (graph_nodes g ∖ (∅ ∪ ∅) ⊆ graph_nodes g) as Hs by set_solver.
    apply subseteq_size in Hs. lia.
  - destruct r; [eauto|]. exfalso.
    unfold cycle_fuel in H. rewrite _detect_cycle_step in H.
    rewrite !bool_decide_eq_false_2 in H by set_solver.
    destruct (detect_loop_spec (S (size (graph_nodes g))) a
                (default [] (g !! a)) ({[a]} ∪ ∅) ∅
                (detects_all _))
      as (r' & vg' & vd' & H' & Hr'); try done.
    + set_solver.
    + intros d Hd. by apply (edge_nodes a d), deps_edge.
    + unfold unmet.
      assert (graph_nodes g ∖ ({[a]} ∪ ∅ ∪ ∅) ⊆ graph_nodes g) as Hs
        by set_solver.
      apply subseteq_size in Hs. lia.
    + rewrite H' in H. injection H as -> <- <-.
      destruct (Hr' eq_refl) as (vd'' & _ & _ & _ & Hall & Hfin & Hdisj).
      assert (b ∈ vd'') as Hb.
      { apply Hall. destruct Hab as (deps & -> & Hd). done. }
      assert (a ∈ vd'') by (by eapply Hfin).
      set_solver.
Qed.

End Graph.
End CycleFacts.

Module WalkFacts.
Import ImportGraph CycleFacts.

Lemma grows_refl st : grows st st.
Proof. by split. Qed.

Lemma grows_trans st1 st2 st3 : grows st1 st2 -> grows st2 st3 -> grows st1 st3.
Proof. intros [E1 I1] [E2 I2]. split; auto. Qed.

Lemma grows_add_issue i st :
  code i <> "CIRCULAR_IMPORT" -> grows st (add_issue i st).
Proof.
  intros Hi. split; [done|]. simpl. intros H.
  apply Forall_app. split; [done|]. by constructor.
Qed.

Lemma grows_read_file p st : grows st (read_file p st).
Proof. by split. Qed.

Lemma grows_remember name m p st : grows st (remember name m p st).
Proof. by split. Qed.

Lemma grows_set_imported alias m st : grows st (set_imported alias m st).
Proof. by split. Qed.

Lemma track_import_edge a b st : edge (graph (track_import a b st)) a b.
Proof.
  unfold graph, edge. simpl. eexists. rewrite lookup_insert_eq.
  split; [done|]. apply elem_of_app. right. by left.
Qed.

Lemma grows_track_import a b st : grows st (track_import a b st).
Proof.
  split; [|done]. intros x y (deps & Hx & Hy). unfold graph, edge. simpl.
  destruct (decide (a = x)) as [->|Hne].
  - unfold graph in Hx. eexists. rewrite lookup_insert_eq. split; [done|].
    rewrite Hx. simpl. apply elem_of_app. by left.
  - exists deps. by rewrite lookup_insert_ne.
Qed.

Lemma grows_apply_entity_filter alias name ef md st :
  grows st (apply_entity_filter alias name ef md st).
Proof.
  destruct ef as [[|r fl]|]; try apply grows_set_imported.
  rewrite FilterFacts.apply_entity_filter_nonempty. split; [done|].
  simpl. intros H. apply Forall_app. split; [done|].
  apply Forall_fmap, Forall_forall. by intros x _.
Qed.

Section Walk.
Context (fs : FileSystem).

(** After the import is recorded, the rest of the loop body only adds. *)
Lemma resolve_import_after_track rec mn dir dirs st imp :
  rec_grows rec ->
  Py.truthy (get_str (imp_model imp)) = true ->
  grows (track_import mn (get_str (imp_model imp)) st)
        (resolve_import fs rec mn dir dirs st imp).
Proof.
  intros Hrec Hname. unfold resolve_import. rewrite Hname. cbn [negb].
  set (st1 := track_import mn (get_str (imp_model imp)) st).
  destruct (loaded_models st1 !! get_str (imp_model imp)) as [m|].
  { apply grows_apply_entity_filter. }
  destruct (_resolve_import_path fs imp dir dirs) as [p|];
    [|by apply grows_add_issue].
  destruct (load_yaml_model fs p) as [m|exc].
  - eapply grows_trans; [|apply grows_apply_entity_filter].
    eapply grows_trans; [apply (grows_read_file p)|].
    set (st2 := read_file p st1).
    set (st3 := if _ : bool then _ else st2).
    assert (grows st2 st3) as H23.
    { subst st3. destruct (_ && _); [by apply grows_add_issue|apply grows_refl]. }
    eapply grows_trans; [exact H23|].
    eapply grows_trans; [apply (grows_remember (get_str (imp_model imp)) m p)|].
    destruct (declared_imports m); [apply grows_refl|apply Hrec].
  - eapply grows_trans; [apply (grows_read_file p)|].
    by apply grows_add_issue.
Qed.

Lemma grows_resolve_import rec mn dir dirs st imp :
  rec_grows rec -> grows st (resolve_import fs rec mn dir dirs st imp).
Proof.
  intros Hrec. destruct (Py.truthy (get_str (imp_model imp))) eqn:Hname.
  - eapply grows_trans; [apply grows_track_import|].
    by apply resolve_import_after_track.
  - unfold resolve_import. rewrite Hname. by apply grows_add_issue.
Qed.

Lemma grows_foldl rec mn dir dirs imports st :
  rec_grows rec ->
  grows st (foldl (resolve_import fs rec mn dir dirs) st imports).
Proof.
  intros Hrec. revert st. induction imports as [|imp imports IH]; intros st.
  - apply grows_refl.
  - simpl. eapply grows_trans; [by apply grows_resolve_import|apply IH].
Qed.

Lemma grows_resolve_imports gap max_depth dirs :
  rec_grows (_resolve_imports_recursive fs gap max_depth dirs).
Proof.
  induction gap as [|gap IH]; intros name imports dir st; simpl.
  - by apply grows_add_issue.
  - by apply grows_foldl.
Qed.

(** Every valid entry of the list that the loop goes through is
    recorded. *)
Lemma foldl_records rec mn dir dirs imports st imp :
  rec_grows rec ->
  imp ∈ imports ->
  Py.truthy (get_str (imp_model imp)) = true ->
  edge (graph (foldl (resolve_import fs rec mn dir dirs) st imports))
       mn (get_str (imp_model imp)).
Proof.
  intros Hrec Hin Hname. revert st.
  induction imports as [|i imports IH]; intros st.
  - by apply elem_of_nil in Hin.
  - simpl. apply elem_of_cons in Hin as [<-|Hin]; [|by apply IH].
    apply (grows_foldl rec mn dir dirs imports _ Hrec).
    apply (resolve_import_after_track rec mn dir dirs st imp Hrec Hname).
    apply track_import_edge.
Qed.

End Walk.

(** *** Counting *)

Lemma count_code_app c l1 l2 :
  count_code c (l1 ++ l2) = count_code c l1 + count_code c l2.
Proof. unfold count_code. by rewrite filter_app, length_app. Qed.

Lemma count_code_none c l i :
  count_code c l = 0 -> i ∈ l -> code i <> c.
Proof.
  unfold count_code. intros Hc Hin Hi.
  assert (i ∈ filter (fun i => code i = c) l) as H
    by (by apply list_elem_of_filter).
  destruct (filter _ l); [by apply elem_of_nil in H|done].
Qed.

Lemma count_no_circular l :
  no_circular l -> count_code "CIRCULAR_IMPORT" l = 0.
Proof.
  unfold count_code. induction 1 as [|i l Hi _ IH]; [done|].
  rewrite filter_cons. by rewrite decide_False.
Qed.

Lemma check_duplicates_in_count alias mn acc e :
  count_code "CIRCULAR_IMPORT" (check_duplicates_in alias mn acc e).2
  = count_code "CIRCULAR_IMPORT" acc.2.
Proof.
  destruct acc as [seen out]. unfold check_duplicates_in.
  destruct (_ && _); simpl.
  - rewrite count_code_app. simpl. unfold count_code at 2.
    rewrite filter_cons, decide_False by done. simpl. lia.
  - by destruct (Py.truthy _).
Qed.

Lemma check_duplicates_count root_name r :
  count_code "CIRCULAR_IMPORT" (check_duplicates root_name r).2
  = count_code "CIRCULAR_IMPORT" (issues r).
Proof.
  unfold check_duplicates.
  change (issues r)
    with ((seen_root_entities root_name (root_model r), issues r).2) at 2.
  generalize (seen_root_entities root_name (root_model r), issues r).
  induction (imported_models r) as [|[alias m] l IH]; intros acc; [done|].
  simpl. rewrite IH. clear IH.
  revert acc. induction (default [] (m_entities m)) as [|e es IHe];
    intros acc; [done|].
  simpl. by rewrite IHe, check_duplicates_in_count.
Qed.

End WalkFacts.

(** * The canonical document *)

Module OutputFacts.
Import PyFacts CanonicalFacts.

Lemma sorted_elem_of {A} (key : A -> list string) l x :
  x ∈ Py.sorted key l <-> x ∈ l.
Proof. by rewrite (sorted_perm key l). Qed.

Lemma sorted_option_ascending (o : option (list string)) :
  StronglySorted (key_le (fun s => [s])) (default [] (Py.sorted_str <$> o)).
Proof.
  destruct o as [l|]; simpl; [|constructor]. apply (sorted_sorted (fun s => [s])).
Qed.

Lemma rekey_option_ascending {V} (o : option (Py.dict V)) :
  StronglySorted str_lt_rel (Py.dict_keys (default [] (rekey <$> o))).
Proof.
  destruct o as [d|]; simpl; [|constructor]. apply rekey_sorted.
Qed.

Lemma reordered_sorted_self (o : option (list string)) :
  reordered o (Py.sorted_str <$> o).
Proof.
  destruct o as [l|]; simpl; [|done]. symmetry. apply (sorted_perm (fun s => [s])).
Qed.

Lemma sorted_entity_content e : entity_content e (sorted_entity e).
Proof.
  unfold entity_content, sorted_entity. simpl. split_and!; try done.
  - apply sorted_perm.
  - apply reordered_sorted_self.
Qed.

Lemma sorted_term_content t : term_reordered t (sorted_term t).
Proof.
  unfold term_reordered, sorted_term. simpl.
  split_and!; try done; apply reordered_sorted_self.
Qed.

Lemma same_items_sorted_map {A} (R : A -> A -> Prop) (f : A -> A)
    (key : A -> list string) l :
  (forall x, R x (f x)) -> same_items R l (Py.sorted key (map f l)).
Proof.
  intros Hf. exists (map f l). split.
  - induction l; constructor; auto.
  - symmetry. apply sorted_perm.
Qed.

(** A lookup in the dict that the comprehension builds. *)
Lemma rekey_step_lookup {V} (d : Py.dict V) ks acc k :
  Py.dict_get k (foldl (rekey_step d) acc ks)
  = match (if bool_decide (k ∈ ks) then Py.dict_get k d else None) with
    | Some v => Some v
    | None => Py.dict_get k acc
    end.
Proof.
  revert acc. induction ks as [|k0 ks IH]; intros acc; [done|].
  - cbn [foldl]. rewrite IH. clear IH. unfold rekey_step.
    destruct (decide (k ∈ ks)) as [Hin|Hin].
    + rewrite !bool_decide_eq_true_2 by (done || by right).
      destruct (Py.dict_get k d) as [v|] eqn:Hk; [done|].
      destruct (Py.dict_get k0 d) as [v0|] eqn:Hk0; [|done].
      rewrite StoreFacts.dict_get_set_ne; [done|congruence].
    + rewrite (bool_decide_eq_false_2 _ Hin).
      destruct (decide (k = k0)) as [->|Hne].
      * rewrite bool_decide_eq_true_2 by by left.
        destruct (Py.dict_get k0 d) as [v0|] eqn:Hk0; [|done].
        apply FilterFacts.dict_get_set_eq.
      * rewrite bool_decide_eq_false_2
          by (rewrite elem_of_cons; intros [?|?]; done).
        destruct (Py.dict_get k0 d) as [v0|] eqn:Hk0; [|done].
        by rewrite StoreFacts.dict_get_set_ne.
Qed.

Lemma rekey_lookup {V} (d : Py.dict V) k :
  Py.dict_get k (rekey d) = Py.dict_get k d.
Proof.
  unfold rekey. rewrite rekey_step_lookup. simpl.
  case_bool_decide as Hk.
  - by destruct (Py.dict_get k d).
  - symmetry. apply dict_get_None. intros Hin. apply Hk.
    by apply (sorted_elem_of (fun s => [s])).
Qed.

End OutputFacts.

(** X1: The collections of a canonical document come in the order of their
    sort keys: entities and glossary terms by name, relationships by
    (name, from, to, cardinality), indexes by (name, entity), rules by
    (name, target); no item is followed by one with a smaller key. *)
Theorem compile_model_ascending m :
  let c := compile_model m in
  StronglySorted (key_le entity_key) (default [] (m_entities c))
  /\ StronglySorted (key_le relationship_key) (default [] (m_relationships c))
  /\ StronglySorted (key_le index_key) (default [] (m_indexes c))
  /\ StronglySorted (key_le rule_key) (default [] (m_rules c))
  /\ StronglySorted (key_le term_key) (default [] (m_glossary c)).
Proof.
  simpl. split_and!; apply PyFacts.sorted_sorted.
Qed.

(** X2: Inside a canonical document, the fields of every entity are in the
    order of their names, the tags of every entity, the related fields
    and the tags of every glossary term and the owners of the model are
    in ascending order, and the keys of [governance.classification] and
    of [governance.stewards] are strictly ascending. *)
Theorem compile_model_ascending_inside m :
  let c := compile_model m in
  let ascending := StronglySorted (key_le (fun s : string => [s])) in
  Forall (fun e =>
            StronglySorted (key_le field_key) (default [] (ent_fields e))
            /\ ascending (default [] (ent_tags e)))
         (default [] (m_entities c))
  /\ Forall (fun t =>
               ascending (default [] (term_related_fields t))
               /\ ascending (default [] (term_tags t)))
            (default [] (m_glossary c))
  /\ ascending (default [] (meta_owners (default empty_meta (m_model c))))
  /\ StronglySorted str_lt_rel
       (Py.dict_keys
          (default [] (gov_classification
                         (default empty_governance (m_governance c)))))
  /\ StronglySorted str_lt_rel
       (Py.dict_keys
          (default [] (gov_stewards
                         (default empty_governance (m_governance c))))).
Proof.
  simpl. split_and!.
  - apply Forall_forall. intros e He.
    apply OutputFacts.sorted_elem_of, list_elem_of_fmap in He as (e0 & -> & _).
    split; [apply PyFacts.sorted_sorted|apply OutputFacts.sorted_option_ascending].
  - apply Forall_forall. intros t Ht.
    apply OutputFacts.sorted_elem_of, list_elem_of_fmap in Ht as (t0 & -> & _).
    split; apply OutputFacts.sorted_option_ascending.
  - apply OutputFacts.sorted_option_ascending.
  - apply OutputFacts.rekey_option_ascending.
  - apply OutputFacts.rekey_option_ascending.
Qed.

(** X3: Canonicalization loses nothing and invents nothing: every
    collection of the canonical document holds the items of the input
    collection, an absent collection counting as empty; an entity keeps
    its name, its other keys and, up to order, its fields and tags, and
    likewise a glossary term; the [model] block keeps its name, its
    imports and its other keys, and its owners up to order; [display]
    and the other keys of [governance] are unchanged.  Top-level keys
    other than the eight that are read are dropped. *)
Theorem compile_model_keeps_content m :
  let c := compile_model m in
  let meta := default empty_meta (m_model m) in
  let meta' := default empty_meta (m_model c) in
  same_items entity_content (default [] (m_entities m)) (default [] (m_entities c))
  /\ default [] (m_relationships c) ≡ₚ default [] (m_relationships m)
  /\ default [] (m_indexes c) ≡ₚ default [] (m_indexes m)
  /\ default [] (m_rules c) ≡ₚ default [] (m_rules m)
  /\ same_items term_reordered (default [] (m_glossary m)) (default [] (m_glossary c))
  /\ (meta_name meta' = meta_name meta
      /\ meta_imports meta' = meta_imports meta
      /\ meta_extra meta' = meta_extra meta
      /\ reordered (meta_owners meta) (meta_owners meta'))
  /\ gov_extra (default empty_governance (m_governance c))
     = gov_extra (default empty_governance (m_governance m))
  /\ default [] (m_display c) = default [] (m_display m)
  /\ m_extra c = [].
Proof.
  simpl. split_and!; try done; try apply PyFacts.sorted_perm.
  - apply OutputFacts.same_items_sorted_map, OutputFacts.sorted_entity_content.
  - apply OutputFacts.same_items_sorted_map, OutputFacts.sorted_term_content.
  - apply OutputFacts.reordered_sorted_self.
Qed.

(** X4: Sorting the keys of [governance.classification] and of
    [governance.stewards] changes no entry: in the canonical document
    every key looks up what it looks up in the input, and a mapping that
    is absent from the input is absent from the output. *)
Theorem compile_model_governance_lookup m k :
  let g := default empty_governance (m_governance m) in
  let g' := default empty_governance (m_governance (compile_model m)) in
  (Py.dict_get k <$> gov_classification g') = (Py.dict_get k <$> gov_classification g)
  /\ (Py.dict_get k <$> gov_stewards g') = (Py.dict_get k <$> gov_stewards g).
Proof.
  simpl. split.
  - destruct (gov_classification _); simpl; [|done].
    by rewrite OutputFacts.rekey_lookup.
  - destruct (gov_stewards _); simpl; [|done].
    by rewrite OutputFacts.rekey_lookup.
Qed.

(** * The views of a result *)

Module ViewFacts.
Import PyFacts CanonicalFacts.

(** Sorting commutes with a map that keeps the sort keys. *)
Lemma insert_sorted_map {A B} (key : A -> list string) (key' : B -> list string)
    (h : A -> B) x l :
  (forall x, key' (h x) = key x) ->
  Py.insert_sorted key' (h x) (map h l) = map h (Py.insert_sorted key x l).
Proof.
  intros Hk. induction l as [|y l IH]; simpl; [done|].
  rewrite !Hk. destruct (Py.tuple_lt (key y) (key x)); simpl; [|done].
  by rewrite IH.
Qed.

Lemma sorted_map {A B} (key : A -> list string) (key' : B -> list string)
    (h : A -> B) l :
  (forall x, key' (h x) = key x) ->
  Py.sorted key' (map h l) = map h (Py.sorted key l).
Proof.
  intros Hk. induction l as [|x l IH]; simpl; [done|].
  rewrite IH. by apply insert_sorted_map.
Qed.

Lemma sorted_items_keys {V} (d : Py.dict V) :
  (Py.sorted_items d).*1 = Py.sorted_str (Py.dict_keys d).
Proof.
  unfold Py.sorted_items, Py.sorted_str, Py.dict_keys. symmetry.
  by apply (sorted_map (fun kv : string * V => [kv.1]) (fun s => [s]) fst).
Qed.

Lemma sorted_items_length {V} (d : Py.dict V) :
  length (Py.sorted_items d) = length d.
Proof. unfold Py.sorted_items. by rewrite (sorted_perm _ d). Qed.

Lemma length_concat_map {A B} (f : A -> list B) l :
  length (concat (map f l)) = foldr Nat.add 0 (map (fun x => length (f x)) l).
Proof.
  induction l as [|x l IH]; simpl; [done|]. by rewrite length_app, IH.
Qed.

(** A projection of the values of a dict goes through an assignment. *)
Lemma dict_set_map {V W} (g : string -> V -> W) k v (d : Py.dict V) :
  map (fun kv => (kv.1, g kv.1 kv.2)) (Py.dict_set k v d)
  = Py.dict_set k (g k v) (map (fun kv => (kv.1, g kv.1 kv.2)) d).
Proof.
  induction d as [|[k' v'] d IH]; simpl; [done|].
  case_bool_decide; simpl; [done|]. by rewrite IH.
Qed.

(** What the views read of the imported models, in the order of the
    aliases, depends on the projection [g] of each model only. *)
Lemma sorted_items_project {V W} (g : string -> V -> W) (d : Py.dict V) :
  map (fun kv => (kv.1, g kv.1 kv.2)) (Py.sorted_items d)
  = Py.sorted_items (map (fun kv => (kv.1, g kv.1 kv.2)) d).
Proof.
  unfold Py.sorted_items. symmetry.
  by apply (sorted_map (fun kv : string * V => [kv.1])
              (fun kv : string * W => [kv.1])).
Qed.

Lemma sorted_items_set_project {V W} (g : string -> V -> W) k v v'
    (d : Py.dict V) :
  g k v = g k v' ->
  map (fun kv => (kv.1, g kv.1 kv.2)) (Py.sorted_items (Py.dict_set k v d))
  = map (fun kv => (kv.1, g kv.1 kv.2)) (Py.sorted_items (Py.dict_set k v' d)).
Proof.
  intros Hg. by rewrite !sorted_items_project, !dict_set_map, Hg.
Qed.

(** The owner that the index of [to_graph_summary] gives to a name is
    the source of one of the unified entities. *)
Lemma entity_to_model_source l (m0 : gmap string string) n v :
  foldl (fun acc e =>
           <[get_str (ent_name (ue_entity e)) := ue_source_model e]> acc)
        m0 l !! n = Some v ->
  m0 !! n = Some v \/ exists e, e ∈ l /\ ue_source_model e = v.
Proof.
  revert m0. induction l as [|e l IH]; intros m0; simpl; [auto|].
  intros H. apply IH in H as [H|(e' & He' & Hv)].
  - destruct (decide (get_str (ent_name (ue_entity e)) = n)) as [<-|Hne].
    + rewrite lookup_insert_eq in H. injection H as <-.
      right. exists e. split; [by left|done].
    + rewrite lookup_insert_ne in H by done. auto.
  - right. exists e'. split; [by right|done].
Qed.

Lemma cross_rel_of_inv etm rel cr :
  cross_rel_of etm rel = Some cr ->
  let r := ur_relationship rel in
  etm !! Py.split_head "."%char (cr_from cr) = Some (cr_from_model cr)
  /\ etm !! Py.split_head "."%char (cr_to cr) = Some (cr_to_model cr)
  /\ cr_from_model cr <> "" /\ cr_to_model cr <> ""
  /\ cr_from_model cr <> cr_to_model cr
  /\ cr_name cr = get_str (rel_name r) /\ cr_from cr = get_str (rel_from r)
  /\ cr_to cr = get_str (rel_to r)
  /\ cr_cardinality cr = get_str (rel_cardinality r).
Proof.
  unfold cross_rel_of.
  destruct (etm !! Py.split_head "." (get_str (rel_from (ur_relationship rel))))
    as [fm|] eqn:Hf; simpl;
    [|by intros ?].
  destruct (etm !! Py.split_head "." (get_str (rel_to (ur_relationship rel))))
    as [tm|] eqn:Ht; simpl;
    [|by rewrite andb_false_r; intros ?].
  destruct (Py.truthy fm) eqn:Hfm; simpl; [|by intros ?].
  destruct (Py.truthy tm) eqn:Htm; simpl; [|by intros ?].
  case_bool_decide as Hne; [|by intros ?].
  intros [= <-]. simpl. split_and!; try done.
  - by destruct fm.
  - by destruct tm.
Qed.

Lemma omap_all_None {A B} (f : A -> option B) l :
  (forall x, f x = None) -> omap f l = [].
Proof. intros Hf. induction l as [|x l IH]; simpl; [done|]. by rewrite Hf. Qed.

(** With a single owner for every name, no relationship is
    cross-model. *)
Lemma cross_rel_of_single_owner (etm : gmap string string) owner rel :
  (forall n v, etm !! n = Some v -> v = owner) ->
  cross_rel_of etm rel = None.
Proof.
  intros Hown. destruct (cross_rel_of etm rel) as [cr|] eqn:E; [|done].
  apply cross_rel_of_inv in E as (Hf & Ht & _ & _ & Hne & _).
  apply Hown in Hf, Ht. congruence.
Qed.

(** The source of a unified entity is the name of a model of the
    summary, when the root declares its name. *)
Lemma unified_source_named self name e :
  meta_name (default empty_meta (m_model (root_model self))) = Some name ->
  e ∈ unified_entities self ->
  ue_source_model e ∈ map ms_name (gs_models (to_graph_summary self)).
Proof.
  intros Hname He. unfold to_graph_summary. cbn [gs_models].
  unfold unified_entities in He. apply elem_of_app in He as [He|He].
  - apply list_elem_of_fmap in He as (e0 & -> & _). cbn [ue_source_model].
    cbn [app map]. unfold declared_name. rewrite Hname. by left.
  - rewrite map_app. apply elem_of_app. right.
    apply list_elem_of_In, in_concat in He as (l & Hl & He).
    apply list_elem_of_In, list_elem_of_fmap in Hl as ([alias model] & -> & Hm).
    apply list_elem_of_In, list_elem_of_fmap in He as (e0 & -> & _).
    cbn [ue_source_model]. rewrite map_map.
    apply list_elem_of_fmap. by exists (alias, model).
Qed.

(** The imported models feed a view through a projection [g] only;
    storing a model with the same projection under the alias gives the
    same view. *)
Lemma imported_view {W B} (g : string -> Model -> W)
    (f : string * Model -> list B) (f' : string * W -> list B)
    alias m m' (d : Py.dict Model) :
  (forall kv, f kv = f' (kv.1, g kv.1 kv.2)) ->
  g alias m = g alias m' ->
  concat (map f (Py.sorted_items (Py.dict_set alias m d)))
  = concat (map f (Py.sorted_items (Py.dict_set alias m' d))).
Proof.
  intros Hf Hg.
  rewrite !(map_ext _ _ Hf).
  rewrite <- !(map_map (fun kv => (kv.1, g kv.1 kv.2)) f').
  by rewrite (sorted_items_set_project g alias m m' d Hg).
Qed.

(** What [apply_entity_filter] stores under the alias is the model it
    is given, but for its entities. *)
Lemma apply_entity_filter_stores alias name ef md st :
  exists es,
    let st' := apply_entity_filter alias name ef md st in
    root_model (result st') = root_model (result st)
    /\ imported_models (result st')
       = Py.dict_set alias (mkModel (m_model md) es (m_relationships md)
                              (m_indexes md) (m_rules md) (m_governance md)
                              (m_glossary md) (m_display md) (m_extra md))
           (imported_models (result st)).
Proof.
  destruct ef as [[|r fl]|].
  - exists (m_entities md). by destruct md.
  - eexists. rewrite FilterFacts.apply_entity_filter_nonempty. cbv zeta.
    cbn [result root_model imported_models]. split; [done|]. reflexivity.
  - exists (m_entities md). by destruct md.
Qed.

End ViewFacts.

(** X5: The counts of a graph summary agree with the result they are
    taken from: one model for the root and one per import alias, the
    total of the entities is the number of unified entities, every
    model's count is the number of names it lists, and the names the
    models list are, in order, the names of the unified entities. *)
Theorem to_graph_summary_counts self :
  let s := to_graph_summary self in
  gs_model_count s = S (length (imported_models self))
  /\ length (gs_models s) = gs_model_count s
  /\ gs_total_entities s = length (unified_entities self)
  /\ Forall (fun ms => ms_entity_count ms = length (ms_entities ms)) (gs_models s)
  /\ concat (map ms_entities (gs_models s))
     = map (fun e => get_str (ent_name (ue_entity e))) (unified_entities self)
  /\ gs_issues s = issues self.
Proof.
  unfold to_graph_summary, unified_entities. cbn [gs_model_count gs_models
    gs_total_entities gs_issues].
  split_and!; try done.
  - cbn [app length]. by rewrite length_map, ViewFacts.sorted_items_length.
  - cbn [app map foldr ms_entity_count].
    rewrite length_app, length_map, ViewFacts.length_concat_map. f_equal.
    rewrite !map_map. f_equal. apply map_ext. intros [alias model].
    cbn [ms_entity_count]. by rewrite length_map.
  - apply Forall_cons. split; [simpl; by rewrite length_map|].
    apply Forall_forall. intros ms Hms.
    apply list_elem_of_fmap in Hms as ([alias model] & -> & _). simpl.
    by rewrite length_map.
  - cbn [app map concat ms_entities]. rewrite map_app, !map_map. f_equal.
    induction (Py.sorted_items (imported_models self)) as [|[alias model] l IH];
      [done|].
    cbn [map concat ms_entities]. rewrite map_app, map_map. by f_equal.
Qed.

(** X6: Every entry of [cross_model_relationships] comes from a unified
    relationship, of which it keeps the name, the two ends and the
    cardinality; its two models are the owners that the name index
    gives to the entities in front of the first dot of the two ends;
    both are non-empty and they differ. *)
Theorem cross_model_relationship_ends self cr :
  cr ∈ gs_cross_model_relationships (to_graph_summary self) ->
  let owner := entity_to_model_of (unified_entities self) in
  (exists rel,
     rel ∈ unified_relationships self
     /\ cr_name cr = get_str (rel_name (ur_relationship rel))
     /\ cr_from cr = get_str (rel_from (ur_relationship rel))
     /\ cr_to cr = get_str (rel_to (ur_relationship rel))
     /\ cr_cardinality cr = get_str (rel_cardinality (ur_relationship rel)))
  /\ owner !! Py.split_head "."%char (cr_from cr) = Some (cr_from_model cr)
  /\ owner !! Py.split_head "."%char (cr_to cr) = Some (cr_to_model cr)
  /\ cr_from_model cr <> "" /\ cr_to_model cr <> ""
  /\ cr_from_model cr <> cr_to_model cr.
Proof.
  unfold to_graph_summary. cbn [gs_cross_model_relationships].
  intros Hcr. apply list_elem_of_omap in Hcr as (rel & Hrel & Hcr).
  apply ViewFacts.cross_rel_of_inv in Hcr
    as (Hf & Ht & Hfm & Htm & Hne & Hn & Hfr & Hto & Hc).
  split_and!; try done. by exists rel.
Qed.

Lemma cross_model_relationship_ends_witness :
  let cr := mkCrossRel "order_customer" "orders" "shared_dimensions"
              "Order.customer_id" "Customer.customer_id" "many_to_one" in
  cr ∈ gs_cross_model_relationships (to_graph_summary Scenario.resolved)
  /\ entity_to_model_of (unified_entities Scenario.resolved) !! "Order"
     = Some "orders"
  /\ cr_from_model cr <> cr_to_model cr.
Proof.
  assert (mkCrossRel "order_customer" "orders" "shared_dimensions"
            "Order.customer_id" "Customer.customer_id" "many_to_one"
          ∈ gs_cross_model_relationships (to_graph_summary Scenario.resolved))
    as Hin by (vm_compute; by left).
  split; [exact Hin|].
  destruct (cross_model_relationship_ends Scenario.resolved _ Hin)
    as (_ & Hf & _ & _ & _ & Hne).
  split; [exact Hf|exact Hne].
Defined.

(** X7: When the root declares its name, the two models of every entry of
    [cross_model_relationships] are names of models that the summary
    lists. *)
Theorem cross_model_relationship_models self name cr :
  meta_name (default empty_meta (m_model (root_model self))) = Some name ->
  cr ∈ gs_cross_model_relationships (to_graph_summary self) ->
  let names := map ms_name (gs_models (to_graph_summary self)) in
  cr_from_model cr ∈ names /\ cr_to_model cr ∈ names.
Proof.
  intros Hname Hcr. cbv zeta.
  unfold to_graph_summary in Hcr. cbn [gs_cross_model_relationships] in Hcr.
  apply list_elem_of_omap in Hcr as (rel & _ & Hcr).
  apply ViewFacts.cross_rel_of_inv in Hcr as (Hf & Ht & _).
  unfold entity_to_model_of in Hf, Ht.
  apply ViewFacts.entity_to_model_source in Hf as [Hf|(e & He & <-)];
    [by rewrite lookup_empty in Hf|].
  apply ViewFacts.entity_to_model_source in Ht as [Ht|(e' & He' & <-)];
    [by rewrite lookup_empty in Ht|].
  split; by eapply ViewFacts.unified_source_named.
Qed.

Lemma cross_model_relationship_models_witness :
  let cr := mkCrossRel "order_customer" "orders" "shared_dimensions"
              "Order.customer_id" "Customer.customer_id" "many_to_one" in
  let names := map ms_name (gs_models (to_graph_summary Scenario.resolved)) in
  cr_from_model cr ∈ names /\ cr_to_model cr ∈ names.
Proof.
  apply (cross_model_relationship_models Scenario.resolved "orders").
  - reflexivity.
  - vm_compute. by left.
Defined.

(** X8: A root document that loads and has no import resolves without any
    check: the result holds the root, the file of the root under its
    name, no imported model, no import graph and no issue; its summary
    counts one model with the entities of the root and has no
    cross-model relationship. *)
Theorem resolve_model_without_imports fs root_path search_dirs root :
  load_yaml_model fs (fs_resolve fs root_path) = inl root ->
  declared_imports root = [] ->
  let r := resolve_model fs root_path search_dirs in
  let s := to_graph_summary r in
  r = mkResolved root [] ∅
        {[declared_name "unknown" root := fs_resolve fs root_path]} []
  /\ gs_model_count s = 1
  /\ gs_total_entities s = length (default [] (m_entities root))
  /\ gs_cross_model_relationships s = [].
Proof.
  intros Hroot Himports. cbv zeta.
  assert (resolve_model fs root_path search_dirs
          = mkResolved root [] ∅
              {[declared_name "unknown" root := fs_resolve fs root_path]} [])
    as ->.
  { unfold resolve_model, resolve_model_walk. rewrite Hroot, Himports.
    cbn [result ResolvedModel_init imported_models import_graph file_map issues].
    by rewrite insert_empty. }
  split; [done|].
  unfold to_graph_summary.
  cbn [gs_model_count gs_total_entities gs_cross_model_relationships
       root_model imported_models].
  split_and!.
  - done.
  - simpl. lia.
  - apply ViewFacts.omap_all_None. intros rel.
    apply (ViewFacts.cross_rel_of_single_owner _ (declared_name "root" root)).
    intros n v Hv. unfold entity_to_model_of in Hv.
    apply ViewFacts.entity_to_model_source in Hv as [Hv|(e & He & <-)];
      [by rewrite lookup_empty in Hv|].
    unfold unified_entities in He. cbn [root_model imported_models] in He.
    apply elem_of_app in He as [He|He].
    + by apply list_elem_of_fmap in He as (e0 & -> & _).
    + by apply elem_of_nil in He.
Qed.

Lemma resolve_model_without_imports_witness :
  resolve_model Scenario.project Scenario.shared_file []
  = mkResolved Scenario.shared_dimensions [] ∅
      {["shared_dimensions" := Scenario.shared_file]} [].
Proof.
  apply (resolve_model_without_imports Scenario.project Scenario.shared_file []
           Scenario.shared_dimensions); reflexivity.
Defined.

(** X9: [all_model_names] never lists an empty name: it is the declared
    name of the root, if there is one, followed by the aliases of the
    imports, the empty alias left out, in the order in which the summary
    lists the imported models. *)
Theorem all_model_names_aliases self :
  Forall (fun n => n <> "") (all_model_names self)
  /\ all_model_names self
     = List.filter Py.truthy
         (declared_name "" (root_model self)
          :: omap ms_alias (gs_models (to_graph_summary self))).
Proof.
  split.
  - apply Forall_forall. intros n Hn. unfold all_model_names in Hn.
    apply list_elem_of_In, filter_In in Hn as [_ Hn]. by destruct n.
  - unfold all_model_names, to_graph_summary. cbn [gs_models app].
    rewrite <- ViewFacts.sorted_items_keys. do 2 f_equal.
    induction (Py.sorted_items (imported_models self)) as [|[alias model] l IH];
      [done|].
    simpl. simpl in IH. by rewrite <- IH.
Qed.

(** X10: The entity filter of an import reaches the entities only: the
    unified relationships and the unified indexes of the result are
    what they are without the filter, so relationships and indexes of
    entities that the filter leaves out stay in these views. *)
Theorem entity_filter_keeps_relationships alias name entity_filter md st :
  let filtered := result (apply_entity_filter alias name entity_filter md st) in
  let whole := result (apply_entity_filter alias name None md st) in
  unified_relationships filtered = unified_relationships whole
  /\ unified_indexes filtered = unified_indexes whole.
Proof.
  cbv zeta.
  destruct (ViewFacts.apply_entity_filter_stores alias name entity_filter md st)
    as (es & Hr & Hi).
  destruct (ViewFacts.apply_entity_filter_stores alias name None md st)
    as (es' & Hr' & Hi').
  cbv zeta in Hr, Hi, Hr', Hi'.
  unfold unified_relationships, unified_indexes.
  rewrite Hr, Hi, Hr', Hi'. split; f_equal.
  - apply (ViewFacts.imported_view
             (fun a m => (declared_name a m, default [] (m_relationships m)))
             _ (fun kw => map (fun rel => mkUnifiedRelationship rel kw.2.1)
                              kw.2.2));
      [by intros []|done].
  - apply (ViewFacts.imported_view
             (fun a m => (declared_name a m, default [] (m_indexes m)))
             _ (fun kw => map (fun idx => mkUnifiedIndex idx kw.2.1) kw.2.2));
      [by intros []|done].
Qed.

(** * The two checks of [resolve_model] *)

Module DuplicateFacts.

Lemma named_cons e es :
  named_entities (with_entities empty_model (e :: es))
  = (if Py.truthy (get_str (ent_name e)) then [get_str (ent_name e)] else [])
    ++ named_entities (with_entities empty_model es).
Proof.
  unfold named_entities, entity_names. simpl.
  by destruct (Py.truthy (get_str (ent_name e))).
Qed.

Lemma named_of_entities m :
  named_entities m
  = named_entities (with_entities empty_model (default [] (m_entities m))).
Proof. reflexivity. Qed.

(** The inner loop: the names not yet seen are recorded, every other
    one is reported, and nothing is reported exactly when the names are
    new and distinct. *)
Lemma check_in_spec alias mn es seen out :
  exists dups,
    let acc := foldl (check_duplicates_in alias mn) (seen, out) es in
    let names := named_entities (with_entities empty_model es) in
    acc.2 = out ++ dups
    /\ Forall is_duplicate_warning dups
    /\ dom acc.1 = dom seen ∪ list_to_set names
    /\ (dups = [] <-> NoDup names /\ forall n, n ∈ names -> n ∉ dom seen).
Proof.
  revert seen out. induction es as [|e es IH]; intros seen out.
  - exists []. simpl. split_and!; [by rewrite app_nil_r|done|set_solver|].
    split; [|done]. intros _. split; [constructor|]. intros n Hn.
    by apply elem_of_nil in Hn.
  - cbn [foldl]. rewrite named_cons.
    destruct (check_duplicates_in alias mn (seen, out) e) as [seen1 out1] eqn:E.
    destruct (IH seen1 out1) as (dups & Hout & Hd & Hdom & Hiff).
    cbv zeta in *. unfold check_duplicates_in in E.
    destruct (Py.truthy (get_str (ent_name e))) eqn:Hn; cbn [andb] in E.
    + case_bool_decide as Hseen; injection E as <- <-.
      * eexists (_ :: dups). split_and!.
        -- rewrite Hout, <- app_assoc. reflexivity.
        -- constructor; [done|exact Hd].
        -- rewrite Hdom. set_solver.
        -- split; [done|]. intros [_ Hnew]. exfalso.
           apply (Hnew (get_str (ent_name e))); [by left|done].
      * exists dups. split_and!; [done|done|..].
        -- rewrite Hdom, dom_insert_L. set_solver.
        -- rewrite Hiff. cbn [app]. rewrite NoDup_cons, dom_insert_L.
           split.
           ++ intros [Hnd Hnew]. split; [split; [|done]|].
              ** intros Hin. apply (Hnew _ Hin). set_solver.
              ** intros n Hin. apply elem_of_cons in Hin as [->|Hin]; [done|].
                 specialize (Hnew n Hin). set_solver.
           ++ intros [[Hfresh Hnd] Hnew]. split; [done|].
              intros n Hin Hn'. apply elem_of_union in Hn' as [Hn'|Hn'].
              ** apply elem_of_singleton in Hn' as ->. done.
              ** apply (Hnew n); [by right|done].
    + injection E as <- <-. by exists dups.
Qed.

Lemma seen_root_dom root_name root :
  dom (seen_root_entities root_name root)
  = list_to_set (named_entities root).
Proof.
  unfold seen_root_entities. rewrite named_of_entities.
  assert (forall es (seen : gmap string string),
            dom (foldl (fun seen entity =>
                          let ename := get_str (ent_name entity) in
                          if Py.truthy ename then <[ename := root_name]> seen
                          else seen) seen es)
            = dom seen ∪ list_to_set
                           (named_entities (with_entities empty_model es)))
    as H.
  { induction es as [|e es IH]; intros seen; [set_solver|].
    cbn [foldl]. rewrite IH, named_cons. cbv zeta.
    destruct (Py.truthy _); [rewrite dom_insert_L|]; set_solver. }
  rewrite H. set_solver.
Qed.

(** The outer loop, over the imported models in the order of their
    registration. *)
Lemma check_models_spec models seen out :
  exists dups,
    let acc :=
      foldl (fun acc '(alias, model) =>
               foldl (check_duplicates_in alias (declared_name alias model))
                     acc (default [] (m_entities model)))
            (seen, out) models in
    let names := flat_map (fun am => named_entities am.2) models in
    acc.2 = out ++ dups
    /\ Forall is_duplicate_warning dups
    /\ (dups = [] <-> NoDup names /\ forall n, n ∈ names -> n ∉ dom seen).
Proof.
  revert seen out. induction models as [|[alias m] models IH]; intros seen out.
  - exists []. simpl. split_and!; [by rewrite app_nil_r|done|].
    split; [|done]. intros _. split; [constructor|]. intros n Hn.
    by apply elem_of_nil in Hn.
  - cbn [foldl flat_map snd].
    destruct (check_in_spec alias (declared_name alias m)
                (default [] (m_entities m)) seen out)
      as (d1 & Hout1 & Hd1 & Hdom1 & Hiff1).
    cbv zeta in Hout1, Hdom1, Hiff1. rewrite <- named_of_entities in Hdom1, Hiff1.
    destruct (foldl (check_duplicates_in alias (declared_name alias m))
                (seen, out) (default [] (m_entities m))) as [seen1 out1].
    cbn [fst snd] in Hout1, Hdom1. subst out1.
    destruct (IH seen1 (out ++ d1)) as (d2 & Hout2 & Hd2 & Hiff2).
    cbv zeta in *. exists (d1 ++ d2). split_and!.
    + by rewrite Hout2, app_assoc.
    + by apply Forall_app.
    + rewrite NoDup_app. split.
      * intros Hnil. apply app_eq_nil in Hnil as [H1 H2].
        apply Hiff1 in H1 as [Hnd1 Hnew1]. apply Hiff2 in H2 as [Hnd2 Hnew2].
        rewrite Hdom1 in Hnew2. split; [split_and!; [done| |done]|].
        -- intros n Hn1 Hn2. apply (Hnew2 n Hn2). set_solver.
        -- intros n Hn. apply elem_of_app in Hn as [Hn|Hn]; [by apply Hnew1|].
           specialize (Hnew2 n Hn). set_solver.
      * intros [(Hnd1 & Hdisj & Hnd2) Hnew].
        assert (d1 = []) as ->.
        { apply Hiff1. split; [done|]. intros n Hn. apply Hnew.
          apply elem_of_app. by left. }
        assert (d2 = []) as ->; [|done].
        apply Hiff2. split; [done|]. intros n Hn. rewrite Hdom1.
        intros Hn'. apply elem_of_union in Hn' as [Hn'|Hn'].
        -- apply (Hnew n); [|done]. apply elem_of_app. by right.
        -- apply elem_of_list_to_set in Hn'. by apply (Hdisj n).
Qed.

End DuplicateFacts.

(** X11: The check for duplicate entity names only adds warnings with the
    code [DUPLICATE_CROSS_MODEL_ENTITY] to the issues, and it adds none
    exactly when the non-empty entity names of the imported models are
    pairwise distinct, within each model and across models, and none of
    them is a name of the root.  A name that the root itself declares
    twice is not reported. *)
Theorem check_duplicates_silent root_name r :
  let imported := flat_map (fun am => named_entities am.2) (imported_models r) in
  (exists dups,
     (check_duplicates root_name r).2 = issues r ++ dups
     /\ Forall is_duplicate_warning dups)
  /\ ((check_duplicates root_name r).2 = issues r
      <-> NoDup imported
          /\ forall n, n ∈ imported -> n ∉ named_entities (root_model r)).
Proof.
  cbv zeta. unfold check_duplicates.
  destruct (DuplicateFacts.check_models_spec (imported_models r)
              (seen_root_entities root_name (root_model r)) (issues r))
    as (dups & Hout & Hd & Hiff).
  cbv zeta in Hout, Hiff. rewrite DuplicateFacts.seen_root_dom in Hiff.
  split; [by exists dups|].
  rewrite Hout. split.
  - intros H. rewrite <- (app_nil_r (issues r)) in H at 2.
    apply app_inv_head, Hiff in H as [Hnd Hnew]. split; [done|].
    intros n Hn Hn'. apply (Hnew n Hn). by apply elem_of_list_to_set.
  - intros [Hnd Hnew]. assert (dups = []) as ->; [|by rewrite app_nil_r].
    apply Hiff. split; [done|]. intros n Hn.
    rewrite elem_of_list_to_set. by apply Hnew.
Qed.

Module CycleSound.
Import ImportGraph CycleFacts.

Section Graph.
Context (g : gmap string (list string)).

Local Abbreviation edge := (ImportGraph.edge g).
Local Abbreviation cyclic := (cycle_from g).
Local Abbreviation sound := (detect_sound g).

Lemma edge_deps n d : edge n d <-> d ∈ default [] (g !! n).
Proof.
  split; [|apply deps_edge]. by intros (deps & -> & Hd).
Qed.

Lemma cyclic_step n d : edge n d -> cyclic d -> cyclic n.
Proof.
  intros Hnd (c & Hdc & Hc). exists c. split; [|done]. by eapply rtc_l.
Qed.

(** A name whose imports reach no cycle reaches none. *)
Lemma acyclic_node n : (forall d, edge n d -> ~ cyclic d) -> ~ cyclic n.
Proof.
  intros Hdeps (c & Hnc & Hc).
  apply rtc_inv in Hnc as [<-|(d & Hnd & Hdc)].
  - inversion Hc as [? ? Hnd|? d ? Hnd Hdn]; subst.
    + apply (Hdeps n Hnd). exists n. split; [done|]. by apply tc_once.
    + apply (Hdeps d Hnd). exists n. split; [by apply tc_rtc|done].
  - apply (Hdeps d Hnd). by exists c.
Qed.

Lemma detect_loop_sound fuel n deps vg vd b vg' vd' :
  sound fuel ->
  detect_loop (_detect_cycle fuel g) n deps vg vd = Some (b, vg', vd') ->
  (forall v, v ∈ vg -> v = n \/ tc edge v n) ->
  (forall d, d ∈ deps -> edge n d) ->
  (forall d, edge n d -> d ∈ deps \/ ~ cyclic d) ->
  (forall v, v ∈ vd -> ~ cyclic v) ->
  if b then cyclic n
  else vg' = vg ∖ {[n]} /\ n ∈ vd' /\ forall v, v ∈ vd' -> ~ cyclic v.
Proof.
  intros Hrec. revert vg vd.
  induction deps as [|d deps IH]; intros vg vd Hloop Hpath Hin Hall Hvd.
  - simpl in Hloop. injection Hloop as <- <- <-. split_and!; [done|set_solver|].
    intros v Hv. apply elem_of_union in Hv as [Hv|Hv]; [|by apply Hvd].
    apply elem_of_singleton in Hv as ->. apply acyclic_node.
    intros d Hd. destruct (Hall d Hd) as [Hd'|Hd']; [|done].
    by apply elem_of_nil in Hd'.
  - cbn [detect_loop] in Hloop.
    destruct (_detect_cycle fuel g d vg vd) as [[[r vg1] vd1]|] eqn:Hcall;
      [|done].
    assert (Hd : edge n d) by (apply Hin; by left).
    specialize (Hrec d vg vd r vg1 vd1 Hcall).
    destruct r.
    + injection Hloop as <- <- <-. apply (cyclic_step n d Hd), Hrec; [|done].
      intros v Hv. destruct (Hpath v Hv) as [->|Hvn]; [by apply tc_once|].
      by eapply tc_r.
    + destruct Hrec as (-> & Hdvd & Hvd1); [|done|].
      { intros v Hv. destruct (Hpath v Hv) as [->|Hvn]; [by apply tc_once|].
        by eapply tc_r. }
      apply (IH vg vd1); try done.
      * intros d' Hd'. apply Hin. by right.
      * intros d' Hd'. destruct (Hall d' Hd') as [Hd''|Hd'']; [|by right].
        apply elem_of_cons in Hd'' as [->|Hd'']; [|by left].
        right. by apply Hvd1.
Qed.

Lemma sound_all fuel : sound fuel.
Proof.
  induction fuel as [|fuel IH]; intros n vg vd b vg' vd' Hcall Hpath Hvd;
    [done|].
  rewrite _detect_cycle_step in Hcall. case_bool_decide as Hvg.
  { injection Hcall as <- <- <-. exists n. split; [done|]. by apply Hpath. }
  case_bool_decide as Hn.
  { by injection Hcall as <- <- <-. }
  pose proof (detect_loop_sound fuel n (default [] (g !! n)) ({[n]} ∪ vg) vd
                b vg' vd' IH Hcall) as H.
  destruct b.
  - apply H; try done.
    + intros v Hv. apply elem_of_union in Hv as [Hv|Hv]; [|right; by apply Hpath].
      left. by apply elem_of_singleton in Hv.
    + intros d. apply edge_deps.
    + intros d Hd. left. by apply edge_deps.
  - destruct H as (-> & Hin & Hvd'); try done.
    + intros v Hv. apply elem_of_union in Hv as [Hv|Hv]; [|right; by apply Hpath].
      left. by apply elem_of_singleton in Hv.
    + intros d. apply edge_deps.
    + intros d Hd. left. by apply edge_deps.
    + split; [set_solver|done].
Qed.

(** A name that the graph does not mention gets the answer [False]. *)
Lemma _detect_cycle_stranger fuel n :
  n ∉ graph_nodes g ->
  _detect_cycle (S fuel) g n ∅ ∅ = Some (false, ({[n]} ∪ ∅) ∖ {[n]}, {[n]} ∪ ∅).
Proof.
  intros Hn. rewrite _detect_cycle_step.
  rewrite !bool_decide_eq_false_2 by set_solver.
  assert (g !! n = None) as ->; [|done].
  apply not_elem_of_dom. intros Hd. apply Hn. unfold graph_nodes. set_solver.
Qed.

End Graph.

Lemma _detect_cycle_spec g n :
  exists b visiting visited,
    _detect_cycle (cycle_fuel g) g n ∅ ∅ = Some (b, visiting, visited)
    /\ (b = true <-> cycle_from g n).
Proof.
  assert (exists b vg vd,
            _detect_cycle (cycle_fuel g) g n ∅ ∅ = Some (b, vg, vd))
    as (b & vg & vd & Hcall).
  { destruct (decide (n ∈ graph_nodes g)) as [Hn|Hn].
    - by apply CycleFacts._detect_cycle_total.
    - unfold cycle_fuel. rewrite (_detect_cycle_stranger g _ n Hn). eauto. }
  exists b, vg, vd. split; [done|].
  pose proof (sound_all g _ n ∅ ∅ b vg vd Hcall) as H.
  destruct b.
  - split; [intros _|done]. apply H; set_solver.
  - split; [done|]. intros Hc. destruct H as (_ & Hn & Hvd); [set_solver..|].
    by destruct (Hvd n Hn).
Qed.

Lemma no_cycle_in_empty n : ~ cycle_from ∅ n.
Proof.
  intros (c & _ & Hc). inversion Hc as [? ? (deps & Hd & _)|? ? ? (deps & Hd & _)];
    by rewrite lookup_empty in Hd.
Qed.

End CycleSound.

(** X12: [_detect_cycle], started on a name with both sets empty as
    [resolve_model] starts it, answers, and it answers [True] exactly
    when a cycle of the import graph can be reached from that name. *)
Theorem _detect_cycle_finds_cycles g n :
  exists b visiting visited,
    _detect_cycle (cycle_fuel g) g n ∅ ∅ = Some (b, visiting, visited)
    /\ (b = true <-> cycle_from g n).
Proof. apply CycleSound._detect_cycle_spec. Qed.

(** X13: When the root loads, [resolve_model] reports [CIRCULAR_IMPORT]
    exactly when a cycle of the import graph that it has recorded can
    be reached from the name of the root. *)
Theorem resolve_model_circular fs root_path search_dirs root :
  load_yaml_model fs (fs_resolve fs root_path) = inl root ->
  let r := resolve_model fs root_path search_dirs in
  count_code "CIRCULAR_IMPORT" (issues r) = 1
  <-> cycle_from (import_graph r) (declared_name "unknown" root).
Proof.
  intros Hroot. cbv zeta. unfold resolve_model.
  destruct (declared_imports root) as [|imp imps] eqn:Ei.
  { unfold resolve_model_walk. rewrite Hroot, Ei. simpl. split; [done|].
    intros H. by apply CycleSound.no_cycle_in_empty in H. }
  rewrite (ResolverFacts.resolve_model_walk_imports _ _ _ _ Hroot)
    by (by rewrite Ei).
  cbv zeta. cbn [result issues import_graph].
  rewrite WalkFacts.check_duplicates_count.
  set (st := _resolve_imports_recursive _ _ _ _ _ _ _ _).
  assert (ImportGraph.no_circular (issues (result st))) as Hst.
  { apply (proj2 (WalkFacts.grows_resolve_imports fs 11 10 _ _ _ _ _)).
    constructor. }
  destruct (CycleSound._detect_cycle_spec (import_graph (result st))
              (declared_name "unknown" root))
    as (b & vg & vd & -> & Hb).
  destruct b.
  - simpl. rewrite WalkFacts.count_code_app,
      (WalkFacts.count_no_circular _ Hst). split; [intros _|done].
    by apply Hb.
  - rewrite (WalkFacts.count_no_circular _ Hst). split; [done|].
    intros Hc. by apply Hb in Hc.
Qed.

Lemma resolve_model_circular_witness :
  count_code "CIRCULAR_IMPORT"
    (issues (resolve_model Examples.mutual Examples.file_a [])) = 1
  <-> cycle_from (import_graph (resolve_model Examples.mutual Examples.file_a []))
        "a".
Proof.
  apply (resolve_model_circular Examples.mutual Examples.file_a []
           Examples.model_a).
  reflexivity.
Defined.

(** X14: When the root loads, every import of the root that names a model
    is recorded in the import graph as an import of the root, whether
    or not its file is found and loads. *)
Theorem root_imports_recorded fs root_path search_dirs root imp :
  load_yaml_model fs (fs_resolve fs root_path) = inl root ->
  imp ∈ declared_imports root ->
  Py.truthy (get_str (imp_model imp)) = true ->
  ImportGraph.edge (import_graph (resolve_model fs root_path search_dirs))
    (declared_name "unknown" root) (get_str (imp_model imp)).
Proof.
  intros Hroot Hin Hname. unfold resolve_model.
  rewrite (ResolverFacts.resolve_model_walk_imports _ _ _ _ Hroot)
    by (intros E; rewrite E in Hin; by apply elem_of_nil in Hin).
  cbv zeta. cbn [result import_graph].
  set (st := _resolve_imports_recursive _ _ _ _ _ _ _ _).
  assert (ImportGraph.edge (ImportGraph.graph st)
            (declared_name "unknown" root) (get_str (imp_model imp))) as He.
  { subst st.
    change (_resolve_imports_recursive fs 11 10 ?d ?n ?i ?r ?s)
      with (foldl (resolve_import fs (_resolve_imports_recursive fs 10 10 d)
                     n r d) s i).
    apply WalkFacts.foldl_records; [|done..].
    apply WalkFacts.grows_resolve_imports. }
  by destruct (_detect_cycle _ _ _ _ _) as [[[[] ?] ?]|].
Qed.

Lemma root_imports_recorded_witness :
  ImportGraph.edge
    (import_graph
       (resolve_model Scenario.project Scenario.orders_file Scenario.search_dirs))
    "orders" "shared_dimensions".
Proof.
  apply (root_imports_recorded Scenario.project Scenario.orders_file
           Scenario.search_dirs Scenario.orders
           (mkImport (Some "shared_dimensions") (Some "shared") None
              (Some ["Customer"]))).
  - reflexivity.
  - by left.
  - reflexivity.
Defined.

(** * What the walk over the imports keeps *)

Module InvariantFacts.

Lemma kept_refl st : kept st st.
Proof. by split. Qed.

Lemma kept_trans st1 st2 st3 : kept st1 st2 -> kept st2 st3 -> kept st1 st3.
Proof. intros [F1 L1] [F2 L2]. split; [set_solver|auto]. Qed.

Lemma kept_add_issue i st : kept st (add_issue i st).
Proof. by split. Qed.

Lemma kept_track a b st : kept st (track_import a b st).
Proof. by split. Qed.

Lemma kept_read p st : kept st (read_file p st).
Proof. by split. Qed.

Lemma kept_set_imported alias m st : kept st (set_imported alias m st).
Proof. by split. Qed.

Lemma kept_remember name m p st :
  loaded_models st !! name = None -> kept st (remember name m p st).
Proof.
  intros Hnone. split; simpl.
  - apply dom_insert_subseteq.
  - intros k v Hk. rewrite lookup_insert_ne; [done|]. congruence.
Qed.

Lemma has_file_kept name st st' : kept st st' -> has_file name st -> has_file name st'.
Proof. intros [Hf _]. unfold has_file. set_solver. Qed.

Section Invariant.
Context (fs : FileSystem) (I : Walk -> Prop) (HI : walk_invariant fs I).

Lemma entity_not_found_issue alias name requested :
  import_issue (entity_not_found alias name requested).
Proof. split; [done|]. left. split; [done|]. auto. Qed.

(** The loop that reports the requested names that are missing. *)
Lemma report_missing_keeps alias name (available : gset string) fl st :
  I st ->
  let st' :=
    foldl (fun st requested =>
             if bool_decide (requested ∉ available)
             then add_issue (entity_not_found alias name requested) st
             else st) st fl in
  I st' /\ loaded_models st' = loaded_models st
  /\ file_map (result st') = file_map (result st).
Proof.
  revert st. induction fl as [|r fl IH]; intros st Hst; [done|].
  cbn [foldl]. case_bool_decide.
  - destruct (IH (add_issue (entity_not_found alias name r) st))
      as (H1 & H2 & H3); [|done].
    apply (inv_issue fs I HI); [apply entity_not_found_issue|done].
  - by apply IH.
Qed.

Lemma apply_entity_filter_keeps alias name ef md st :
  loaded_models st !! name = Some md -> I st ->
  I (apply_entity_filter alias name ef md st)
  /\ kept st (apply_entity_filter alias name ef md st).
Proof.
  intros Hmd Hst.
  assert (Hwhole : I (set_imported alias md st) /\ kept st (set_imported alias md st)).
  { split; [|apply kept_set_imported].
    apply (inv_imported fs I HI alias name md); [done|by left|done]. }
  destruct ef as [[|r fl]|]; try exact Hwhole.
  unfold apply_entity_filter.
  set (loop := foldl _ st (r :: fl)).
  destruct (report_missing_keeps alias name
              (list_to_set (entity_names md)) (r :: fl) st Hst)
    as (Hloop & Hl & Hf). fold loop in Hloop, Hl, Hf.
  split.
  - apply (inv_imported fs I HI alias name md); [by rewrite Hl| |done].
    right. eexists. split; [reflexivity|]. apply sublist_filter.
  - split; simpl; [by rewrite Hf|]. intros k v. by rewrite Hl.
Qed.

Lemma resolve_import_keeps rec mn dir dirs st imp :
  rec_keeps I rec -> has_file mn st -> I st ->
  I (resolve_import fs rec mn dir dirs st imp)
  /\ kept st (resolve_import fs rec mn dir dirs st imp).
Proof.
  intros Hrec Hmn Hst. unfold resolve_import.
  destruct (Py.truthy (get_str (imp_model imp))) eqn:Hname; cbn [negb].
  2:{ split; [|apply kept_add_issue]. apply (inv_issue fs I HI); [|done].
      split; [done|]. left. split; [done|]. auto. }
  set (name := get_str (imp_model imp)).
  set (st1 := track_import mn name st).
  assert (I st1) as Hst1 by (by apply (inv_track fs I HI)).
  assert (kept st st1) as Hk1 by apply kept_track.
  destruct (loaded_models st1 !! name) as [md|] eqn:Hcache.
  { destruct (apply_entity_filter_keeps (default name (imp_alias imp)) name
                (imp_entities imp) md st1 Hcache Hst1) as [H1 H2].
    split; [done|]. by eapply kept_trans. }
  destruct (_resolve_import_path fs imp dir dirs) as [p|].
  2:{ split; [|eapply kept_trans; [exact Hk1|apply kept_add_issue]].
      apply (inv_issue fs I HI); [|done].
      split; [done|]. left. split; [done|]. auto. }
  destruct (load_yaml_model fs p) as [m|exc] eqn:Hload.
  2:{ split; [by apply (inv_failed fs I HI)|].
      eapply kept_trans; [exact Hk1|].
      eapply kept_trans; [apply (kept_read p)|apply kept_add_issue]. }
  set (st2 := if _ : bool then _ else read_file p st1).
  assert (exists st1', st2 = read_file p st1' /\ I st1' /\ kept st1 st1'
                       /\ loaded_models st1' = loaded_models st1)
    as (st1' & -> & Hst1' & Hk1' & Hl1').
  { subst st2. destruct (_ && _).
    - eexists (add_issue _ st1). split; [reflexivity|].
      split_and!; [|apply kept_add_issue|done].
      apply (inv_issue fs I HI); [|done]. split; [done|]. by right.
    - exists st1. split_and!; done. }
  set (st3 := remember name m p (read_file p st1')).
  assert (loaded_models (read_file p st1') !! name = None) as Hnone
    by (simpl; by rewrite Hl1').
  assert (I st3) as Hst3.
  { apply (inv_loaded fs I HI); [by rewrite Hl1'|done|done]. }
  assert (kept st st3) as Hk3.
  { eapply kept_trans; [exact Hk1|]. eapply kept_trans; [exact Hk1'|].
    eapply kept_trans; [apply (kept_read p)|]. by apply kept_remember. }
  assert (loaded_models st3 !! name = Some m) as Hl3
    by (simpl; apply lookup_insert_eq).
  set (st4 := match declared_imports m with [] => st3 | _ :: _ => _ end).
  assert (I st4 /\ kept st3 st4) as [Hst4 Hk4].
  { subst st4. destruct (declared_imports m); [split; [done|apply kept_refl]|].
    apply Hrec; [|done]. unfold has_file. simpl. set_solver. }
  destruct (apply_entity_filter_keeps (default name (imp_alias imp)) name
              (imp_entities imp) m st4) as [H1 H2]; [by apply Hk4|done|].
  split; [done|]. eapply kept_trans; [exact Hk3|]. by eapply kept_trans.
Qed.

Lemma foldl_keeps rec mn dir dirs imports st :
  rec_keeps I rec -> has_file mn st -> I st ->
  I (foldl (resolve_import fs rec mn dir dirs) st imports)
  /\ kept st (foldl (resolve_import fs rec mn dir dirs) st imports).
Proof.
  intros Hrec. revert st.
  induction imports as [|imp imports IH]; intros st Hmn Hst.
  - split; [done|apply kept_refl].
  - cbn [foldl].
    destruct (resolve_import_keeps rec mn dir dirs st imp Hrec Hmn Hst)
      as [H1 Hk1].
    destruct (IH _ (has_file_kept _ _ _ Hk1 Hmn) H1) as [H2 Hk2].
    split; [done|by eapply kept_trans].
Qed.

Lemma resolve_imports_keeps gap max_depth dirs :
  rec_keeps I (_resolve_imports_recursive fs gap max_depth dirs).
Proof.
  induction gap as [|gap IH]; intros name imports dir st Hn Hst; simpl.
  - split; [|apply kept_add_issue]. apply (inv_issue fs I HI); [|done].
    split; [done|]. left. split; [done|]. auto.
  - by apply foldl_keeps.
Qed.

End Invariant.
End InvariantFacts.

Module ResultFacts.
Import InvariantFacts.

Lemma add_issues_closed st l :
  foldl (fun st i => add_issue i st) st l
  = let r := result st in
    mkWalk (mkResolved (root_model r) (imported_models r) (import_graph r)
                       (file_map r) (issues r ++ l))
           (loaded_models st) (file_reads st).
Proof.
  revert st. induction l as [|i l IH]; intros st.
  - simpl. rewrite app_nil_r. by destruct st as [[]].
  - cbn [foldl]. rewrite IH. simpl. by rewrite <- app_assoc.
Qed.

Lemma add_issues_keep (I : Walk -> Prop) (P : Issue -> Prop) st l :
  (forall i st, P i -> I st -> I (add_issue i st)) ->
  Forall P l -> I st -> I (foldl (fun st i => add_issue i st) st l).
Proof.
  intros Hstep Hl. revert st.
  induction Hl as [|i l Hi _ IH]; intros st Hst; [done|].
  cbn [foldl]. by apply IH, Hstep.
Qed.

(** A property of walks that survives every step of the walk over the
    imports and the issues of the two checks holds of the walk that
    [resolve_model] leaves behind, if it holds of the walks it starts
    from. *)
Lemma resolve_model_walk_keeps fs (I : Walk -> Prop) root_path search_dirs :
  walk_invariant fs I ->
  (forall i st, check_issue i -> I st -> I (add_issue i st)) ->
  (forall exc,
     load_yaml_model fs (fs_resolve fs root_path) = inr exc ->
     I (add_issue (mkIssue "error" "ROOT_LOAD_FAILED"
                     ("Failed to load root model: " ++ exc)%string "/")
          (mkWalk ResolvedModel_init ∅ [fs_resolve fs root_path]))) ->
  (forall root g,
     load_yaml_model fs (fs_resolve fs root_path) = inl root ->
     g = ∅ \/ g = {[declared_name "unknown" root := []]} ->
     I (mkWalk (mkResolved root [] g
                  {[declared_name "unknown" root := fs_resolve fs root_path]}
                  [])
               ∅ [fs_resolve fs root_path])) ->
  I (resolve_model_walk fs root_path search_dirs).
Proof.
  intros HI Hcheck Hfail Hroot.
  destruct (load_yaml_model fs (fs_resolve fs root_path)) as [root|exc] eqn:E.
  2:{ unfold resolve_model_walk. rewrite E. by apply Hfail. }
  destruct (declared_imports root) as [|imp imps] eqn:Ei.
  { unfold resolve_model_walk. rewrite E, Ei.
    cbn [imported_models import_graph file_map issues ResolvedModel_init].
    rewrite insert_empty. apply Hroot; [done|by left]. }
  rewrite (ResolverFacts.resolve_model_walk_imports _ _ _ _ E)
    by (by rewrite Ei).
  cbv zeta.
  set (st := _resolve_imports_recursive _ _ _ _ _ _ _ _).
  assert (I st) as Hst.
  { apply (resolve_imports_keeps fs I HI 11 10).
    - unfold has_file. simpl. set_solver.
    - apply Hroot; [done|by right]. }
  set (st' := match _detect_cycle _ _ _ _ _ with
              | Some (true, _, _) => _ | _ => st end).
  assert (I st') as Hst'.
  { subst st'. destruct (_detect_cycle _ _ _ _ _) as [[[[] ?] ?]|]; try done.
    apply Hcheck; [|done]. left. done. }
  unfold check_duplicates.
  destruct (DuplicateFacts.check_models_spec (imported_models (result st'))
              (seen_root_entities (declared_name "unknown" root)
                 (root_model (result st')))
              (issues (result st')))
    as (dups & -> & Hd & _).
  pose proof (add_issues_closed st' dups) as Hclosed. cbv zeta in Hclosed.
  rewrite <- Hclosed.
  apply (add_issues_keep I is_duplicate_warning); [|done..].
  intros i st0 Hi. apply Hcheck. by right.
Qed.

End ResultFacts.

Module AccountFacts.
Import InvariantFacts ResultFacts.

Lemma count_code_snoc c l i :
  count_code c (l ++ [i])
  = count_code c l + (if decide (code i = c) then 1 else 0).
Proof.
  unfold count_code. rewrite filter_app, length_app, filter_cons.
  by destruct (decide (code i = c)).
Qed.

Lemma import_issue_code i :
  import_issue i ->
  code i <> "IMPORT_LOAD_FAILED" /\ code i <> "CIRCULAR_IMPORT"
  /\ code i <> "ROOT_LOAD_FAILED".
Proof.
  intros [_ [[_ Hc]|[_ Hc]]]; [|by rewrite Hc].
  destruct Hc as [Hc|[Hc|[Hc|Hc]]]; by rewrite Hc.
Qed.

Lemma check_issue_code i : check_issue i -> code i <> "IMPORT_LOAD_FAILED".
Proof. intros [(_ & Hc & _)|(_ & Hc & _)]; by rewrite Hc. Qed.

Lemma accounted_add_issue i st :
  code i <> "IMPORT_LOAD_FAILED" -> accounted st -> accounted (add_issue i st).
Proof.
  unfold accounted. simpl. intros Hc ->.
  by rewrite count_code_snoc, decide_False, Nat.add_0_r.
Qed.

Lemma accounted_invariant fs : walk_invariant fs accounted.
Proof.
  split.
  - intros i st Hi. by apply accounted_add_issue, import_issue_code.
  - done.
  - done.
  - intros p i st (_ & Hc & _). unfold accounted. simpl. intros H.
    rewrite length_app, H, count_code_snoc, decide_True by done. simpl. lia.
  - intros name m p st Hnone _. unfold accounted. simpl. intros H.
    rewrite length_app, H, map_size_insert_None by done. simpl. lia.
Qed.

Lemma resolver_issue_invariant fs :
  walk_invariant fs (fun st => Forall resolver_issue (issues (result st))).
Proof.
  split; try done.
  - intros i st Hi H. simpl. apply Forall_app. split; [done|].
    constructor; [|done]. right. by left.
  - intros p i st Hi H. simpl. apply Forall_app. split; [done|].
    constructor; [|done]. right. right. by left.
Qed.

Lemma files_recorded_invariant fs : walk_invariant fs files_recorded.
Proof.
  split; try done.
  - intros a b st Ha [Hg Hf]. split; [|done]. simpl.
    rewrite dom_insert. unfold has_file in Ha. set_solver.
  - intros p i st _ [Hg Hf]. split; [done|]. simpl. intros name q Hq.
    apply elem_of_app. left. by eapply Hf.
  - intros name m p st _ _ [Hg Hf]. split; simpl.
    + rewrite dom_insert. set_solver.
    + intros k q Hq. apply elem_of_app.
      destruct (decide (name = k)) as [->|Hne].
      * rewrite lookup_insert_eq in Hq. injection Hq as <-. right. by left.
      * rewrite lookup_insert_ne in Hq by done. left. by eapply Hf.
Qed.

Lemma dict_get_set {V} k k' (v : V) d :
  Py.dict_get k' (Py.dict_set k v d)
  = if decide (k = k') then Some v else Py.dict_get k' d.
Proof.
  destruct (decide (k = k')) as [->|Hne].
  - apply FilterFacts.dict_get_set_eq.
  - by apply StoreFacts.dict_get_set_ne.
Qed.

Lemma provenance_invariant fs : walk_invariant fs (provenance fs).
Proof.
  split; try done.
  - intros alias name md m st Hmd Hm [Hl Hi]. split; [done|]. simpl.
    intros alias' m'. rewrite dict_get_set.
    destruct (decide (alias = alias')) as [->|Hne]; [|apply Hi].
    intros [= <-]. by exists name, md.
  - intros name m p st Hnone Hload [Hl Hi]. simpl in Hnone. split; simpl.
    + intros k md. destruct (decide (name = k)) as [->|Hne].
      * rewrite !lookup_insert_eq. intros [= <-]. by exists p.
      * rewrite !lookup_insert_ne by done. apply Hl.
    + intros alias m' Hm'. destruct (Hi alias m' Hm') as (k & md & Hk & Hf).
      exists k, md. split; [|done]. rewrite lookup_insert_ne; [done|].
      congruence.
Qed.

Lemma resolve_model_issue_kinds fs root_path search_dirs :
  Forall resolver_issue (issues (resolve_model fs root_path search_dirs)).
Proof.
  apply (resolve_model_walk_keeps fs
           (fun st => Forall resolver_issue (issues (result st)))).
  - apply resolver_issue_invariant.
  - intros i st Hi H. simpl. apply Forall_app. split; [done|].
    constructor; [|done]. by do 3 right.
  - intros exc _. simpl. constructor; [|done]. by left.
  - intros root g _ _. simpl. constructor.
Qed.

Lemma resolver_issue_severity i :
  resolver_issue i ->
  (severity i = "error"
   /\ code i <> "IMPORT_NAME_MISMATCH"
   /\ code i <> "DUPLICATE_CROSS_MODEL_ENTITY")
  \/ (severity i = "warn"
      /\ (code i = "IMPORT_NAME_MISMATCH"
          \/ code i = "DUPLICATE_CROSS_MODEL_ENTITY")).
Proof.
  intros [(Hs & Hc & _)|[[_ [[Hs Hc]|[Hs Hc]]]|[(Hs & Hc & _)|[(Hs & Hc & _)|(Hs & Hc & _)]]]].
  - left. by rewrite Hc.
  - left. destruct Hc as [Hc|[Hc|[Hc|Hc]]]; by rewrite Hc.
  - right. auto.
  - left. by rewrite Hc.
  - left. by rewrite Hc.
  - right. auto.
Qed.

End AccountFacts.

(** X15: In one call of [resolve_model] the loader is called once for the
    root, once for every import name that ends up in the cache, and
    once for every [IMPORT_LOAD_FAILED] issue, and never otherwise: an
    import whose name is in the cache costs no call. *)
Theorem resolve_model_loader_calls fs root_path search_dirs :
  let walk := resolve_model_walk fs root_path search_dirs in
  length (file_reads walk)
  = 1 + size (loaded_models walk)
    + count_code "IMPORT_LOAD_FAILED" (issues (result walk)).
Proof.
  apply (ResultFacts.resolve_model_walk_keeps fs accounted).
  - apply AccountFacts.accounted_invariant.
  - intros i st Hi. by apply AccountFacts.accounted_add_issue,
      AccountFacts.check_issue_code.
  - intros exc _. reflexivity.
  - intros root g _ _. reflexivity.
Qed.

(** X16: Every issue of [resolve_model] is of one of four kinds: the failure
    to load the root (path [/]), an issue of the walk over the imports,
    a failure to load an imported file, or an issue of the cycle check
    or of the check for duplicate names (all at [/model/imports]).  Its
    severity is [warn] when its code is [IMPORT_NAME_MISMATCH] or
    [DUPLICATE_CROSS_MODEL_ENTITY], and [error] otherwise. *)
Theorem resolve_model_issues fs root_path search_dirs :
  Forall (fun i =>
            resolver_issue i
            /\ (severity i = "warn"
                <-> code i = "IMPORT_NAME_MISMATCH"
                    \/ code i = "DUPLICATE_CROSS_MODEL_ENTITY")
            /\ (severity i = "error" \/ severity i = "warn"))
         (issues (resolve_model fs root_path search_dirs)).
Proof.
  eapply Forall_impl; [apply AccountFacts.resolve_model_issue_kinds|].
  intros i Hi. split; [done|].
  destruct (AccountFacts.resolver_issue_severity i Hi)
    as [(Hs & H1 & H2)|[Hs Hc]]; rewrite Hs.
  - split; [|by left]. split; [done|]. by intros [?|?].
  - split; [|by right]. done.
Qed.

(** X17: The value of [cmd_resolve] is 0 or 1, and it is 0 exactly when the
    resolution has no issue but name mismatches and duplicate entity
    names, the two warnings. *)
Theorem cmd_resolve_exit_code fs model search_dir :
  (cmd_resolve fs model search_dir = 0%Z \/ cmd_resolve fs model search_dir = 1%Z)
  /\ (cmd_resolve fs model search_dir = 0%Z
      <-> Forall (fun i => code i = "IMPORT_NAME_MISMATCH"
                           \/ code i = "DUPLICATE_CROSS_MODEL_ENTITY")
                 (issues (resolve_model fs model search_dir))).
Proof.
  unfold cmd_resolve.
  pose proof (AccountFacts.resolve_model_issue_kinds fs model search_dir) as Hk.
  induction Hk as [|i l Hi _ IH]; [by split; [left|]|].
  cbn [existsb]. rewrite Forall_cons.
  destruct (AccountFacts.resolver_issue_severity i Hi)
    as [(Hs & H1 & H2)|[Hs Hc]]; rewrite Hs; cbn [orb].
  - rewrite bool_decide_eq_true_2 by done. cbn [orb]. split; [by right|].
    split; [done|]. by intros [[?|?] _].
  - rewrite bool_decide_eq_false_2 by done. cbn [orb].
    destruct IH as [IH1 IH2]. split; [done|]. rewrite IH2. tauto.
Qed.

(** X18: In the result of [resolve_model], every model name that has imports
    recorded in the import graph has a file in the file map, and every
    file of the file map is one that was handed to the loader. *)
Theorem resolve_model_files fs root_path search_dirs :
  let walk := resolve_model_walk fs root_path search_dirs in
  let r := resolve_model fs root_path search_dirs in
  dom (import_graph r) ⊆ dom (file_map r)
  /\ forall name p, file_map r !! name = Some p -> p ∈ file_reads walk.
Proof.
  apply (ResultFacts.resolve_model_walk_keeps fs files_recorded).
  - apply AccountFacts.files_recorded_invariant.
  - done.
  - intros exc _. split; simpl; [done|]. intros name p. by rewrite lookup_empty.
  - intros root g _ Hg. split; simpl.
    + destruct Hg as [->| ->]; [set_solver|]. by rewrite !dom_singleton.
    + intros name p Hp. apply lookup_singleton_Some in Hp as [_ <-]. by left.
Qed.

(** X19: Every model that [resolve_model] registers under an alias, for an
    import at any depth, is the document that the loader returns for a
    file of the file map, whole or with some of its entities only. *)
Theorem imported_models_provenance fs root_path search_dirs alias m :
  let r := resolve_model fs root_path search_dirs in
  Py.dict_get alias (imported_models r) = Some m ->
  exists name p md,
    file_map r !! name = Some p
    /\ load_yaml_model fs p = inl md
    /\ filtered_from md m.
Proof.
  cbv zeta. intros Hm.
  destruct (ResultFacts.resolve_model_walk_keeps fs (provenance fs)
              root_path search_dirs) as [Hl Hi].
  - apply AccountFacts.provenance_invariant.
  - done.
  - intros exc _. split; simpl; [intros name md|intros a m']; done.
  - intros root g _ _. split; simpl; [intros name md|intros a m']; done.
  - destruct (Hi alias m Hm) as (name & md & Hname & Hf).
    destruct (Hl name md Hname) as (p & Hp & Hload).
    by exists name, p, md.
Qed.

Lemma imported_models_provenance_witness :
  exists name p md,
    file_map Scenario.resolved !! name = Some p
    /\ load_yaml_model Scenario.project p = inl md
    /\ filtered_from md
         (with_entities Scenario.shared_dimensions
            (default [] (m_entities Scenario.shared_dimensions))).
Proof.
  apply (imported_models_provenance Scenario.project Scenario.orders_file
           Scenario.search_dirs "shared").
  reflexivity.
Defined.

(** * Where a model file can be found *)

Module FoundFacts.
Import SearchOrder.

Lemma sorted_str_elem_of l (x : string) : x ∈ Py.sorted_str l <-> x ∈ l.
Proof. unfold Py.sorted_str. apply OutputFacts.sorted_elem_of. Qed.

Section Facts.
Variable fs : FileSystem.

(** A place where the search looks for the file [cand] under [dir]:
    [dir] itself, or a subdirectory of [dir] that is listed, is a
    directory and is not hidden. *)
Lemma in_depth_first d dirs :
  In d (depth_first fs dirs) <->
  exists dir,
    In dir dirs
    /\ (d = dir
        \/ exists sub,
             d = dir ++ [sub] /\ fs_is_dir fs dir = true
             /\ sub ∈ fs_iterdir fs dir
             /\ fs_is_dir fs (dir ++ [sub]) = true
             /\ Py.starts_with_dot sub = false).
Proof.
  unfold depth_first. rewrite in_flat_map. split.
  - intros (dir & Hdir & Hd). exists dir. split; [done|].
    destruct Hd as [<-|Hd]; [by left|]. right.
    unfold subdirectories in Hd. destruct (fs_is_dir fs dir) eqn:Hisdir; [|done].
    apply in_map_iff in Hd as (sub & <- & Hsub).
    apply filter_In in Hsub as [Hsub Hok].
    apply andb_true_iff in Hok as [Hd Hh]. apply negb_true_iff in Hh.
    exists sub. split_and!; try done.
    apply list_elem_of_In in Hsub. by apply sorted_str_elem_of.
  - intros (dir & Hdir & Hd). exists dir. split; [done|].
    destruct Hd as [->|(sub & -> & Hisdir & Hsub & Hd & Hh)]; [by left|].
    right. unfold subdirectories. rewrite Hisdir.
    apply in_map_iff. exists sub. split; [done|].
    apply filter_In. split.
    + apply list_elem_of_In. by apply sorted_str_elem_of.
    + by rewrite Hd, Hh.
Qed.

Lemma in_places (p : fpath) (candidates : list string) (order : list fpath) :
  In p (flat_map (fun dir => map (path_div dir) candidates) order) <->
  exists d cand, In d order /\ In cand candidates /\ p = path_div d cand.
Proof.
  rewrite in_flat_map. split.
  - intros (d & Hd & Hp). apply in_map_iff in Hp as (cand & <- & Hc).
    by exists d, cand.
  - intros (d & cand & Hd & Hc & ->). exists d. split; [done|].
    apply in_map_iff. by exists cand.
Qed.

End Facts.

Lemma split_no_sep sep s :
  Forall (fun c => c <> sep) (list_ascii_of_string s) -> Py.split sep s = [s].
Proof.
  induction s as [|c s IH]; simpl; [done|]. intros Hs.
  apply Forall_cons in Hs as [Hc Hs].
  rewrite bool_decide_eq_false_2 by done. by rewrite (IH Hs).
Qed.

Lemma chars_app s t :
  list_ascii_of_string (s ++ t)
  = list_ascii_of_string s ++ list_ascii_of_string t.
Proof. induction s as [|c s IH]; simpl; [done|]. by rewrite IH. Qed.

Lemma path_div_plain dir s :
  Forall (fun c => c <> "/"%char) (list_ascii_of_string s) ->
  s <> "" -> s <> "." -> path_div dir s = dir ++ [s].
Proof.
  intros Hs Hne Hdot. unfold path_div. rewrite split_no_sep by done.
  rewrite filter_cons_True by done.
  destruct s as [|a s]; [done|].
  apply Forall_cons in Hs as [Ha _].
  destruct (ascii_dec a "/") as [->|Hna]; [done|].
  by destruct a as [[] [] [] [] [] [] [] []].
Qed.

(** A candidate built on a name without [/] is one component. *)
Lemma path_div_candidate name :
  no_slash name ->
  forall dir cand,
    cand ∈ model_file_candidates name -> path_div dir cand = dir ++ [cand].
Proof.
  intros Hname dir cand Hc. unfold model_file_candidates in Hc.
  apply elem_of_cons in Hc as [->|Hc];
    [|apply list_elem_of_singleton in Hc as ->];
    (apply path_div_plain;
     [rewrite chars_app; apply Forall_app; split; [done|];
      repeat constructor; done
     |by destruct name
     |by destruct name as [|a [|b n]]]).
Qed.
End FoundFacts.

(** X20: The search for the file of an import that has no explicit path
    returns only a file that exists, of the form [dir / candidate] or
    [dir / sub / candidate], where [candidate] is [<model>.model.yaml] or
    [<model>.model.yml], [dir] is the directory of the importing model or
    a search directory, [sub] is a subdirectory of [dir] that is listed,
    is a directory and is not hidden, and [/] joins as [pathlib] does; it
    returns nothing only when the import names no model or no such file
    exists.  When the model name has no [/] in it the candidate is a
    single component, so the file lies in [dir] or in [sub] itself; a
    name with [/] or [..] in it is followed out of these directories. *)
Theorem import_file_found fs imp root_dir search_dirs :
  Py.truthy (get_str (imp_path imp)) = false ->
  let candidates := model_file_candidates (get_str (imp_model imp)) in
  let below dir sub :=
    fs_is_dir fs dir = true /\ sub ∈ fs_iterdir fs dir
    /\ fs_is_dir fs (dir ++ [sub]) = true /\ Py.starts_with_dot sub = false in
  match _resolve_import_path fs imp root_dir search_dirs with
  | Some p =>
      fs_exists fs p = true
      /\ exists dir cand,
           dir ∈ root_dir :: search_dirs /\ cand ∈ candidates
           /\ (p = path_div dir cand
               \/ exists sub, below dir sub /\ p = path_div (dir ++ [sub]) cand)
  | None =>
      get_str (imp_model imp) = ""
      \/ forall dir cand,
           dir ∈ root_dir :: search_dirs -> cand ∈ candidates ->
           fs_exists fs (path_div dir cand) = false
           /\ forall sub, below dir sub ->
                          fs_exists fs (path_div (dir ++ [sub]) cand) = false
  end
  /\ (no_slash (get_str (imp_model imp)) ->
      forall dir cand, cand ∈ candidates -> path_div dir cand = dir ++ [cand]).
Proof.
  intros Hpath. cbv zeta. split; [|apply FoundFacts.path_div_candidate].
  unfold _resolve_import_path. rewrite Hpath.
  destruct (Py.truthy (get_str (imp_model imp))) eqn:Hname; cbn [negb];
    [|left; by destruct (get_str (imp_model imp))].
  unfold _find_model_file.
  rewrite SearchFacts.find_in_dirs_depth_first. unfold SearchOrder.first_existing.
  destruct (List.find _ _) as [p|] eqn:Hfind.
  - apply find_some in Hfind as [Hin Hex]. split; [done|].
    apply FoundFacts.in_places in Hin as (d & cand & Hd & Hc & ->).
    apply FoundFacts.in_depth_first in Hd as (dir & Hdir & Hd).
    exists dir, cand. apply list_elem_of_In in Hdir, Hc. split_and!; try done.
    destruct Hd as [->|(sub & -> & Hsub)]; [by left|]. right.
    by exists sub.
  - right. intros dir cand Hdir Hc.
    apply list_elem_of_In in Hdir, Hc.
    pose proof (find_none _ _ Hfind) as Hnone. split.
    + apply Hnone, FoundFacts.in_places. exists dir, cand. split_and!; try done.
      apply FoundFacts.in_depth_first. exists dir. split; [done|by left].
    + intros sub Hsub.
      apply Hnone, FoundFacts.in_places. exists (dir ++ [sub]), cand.
      split_and!; try done.
      apply FoundFacts.in_depth_first. exists dir. split; [done|].
      right. by exists sub.
Qed.

Lemma import_file_found_witness :
  (fs_exists Examples.two_copies ["app"; "vendored"; "dim.model.yaml"] = true
   /\ exists dir cand,
        dir ∈ [["app"]; ["lib"]] /\ cand ∈ model_file_candidates "dim"
        /\ (["app"; "vendored"; "dim.model.yaml"] = path_div dir cand
            \/ exists sub,
                 (fs_is_dir Examples.two_copies dir = true
                  /\ sub ∈ fs_iterdir Examples.two_copies dir
                  /\ fs_is_dir Examples.two_copies (dir ++ [sub]) = true
                  /\ Py.starts_with_dot sub = false)
                 /\ ["app"; "vendored"; "dim.model.yaml"]
                    = path_div (dir ++ [sub]) cand))
  /\ (no_slash "dim" ->
      forall dir cand,
        cand ∈ model_file_candidates "dim" -> path_div dir cand = dir ++ [cand]).
Proof.
  apply (import_file_found Examples.two_copies Examples.import_dim
           ["app"] [["lib"]]).
  reflexivity.
Defined.

(** * The canonicalizer in the store *)

Module SharingFacts.
Import Store StoreFacts.

Lemma insert_keyed_perm x l r : insert_keyed x l = Return r -> r ≡ₚ x :: l.
Proof.
  revert r. induction l as [|y l IH]; intros r; simpl.
  - by intros [= <-].
  - destruct (key_lt y.1 x.1) as [[]|]; [|by intros [= <-]|done].
    destruct (insert_keyed x l) as [r'|]; [|done].
    intros [= <-]. rewrite (IH r' eq_refl). apply Permutation_swap.
Qed.

Lemma sort_keyed_perm l s : sort_keyed l = Return s -> s ≡ₚ l.
Proof.
  revert s. induction l as [|x l IH]; intros s; simpl.
  - by intros [= <-].
  - destruct (sort_keyed l) as [s'|]; [|done].
    intros Hs. apply insert_keyed_perm in Hs. by rewrite Hs, (IH s' eq_refl).
Qed.

Lemma mapM_length {A B} (f : A -> M B) l h ys h' :
  mapM f l h = (Return ys, h') -> length ys = length l.
Proof.
  revert h ys h'. induction l as [|x l IH]; intros h ys h'; simpl.
  - by intros [= <- <-].
  - rewrite bind_run. destruct (f x h) as [[y|e] h1]; [|done].
    rewrite bind_run. destruct (mapM f l h1) as [[ys'|e] h2] eqn:E; [|done].
    intros [= <- <-]. simpl. f_equal. by eapply IH.
Qed.

Lemma sorted_by_new_list key xs :
  (forall item, reads (key item)) -> sorts_into_new_list xs (sorted_by key xs).
Proof.
  intros Hkey h. unfold sorted_by. rewrite bind_run.
  pose proof (reads_iter xs h) as Hi.
  destruct (iter xs h) as [[items|e] h1] eqn:Hiter; simpl in Hi; subst h1;
    [|done].
  rewrite bind_run.
  pose proof (reads_mapM key items Hkey h) as Hm.
  destruct (mapM key items h) as [[keys|e] h2] eqn:Hkeys; simpl in Hm; subst h2;
    [|done].
  destruct (sort_keyed (zip keys items)) as [s|e] eqn:Hs; [|done].
  simpl. exists items, (map snd s). split_and!; try done.
  apply sort_keyed_perm in Hs. rewrite Hs.
  apply mapM_length in Hkeys.
  change (map snd (zip keys items)) with ((zip keys items).*2).
  rewrite snd_zip; [done|lia].
Qed.

End SharingFacts.

(** X21: [_sort_fields], [_sort_relationships] and [_sort_rules] leave the
    store as it is when they raise, and otherwise add one object to it,
    the list they return, which holds the items of their argument
    themselves: the relationships and the rules of a canonical document
    are the objects of the input, not copies of them. *)
Theorem sort_shares_items xs :
  sorts_into_new_list xs (Store._sort_fields xs)
  /\ sorts_into_new_list xs (Store._sort_relationships xs)
  /\ sorts_into_new_list xs (Store._sort_rules xs).
Proof.
  split_and!; apply SharingFacts.sorted_by_new_list; intros item;
    apply StoreFacts.reads_key_of.
Qed.

(** X22: What [compile_model] returns is an object of its own making: a
    reference to an object that the store did not have before the
    call, so never its argument and never a part of it. *)
Theorem compile_model_returns_new_object limit model h v :
  (Store.compile_model limit model h).1 = Store.Return v ->
  forall l, v = Store.VRef l -> length h <= l.
Proof.
  intros Hv.
  destruct (StoreFacts.appends_compile_model limit model h) as [_ Hfresh].
  exact (Hfresh v Hv).
Qed.

Lemma compile_model_returns_new_object_witness :
  (Store.compile_model 100 Examples.orders_object Examples.orders_store).1
  = Store.Return (Store.VRef 39)
  /\ forall l, Store.VRef 39 = Store.VRef l -> length Examples.orders_store <= l.
Proof.
  assert ((Store.compile_model 100 Examples.orders_object
             Examples.orders_store).1 = Store.Return (Store.VRef 39)) as Hv
    by (by vm_compute).
  split; [exact Hv|].
  exact (compile_model_returns_new_object 100 Examples.orders_object
           Examples.orders_store (Store.VRef 39) Hv).
Defined.

(** X23: When the root loads, the root model of the result is the document
    that the loader returned for it, whatever the imports do: no step
    of the walk and no entity filter touches it. *)
Theorem resolve_model_keeps_root fs root_path search_dirs root :
  load_yaml_model fs (fs_resolve fs root_path) = inl root ->
  root_model (resolve_model fs root_path search_dirs) = root.
Proof.
  intros Hroot.
  apply (ResultFacts.resolve_model_walk_keeps fs
           (fun st => root_model (result st) = root)).
  - by split.
  - done.
  - intros exc E. congruence.
  - intros root' g E _. simpl. congruence.
Qed.

Lemma resolve_model_keeps_root_witness :
  root_model
    (resolve_model Scenario.project Scenario.orders_file Scenario.search_dirs)
  = Scenario.orders.
Proof.
  apply (resolve_model_keeps_root Scenario.project Scenario.orders_file
           Scenario.search_dirs Scenario.orders).
  reflexivity.
Defined.

Module SettledFacts.
Import InvariantFacts ResultFacts.

Lemma dict_set_keys {V} k (v : V) d k' :
  k' ∈ Py.dict_keys (Py.dict_set k v d) <-> k' = k \/ k' ∈ Py.dict_keys d.
Proof.
  unfold Py.dict_keys. induction d as [|[k0 v0] d IH]; simpl.
  - rewrite list_elem_of_singleton. split; [auto|].
    intros [?|H]; [done|]. by apply elem_of_nil in H.
  - case_bool_decide; subst; simpl; rewrite !elem_of_cons; [tauto|].
    rewrite IH. tauto.
Qed.

Lemma import_settled_invariant fs imp : walk_invariant fs (import_settled imp).
Proof.
  split; try done.
  - intros i st _ [H|(j & Hj & Hf)]; [by left|]. right. exists j.
    split; [|done]. simpl. apply elem_of_app. by left.
  - intros alias name md m st _ _ [H|H]; [|by right]. left. simpl.
    apply dict_set_keys. by right.
  - intros p i st _ [H|(j & Hj & Hf)]; [by left|]. right. exists j.
    split; [|done]. simpl. apply elem_of_app. by left.
Qed.

Lemma import_settled_issue imp i st :
  import_settled imp st -> import_settled imp (add_issue i st).
Proof.
  intros [H|(j & Hj & Hf)]; [by left|]. right. exists j.
  split; [|done]. simpl. apply elem_of_app. by left.
Qed.

Lemma apply_entity_filter_registers alias name ef md st :
  alias ∈ Py.dict_keys
            (imported_models (result (apply_entity_filter alias name ef md st))).
Proof.
  destruct (ViewFacts.apply_entity_filter_stores alias name ef md st)
    as (es & _ & Hi).
  cbv zeta in Hi. rewrite Hi. apply dict_set_keys. by left.
Qed.

(** The body of the loop settles the import it is given, whatever the
    recursive call does. *)
Lemma resolve_import_settles fs rec mn dir dirs st imp :
  import_settled imp (resolve_import fs rec mn dir dirs st imp).
Proof.
  unfold resolve_import.
  destruct (Py.truthy (get_str (imp_model imp))) eqn:Hname; cbn [negb].
  2:{ right. eexists. split; [simpl; apply elem_of_app; right; by left|].
      left. split; [|done]. by destruct (get_str (imp_model imp)). }
  destruct (loaded_models _ !! _) as [md|].
  { left. apply apply_entity_filter_registers. }
  destruct (_resolve_import_path fs imp dir dirs) as [p|].
  2:{ right. eexists. split; [simpl; apply elem_of_app; right; by left|].
      right. by left. }
  destruct (load_yaml_model fs p) as [m|exc].
  - left. apply apply_entity_filter_registers.
  - right. eexists. split; [simpl; apply elem_of_app; right; by left|].
    right. right. by exists exc.
Qed.

(** The walk that the two checks of [resolve_model] start from, and
    the issues that they add to it. *)
Lemma resolve_model_walk_tail fs root_path search_dirs root :
  load_yaml_model fs (fs_resolve fs root_path) = inl root ->
  declared_imports root <> [] ->
  exists extra,
    Forall check_issue extra
    /\ resolve_model_walk fs root_path search_dirs
       = foldl (fun st i => add_issue i st)
           (_resolve_imports_recursive fs 11 10
              (map (fs_resolve fs) search_dirs)
              (declared_name "unknown" root) (declared_imports root)
              (parent (fs_resolve fs root_path))
              (mkWalk (mkResolved root [] {[declared_name "unknown" root := []]}
                         {[declared_name "unknown" root := fs_resolve fs root_path]}
                         [])
                      ∅ [fs_resolve fs root_path]))
           extra.
Proof.
  intros Hroot Himports.
  rewrite (ResolverFacts.resolve_model_walk_imports _ _ _ _ Hroot) by done.
  cbv zeta.
  set (st := _resolve_imports_recursive _ _ _ _ _ _ _ _).
  set (circular := mkIssue "error" "CIRCULAR_IMPORT" _ _).
  assert (exists pre, Forall check_issue pre
            /\ match _detect_cycle (cycle_fuel (import_graph (result st)))
                       (import_graph (result st))
                       (declared_name "unknown" root) ∅ ∅ with
               | Some (true, _, _) => add_issue circular st
               | _ => st
               end = foldl (fun st i => add_issue i st) st pre)
    as (pre & Hpre & ->).
  { destruct (_detect_cycle _ _ _ _ _) as [[[[] ?] ?]|];
      [exists [circular]|exists []..|exists []]; split; try done.
    constructor; [|done]. by left. }
  unfold check_duplicates.
  destruct (DuplicateFacts.check_models_spec
              (imported_models (result (foldl (fun st i => add_issue i st) st pre)))
              (seen_root_entities (declared_name "unknown" root)
                 (root_model (result (foldl (fun st i => add_issue i st) st pre))))
              (issues (result (foldl (fun st i => add_issue i st) st pre))))
    as (dups & -> & Hd & _).
  exists (pre ++ dups). split.
  - apply Forall_app. split; [done|].
    eapply Forall_impl; [exact Hd|]. intros i Hi. by right.
  - rewrite foldl_app.
    pose proof (add_issues_closed (foldl (fun st i => add_issue i st) st pre) dups)
      as Hclosed.
    cbv zeta in Hclosed. by rewrite <- Hclosed.
Qed.

(** An import of the root is registered or reported. *)
Lemma root_import_settled fs root_path search_dirs root imp :
  load_yaml_model fs (fs_resolve fs root_path) = inl root ->
  imp ∈ declared_imports root ->
  import_settled imp (resolve_model_walk fs root_path search_dirs).
Proof.
  intros Hroot Hin.
  destruct (resolve_model_walk_tail fs root_path search_dirs root
              Hroot) as (extra & Hextra & ->).
  { intros E. rewrite E in Hin. by apply elem_of_nil in Hin. }
  apply (ResultFacts.add_issues_keep (import_settled imp) (fun _ => True)).
  { intros i st _. apply import_settled_issue. }
  { by apply Forall_true. }
  apply list_elem_of_split in Hin as (before & after & ->).
  change (_resolve_imports_recursive fs 11 10 ?d ?n ?i ?r ?s)
    with (foldl (resolve_import fs (_resolve_imports_recursive fs 10 10 d)
                   n r d) s i).
  rewrite foldl_app. cbn [foldl].
  set (rec := _resolve_imports_recursive fs 10 10 _).
  set (st0 := mkWalk _ _ _).
  set (f := resolve_import fs rec _ _ _).
  assert (forall I, walk_invariant fs I -> rec_keeps I rec) as Hrec.
  { intros I HI. by apply InvariantFacts.resolve_imports_keeps. }
  assert (has_file (declared_name "unknown" root) (f (foldl f st0 before) imp))
    as Hfile.
  { assert (walk_invariant fs (fun _ => True)) as HT by (by split).
    destruct (InvariantFacts.foldl_keeps fs _ HT rec
                (declared_name "unknown" root)
                (parent (fs_resolve fs root_path))
                (map (fs_resolve fs) search_dirs) before st0 (Hrec _ HT))
      as [_ Hk1]; [|done|].
    { unfold has_file. simpl. set_solver. }
    assert (has_file (declared_name "unknown" root) (foldl f st0 before)) as H1.
    { eapply InvariantFacts.has_file_kept; [exact Hk1|].
      unfold has_file. simpl. set_solver. }
    destruct (InvariantFacts.resolve_import_keeps fs _ HT rec
                (declared_name "unknown" root)
                (parent (fs_resolve fs root_path))
                (map (fs_resolve fs) search_dirs) (foldl f st0 before) imp
                (Hrec _ HT) H1 I) as [_ Hk2].
    by eapply InvariantFacts.has_file_kept. }
  apply (InvariantFacts.foldl_keeps fs (import_settled imp)
           (import_settled_invariant fs imp) rec);
    [apply Hrec, import_settled_invariant|done|].
  apply resolve_import_settles.
Qed.

End SettledFacts.

(** * What an alias holds in the result *)

Module AliasFacts.
Import InvariantFacts.

Lemma true_invariant fs : walk_invariant fs (fun _ => True).
Proof. by split. Qed.

Lemma dict_keys_get {V} k (d : Py.dict V) :
  k ∈ Py.dict_keys d -> exists v, Py.dict_get k d = Some v.
Proof.
  unfold Py.dict_keys. induction d as [|[k' v'] d IH]; simpl.
  - intros H. by apply elem_of_nil in H.
  - intros H. case_bool_decide; [by eexists|].
    apply elem_of_cons in H as [->|H]; [done|auto].
Qed.

(** The filter block, for any filter: what it registers, what it reports
    and what it leaves alone. *)
Lemma apply_entity_filter_result alias name ef md st :
  let st' := apply_entity_filter alias name ef md st in
  imported_models (result st')
  = Py.dict_set alias (registered ef md) (imported_models (result st))
  /\ issues (result st')
     = issues (result st)
       ++ map (entity_not_found alias name)
            (filter (fun r => r ∉ entity_names md) (default [] ef))
  /\ loaded_models st' = loaded_models st
  /\ file_map (result st') = file_map (result st)
  /\ import_graph (result st') = import_graph (result st).
Proof.
  destruct ef as [[|r fl]|]; cbv zeta.
  - simpl. by rewrite app_nil_r.
  - by rewrite FilterFacts.apply_entity_filter_nonempty.
  - simpl. by rewrite app_nil_r.
Qed.

Lemma registered_filtered_from ef md : filtered_from md (registered ef md).
Proof.
  destruct ef as [[|r fl]|]; [by left| |by left].
  right. eexists. split; [reflexivity|]. apply sublist_filter.
Qed.

Section Alias.
Context (fs : FileSystem) (alias name : string)
        (ok : option (list string) -> Prop).

Lemma alias_holds_issue i st :
  alias_holds alias name ok st -> alias_holds alias name ok (add_issue i st).
Proof.
  intros Hst m Hm. destruct (Hst m Hm) as (md & ef & Hmd & Hok & Hreg & Hi).
  exists md, ef. split_and!; try done.
  intros n Hn Hnone. simpl. apply elem_of_app. left. auto.
Qed.

Lemma alias_holds_remember n m p st :
  loaded_models st !! n = None ->
  alias_holds alias name ok st ->
  alias_holds alias name ok (remember n m p st).
Proof.
  intros Hnone Hst m' Hm'. destruct (Hst m' Hm') as (md & ef & Hmd & ? & ? & Hi).
  exists md, ef. split_and!; try done.
  simpl. rewrite lookup_insert_ne; [done|]. congruence.
Qed.

Lemma alias_holds_filter imp md st :
  alias_use alias name ok imp ->
  Py.truthy (get_str (imp_model imp)) = true ->
  loaded_models st !! get_str (imp_model imp) = Some md ->
  alias_holds alias name ok st ->
  alias_holds alias name ok
    (apply_entity_filter (alias_of imp) (get_str (imp_model imp))
       (imp_entities imp) md st).
Proof.
  intros Huse Ht Hmd Hst m.
  destruct (apply_entity_filter_result (alias_of imp) (get_str (imp_model imp))
              (imp_entities imp) md st) as (Hi & Hiss & Hl & _).
  cbv zeta in Hi, Hiss, Hl. unfold alias_holds. rewrite Hi, Hl, Hiss.
  rewrite AccountFacts.dict_get_set.
  destruct (decide (alias_of imp = alias)) as [E|NE].
  - destruct (Huse Ht E) as [Hn Hok]. intros [= <-].
    exists md, (imp_entities imp). rewrite <- Hn, <- E.
    split_and!; try done.
    intros n Hreq Hnone. apply elem_of_app. right.
    apply list_elem_of_fmap. exists n. split; [done|].
    by apply list_elem_of_filter.
  - intros Hm. destruct (Hst m Hm) as (md' & ef & Hmd' & Hok & Hreg & Hi').
    exists md', ef. split_and!; try done.
    intros n Hreq Hnone. apply elem_of_app. left. auto.
Qed.

Lemma cache_reserved_kept st st' :
  kept st st' ->
  cache_reserved alias name ok st' -> cache_reserved alias name ok st.
Proof. intros [_ Hk] Hc k m Hm. apply (Hc k m). by apply Hk. Qed.

(** The body of the loop keeps what the alias holds, when the import
    and the imports of every model in the cache use the alias as
    reserved. *)
Lemma resolve_import_alias rec mn dir dirs st imp :
  rec_keeps (fun _ => True) rec ->
  (forall n imports d st,
     has_file n st -> Forall (alias_use alias name ok) imports ->
     alias_holds alias name ok st ->
     cache_reserved alias name ok (rec n imports d st) ->
     alias_holds alias name ok (rec n imports d st)) ->
  alias_use alias name ok imp ->
  alias_holds alias name ok st ->
  cache_reserved alias name ok (resolve_import fs rec mn dir dirs st imp) ->
  alias_holds alias name ok (resolve_import fs rec mn dir dirs st imp).
Proof.
  intros Hkeep Hrec Huse Hst. unfold resolve_import.
  fold (alias_of imp).
  destruct (Py.truthy (get_str (imp_model imp))) eqn:Hname; cbn [negb];
    [|intros _; by apply alias_holds_issue].
  set (n := get_str (imp_model imp)).
  set (st1 := track_import mn n st).
  assert (alias_holds alias name ok st1) as Hst1 by exact Hst.
  destruct (loaded_models st1 !! n) as [md|] eqn:Hcache.
  { intros _. by apply alias_holds_filter. }
  destruct (_resolve_import_path fs imp dir dirs) as [p|];
    [|intros _; by apply alias_holds_issue].
  destruct (load_yaml_model fs p) as [m|exc] eqn:Hload;
    [|intros _; by apply alias_holds_issue].
  set (st2 := if _ : bool then _ else read_file p st1).
  assert (alias_holds alias name ok st2 /\ loaded_models st2 = loaded_models st1)
    as [Hst2 Hl2].
  { subst st2. destruct (_ && _); [|done].
    split; [|done]. by apply (alias_holds_issue _ (read_file p st1)). }
  set (st3 := remember n m p st2).
  assert (alias_holds alias name ok st3) as Hst3.
  { apply alias_holds_remember; [by rewrite Hl2|done]. }
  set (st4 := match declared_imports m with [] => st3 | _ :: _ => _ end).
  assert (kept st3 st4) as Hk4.
  { subst st4. destruct (declared_imports m); [apply kept_refl|].
    apply Hkeep; [|done]. unfold has_file. simpl. set_solver. }
  assert (loaded_models st4 !! n = Some m) as Hl4.
  { apply Hk4. simpl. apply lookup_insert_eq. }
  intros Hc.
  destruct (apply_entity_filter_result (alias_of imp) n (imp_entities imp) m st4)
    as (_ & _ & Hl5 & _). cbv zeta in Hl5.
  assert (cache_reserved alias name ok st4) as Hc4.
  { unfold cache_reserved in *. by rewrite <- Hl5. }
  apply alias_holds_filter; try done.
  subst st4. destruct (declared_imports m) as [|i0 is0] eqn:Hi; [done|].
  apply Hrec; try done.
  - unfold has_file. simpl. set_solver.
  - pose proof (Hc4 n m Hl4) as Hm. unfold alias_reserved in Hm.
    by rewrite Hi in Hm.
Qed.

Lemma foldl_alias rec mn dir dirs imports st :
  rec_keeps (fun _ => True) rec ->
  (forall n imports d st,
     has_file n st -> Forall (alias_use alias name ok) imports ->
     alias_holds alias name ok st ->
     cache_reserved alias name ok (rec n imports d st) ->
     alias_holds alias name ok (rec n imports d st)) ->
  has_file mn st ->
  Forall (alias_use alias name ok) imports ->
  alias_holds alias name ok st ->
  cache_reserved alias name ok
    (foldl (resolve_import fs rec mn dir dirs) st imports) ->
  alias_holds alias name ok
    (foldl (resolve_import fs rec mn dir dirs) st imports).
Proof.
  intros Hkeep Hrec. revert st.
  induction imports as [|imp imports IH]; intros st Hmn Huse Hst Hc; [done|].
  cbn [foldl] in *. apply Forall_cons in Huse as [Hu Huse].
  destruct (resolve_import_keeps fs _ (true_invariant fs) rec mn dir dirs st imp
              Hkeep Hmn I) as [_ Hk1].
  pose proof (has_file_kept _ _ _ Hk1 Hmn) as Hmn1.
  destruct (foldl_keeps fs _ (true_invariant fs) rec mn dir dirs imports _
              Hkeep Hmn1 I) as [_ Hk2].
  apply IH; try done.
  apply resolve_import_alias; try done.
  by apply (cache_reserved_kept _ _ Hk2).
Qed.

Lemma resolve_imports_alias gap max_depth dirs mn imports dir st :
  has_file mn st ->
  Forall (alias_use alias name ok) imports ->
  alias_holds alias name ok st ->
  cache_reserved alias name ok
    (_resolve_imports_recursive fs gap max_depth dirs mn imports dir st) ->
  alias_holds alias name ok
    (_resolve_imports_recursive fs gap max_depth dirs mn imports dir st).
Proof.
  revert mn imports dir st.
  induction gap as [|gap IH]; intros mn imports dir st Hmn Huse Hst Hc; simpl.
  - by apply alias_holds_issue.
  - apply foldl_alias; try done.
    apply resolve_imports_keeps, true_invariant.
Qed.

(** What [resolve_model] leaves under the alias. *)
Lemma resolve_model_alias root_path search_dirs root :
  load_yaml_model fs (fs_resolve fs root_path) = inl root ->
  alias_reserved alias name ok root ->
  cache_reserved alias name ok (resolve_model_walk fs root_path search_dirs) ->
  alias_holds alias name ok (resolve_model_walk fs root_path search_dirs).
Proof.
  intros Hroot Hres.
  destruct (declared_imports root) as [|i0 is0] eqn:Hi.
  { intros _ m. unfold resolve_model_walk. rewrite Hroot, Hi. by simpl. }
  destruct (SettledFacts.resolve_model_walk_tail fs root_path search_dirs root
              Hroot) as (extra & Hextra & ->); [by rewrite Hi|].
  intros Hc.
  apply (ResultFacts.add_issues_keep (alias_holds alias name ok) (fun _ => True)).
  { intros i st _. apply alias_holds_issue. }
  { by apply Forall_true. }
  apply resolve_imports_alias.
  - unfold has_file. simpl. set_solver.
  - exact Hres.
  - intros m. by simpl.
  - unfold cache_reserved in *.
    by rewrite ResultFacts.add_issues_closed in Hc.
Qed.

End Alias.

(** An import whose model is in the cache, or is found and loads, ends
    in the filter block, run on that model with the cache holding it. *)
Lemma resolve_import_registers fs gap max_depth mn dir dirs st imp md :
  Py.truthy (get_str (imp_model imp)) = true ->
  loaded_models st !! get_str (imp_model imp) = Some md
  \/ (loaded_models st !! get_str (imp_model imp) = None
      /\ exists p, _resolve_import_path fs imp dir dirs = Some p
                   /\ load_yaml_model fs p = inl md) ->
  exists st0,
    resolve_import fs (_resolve_imports_recursive fs gap max_depth dirs)
      mn dir dirs st imp
    = apply_entity_filter (alias_of imp) (get_str (imp_model imp))
        (imp_entities imp) md st0
    /\ loaded_models st0 !! get_str (imp_model imp) = Some md.
Proof.
  intros Hname Hmd. unfold resolve_import. fold (alias_of imp).
  rewrite Hname. cbn [negb].
  change (loaded_models (track_import mn (get_str (imp_model imp)) st))
    with (loaded_models st).
  destruct Hmd as [Hmd|(Hnone & p & Hp & Hload)].
  { rewrite Hmd. by eexists. }
  rewrite Hnone, Hp, Hload.
  eexists. split; [reflexivity|].
  set (st3 := remember _ md p _).
  assert (loaded_models st3 !! get_str (imp_model imp) = Some md) as Hl3
    by (simpl; apply lookup_insert_eq).
  destruct (declared_imports md); [done|].
  destruct (resolve_imports_keeps fs _ (true_invariant fs) gap max_depth dirs
              (get_str (imp_model imp)) (i :: l) (parent p) st3) as [_ [_ Hk]];
    [|done|by apply Hk].
  unfold has_file. simpl. set_solver.
Qed.

End AliasFacts.

(** * Which imports of a cached model are recorded *)

Module WalkedFacts.
Import ImportGraph InvariantFacts.

Lemma walked_same root active st st' :
  graph st' = graph st -> loaded_models st' = loaded_models st ->
  (forall i, i ∈ issues (result st) -> i ∈ issues (result st')) ->
  walked root active st -> walked root active st'.
Proof.
  intros Hg Hl Hi [HK HJ]. split.
  - intros n. rewrite Hg, Hl. apply HK.
  - intros n m Hn Ha Hm. rewrite Hl in Hm. unfold recorded. rewrite Hg.
    destruct (HJ n m Hn Ha Hm) as [Hr|[Hd (i & Hin & Hc)]]; [by left|].
    right. split; [done|]. exists i. split; [by apply Hi|done].
Qed.

Lemma walked_add_issue root active i st :
  walked root active st -> walked root active (add_issue i st).
Proof.
  apply walked_same; try done. intros j Hj. simpl. apply elem_of_app. by left.
Qed.

Lemma walked_track root active mn x st :
  mn = root \/ (mn ∈ active /\ mn ∈ dom (loaded_models st)) ->
  walked root active st -> walked root active (track_import mn x st).
Proof.
  intros Hmn [HK HJ]. split.
  - intros n Hn. unfold graph in Hn. simpl in Hn.
    rewrite dom_insert_L in Hn. apply elem_of_union in Hn as [Hn|Hn].
    + apply elem_of_singleton in Hn as ->.
      destruct Hmn as [->|[_ H]]; [by left|by right].
    + by apply HK.
  - intros n m Hn Ha Hm.
    destruct (HJ n m Hn Ha Hm) as [Hr|[Hd Ht]].
    + left. intros imp H1 H2.
      apply (proj1 (WalkFacts.grows_track_import mn x st)). by apply Hr.
    + right. split; [|exact Ht]. unfold graph. simpl.
      rewrite dom_insert_L.
      assert (n <> mn) by (destruct Hmn as [->|[H _]]; congruence).
      unfold graph in Hd. set_solver.
Qed.

(** A model that enters the cache is active until its imports are
    walked. *)
Lemma walked_remember root active x m p st :
  loaded_models st !! x = None ->
  walked root active st ->
  walked root (active ∪ {[x]}) (remember x m p st).
Proof.
  intros Hnone [HK HJ]. split.
  - intros n Hn. destruct (HK n Hn) as [?|H]; [by left|right].
    simpl. rewrite dom_insert_L. set_solver.
  - intros n m' Hn Ha Hm. simpl in Hm.
    rewrite lookup_insert_ne in Hm by set_solver.
    apply (HJ n m' Hn); [set_solver|done].
Qed.

Section Walked.
Context (fs : FileSystem) (root : string).

Lemma resolve_import_walked rec active mn dir dirs st imp :
  rec_grows rec -> rec_keeps (fun _ => True) rec -> rec_records rec ->
  rec_walked root rec ->
  has_file mn st ->
  mn = root \/ (mn ∈ active /\ mn ∈ dom (loaded_models st)) ->
  walked root active st ->
  walked root active (resolve_import fs rec mn dir dirs st imp).
Proof.
  intros Hgrows Hkeep Hrecords Hwalked Hfile Hmn Hst. unfold resolve_import.
  destruct (Py.truthy (get_str (imp_model imp))) eqn:Hname; cbn [negb];
    [|by apply walked_add_issue].
  set (x := get_str (imp_model imp)).
  set (st1 := track_import mn x st).
  assert (walked root active st1) as Hst1 by (by apply walked_track).
  assert (forall alias ef md st0,
            walked root active st0 ->
            walked root active (apply_entity_filter alias x ef md st0))
    as Hfilter.
  { intros alias ef md st0.
    destruct (AliasFacts.apply_entity_filter_result alias x ef md st0)
      as (_ & Hi & Hl & _ & Hg). cbv zeta in Hi, Hl, Hg.
    apply walked_same; try done.
    intros i Hin. rewrite Hi. apply elem_of_app. by left. }
  destruct (loaded_models st1 !! x) as [md|] eqn:Hcache; [by apply Hfilter|].
  destruct (_resolve_import_path fs imp dir dirs) as [p|];
    [|by apply walked_add_issue].
  destruct (load_yaml_model fs p) as [m|exc] eqn:Hload;
    [|by apply (walked_add_issue _ _ _ (read_file p st1))].
  set (st2 := if _ : bool then _ else read_file p st1).
  assert (walked root active st2 /\ loaded_models st2 = loaded_models st1)
    as [Hst2 Hl2].
  { subst st2. destruct (_ && _); [|done].
    split; [|done]. by apply (walked_add_issue _ _ _ (read_file p st1)). }
  set (st3 := remember x m p st2).
  assert (loaded_models st2 !! x = None) as Hnone by (by rewrite Hl2).
  assert (walked root (active ∪ {[x]}) st3) as Hst3
    by (by apply walked_remember).
  assert (has_file x st3) as Hfile3 by (unfold has_file; simpl; set_solver).
  set (st4 := match declared_imports m with [] => st3 | _ :: _ => _ end).
  apply Hfilter.
  assert (kept st3 st4) as Hk4.
  { subst st4. destruct (declared_imports m); [apply kept_refl|].
    by apply Hkeep. }
  assert (walked root (active ∪ {[x]}) st4) as Hst4.
  { subst st4. destruct (declared_imports m); [done|].
    apply Hwalked; [done| |done].
    right. split; [set_solver|]. simpl. rewrite dom_insert_L. set_solver. }
  destruct Hst4 as [HK4 HJ4]. split; [exact HK4|].
  intros n m' Hn Ha Hm'.
  destruct (decide (n = x)) as [->|Hnx]; [|apply HJ4; [done|set_solver|done]].
  assert (m' = m) as ->.
  { assert (loaded_models st4 !! x = Some m) as H
      by (apply Hk4; simpl; apply lookup_insert_eq). congruence. }
  assert (x ∉ dom (graph st3)) as Hfresh.
  { intros Hin. destruct Hst2 as [HK2 _].
    destruct (HK2 x Hin) as [?|Hdom]; [done|].
    apply elem_of_dom in Hdom as [? Hsome]. congruence. }
  subst st4. destruct (declared_imports m) as [|i0 is0] eqn:Hi.
  { left. intros i Hin. rewrite Hi in Hin. by apply elem_of_nil in Hin. }
  destruct (Hrecords x (i0 :: is0) (parent p) st3) as [Hall|[Hg Hdeep]].
  - left. intros i Hin Ht. rewrite Hi in Hin. by apply Hall.
  - right. by rewrite Hg.
Qed.

Lemma foldl_walked rec active mn dir dirs imports st :
  rec_grows rec -> rec_keeps (fun _ => True) rec -> rec_records rec ->
  rec_walked root rec ->
  has_file mn st ->
  mn = root \/ (mn ∈ active /\ mn ∈ dom (loaded_models st)) ->
  walked root active st ->
  walked root active (foldl (resolve_import fs rec mn dir dirs) st imports).
Proof.
  intros Hgrows Hkeep Hrecords Hwalked. revert st.
  induction imports as [|imp imports IH]; intros st Hfile Hmn Hst; [done|].
  cbn [foldl].
  destruct (resolve_import_keeps fs _ (AliasFacts.true_invariant fs) rec
              mn dir dirs st imp Hkeep Hfile I) as [_ Hk].
  apply IH.
  - by apply (has_file_kept _ _ _ Hk).
  - destruct Hmn as [?|[Ha Hdom]]; [by left|right]. split; [done|].
    apply elem_of_dom in Hdom as [v Hv]. apply elem_of_dom. exists v.
    by apply Hk.
  - by apply resolve_import_walked.
Qed.

Lemma records_resolve_imports gap max_depth dirs :
  rec_records (_resolve_imports_recursive fs gap max_depth dirs).
Proof.
  destruct gap as [|gap]; intros name imports dir st; simpl.
  - right. split; [done|]. eexists.
    split; [apply elem_of_app; right; by left|reflexivity].
  - left. intros imp Hin Ht. apply WalkFacts.foldl_records; try done.
    apply WalkFacts.grows_resolve_imports.
Qed.

Lemma walked_resolve_imports gap max_depth dirs :
  rec_walked root (_resolve_imports_recursive fs gap max_depth dirs).
Proof.
  induction gap as [|gap IH]; intros active name imports dir st Hf Hn Hst;
    simpl.
  - by apply walked_add_issue.
  - apply foldl_walked; try done.
    + apply WalkFacts.grows_resolve_imports.
    + apply resolve_imports_keeps, AliasFacts.true_invariant.
    + apply records_resolve_imports.
Qed.

End Walked.

(** The walk that the checks of [resolve_model] start from has the
    cache and the import graph of the result. *)
Lemma resolve_model_walk_graph fs root_path search_dirs root :
  load_yaml_model fs (fs_resolve fs root_path) = inl root ->
  declared_imports root <> [] ->
  let st :=
    _resolve_imports_recursive fs 11 10 (map (fs_resolve fs) search_dirs)
      (declared_name "unknown" root) (declared_imports root)
      (parent (fs_resolve fs root_path))
      (mkWalk (mkResolved root [] {[declared_name "unknown" root := []]}
                 {[declared_name "unknown" root := fs_resolve fs root_path]}
                 [])
              ∅ [fs_resolve fs root_path]) in
  let w := resolve_model_walk fs root_path search_dirs in
  loaded_models w = loaded_models st
  /\ import_graph (result w) = import_graph (result st)
  /\ (forall i, i ∈ issues (result st) -> i ∈ issues (result w))
  /\ walked (declared_name "unknown" root) ∅ st.
Proof.
  intros Hroot Himports. cbv zeta.
  destruct (SettledFacts.resolve_model_walk_tail fs root_path search_dirs root
              Hroot Himports) as (extra & _ & ->).
  rewrite ResultFacts.add_issues_closed. cbv zeta.
  cbn [loaded_models result import_graph issues]. split_and!; try done.
  - intros i Hi. apply elem_of_app. by left.
  - apply walked_resolve_imports.
    + simpl. set_solver.
    + by left.
    + split.
      * intros n Hn. unfold graph in Hn. simpl in Hn.
        rewrite dom_singleton_L in Hn. left. set_solver.
      * intros n m _ _ Hm. simpl in Hm. by rewrite lookup_empty in Hm.
Qed.

End WalkedFacts.

(** * Claim C6 *)

(** C6, as stated, fails behind a long chain: [a] imports [c1] and
    [b], the chain [c1], ..., [c10] leads to [b], which is loaded at
    depth 10, where its imports are not walked any more; [b] is then
    taken from the cache for the import of [a], its import of [a] is
    never recorded, and no [CIRCULAR_IMPORT] issue is reported. *)
Lemma mutual_import_behind_chain :
  let fs := Examples.chain in
  let r := resolve_model fs (Examples.chain_file "a") [] in
  load_yaml_model fs (Examples.chain_file "a")
  = inl (Examples.importing "a" ["c1"; "b"])
  /\ _resolve_import_path fs (mkImport (Some "b") None None None) ["proj"] []
     = Some (Examples.chain_file "b")
  /\ load_yaml_model fs (Examples.chain_file "b")
     = inl (Examples.importing "b" ["a"])
  /\ count_code "CIRCULAR_IMPORT" (issues r) = 0
  /\ count_code "IMPORT_DEPTH_EXCEEDED" (issues r) = 1
  /\ import_graph r !! "b" = None.
Proof. by vm_compute. Qed.

(** C6 (amended): [resolve_model] never reports more than one
    [CIRCULAR_IMPORT] issue.  It reports exactly one when the root
    document [A] loads, one of its imports names a model [B], the model
    that the walk has in the cache under the name of [B] has an import
    that names [A], and the imports of [B] were recorded: the name of
    [B] has an entry in the import graph of the result, or the result
    has no [IMPORT_DEPTH_EXCEEDED] issue.  That is so in particular
    when [B] is not in the cache when the loop over the imports of [A]
    reaches it and the file of [B] is found and loads.  The imports of
    a model in the cache are missing from the import graph only after
    the walk went too deep: such a model has every import recorded, or
    its name has no entry in the import graph and the result has an
    [IMPORT_DEPTH_EXCEEDED] issue. *)
Theorem mutual_import_one_circular_issue :
  (forall fs root_path search_dirs,
     count_code "CIRCULAR_IMPORT"
       (issues (resolve_model fs root_path search_dirs)) <= 1)
  /\ (forall fs root_path search_dirs root imp_b mb imp_a,
        let w := resolve_model_walk fs root_path search_dirs in
        let r := resolve_model fs root_path search_dirs in
        load_yaml_model fs (fs_resolve fs root_path) = inl root ->
        imp_b ∈ declared_imports root ->
        Py.truthy (get_str (imp_model imp_b)) = true ->
        loaded_models w !! get_str (imp_model imp_b) = Some mb ->
        imp_a ∈ declared_imports mb ->
        get_str (imp_model imp_a) = declared_name "unknown" root ->
        Py.truthy (declared_name "unknown" root) = true ->
        import_graph r !! get_str (imp_model imp_b) <> None
        \/ count_code "IMPORT_DEPTH_EXCEEDED" (issues r) = 0 ->
        count_code "CIRCULAR_IMPORT" (issues r) = 1)
  /\ (forall fs root_path search_dirs root before imp_b rest pb mb imp_a,
        load_yaml_model fs (fs_resolve fs root_path) = inl root ->
        declared_imports root = before ++ imp_b :: rest ->
        Py.truthy (get_str (imp_model imp_b)) = true ->
        loaded_before fs root_path search_dirs root before
          !! get_str (imp_model imp_b) = None ->
        _resolve_import_path fs imp_b (parent (fs_resolve fs root_path))
          (map (fs_resolve fs) search_dirs) = Some pb ->
        load_yaml_model fs pb = inl mb ->
        imp_a ∈ declared_imports mb ->
        get_str (imp_model imp_a) = declared_name "unknown" root ->
        Py.truthy (declared_name "unknown" root) = true ->
        count_code "CIRCULAR_IMPORT"
          (issues (resolve_model fs root_path search_dirs)) = 1)
  /\ (forall fs root_path search_dirs root n m,
        let w := resolve_model_walk fs root_path search_dirs in
        let r := resolve_model fs root_path search_dirs in
        load_yaml_model fs (fs_resolve fs root_path) = inl root ->
        n <> declared_name "unknown" root ->
        loaded_models w !! n = Some m ->
        (forall imp,
           imp ∈ declared_imports m ->
           Py.truthy (get_str (imp_model imp)) = true ->
           ImportGraph.edge (import_graph r) n (get_str (imp_model imp)))
        \/ (import_graph r !! n = None
            /\ exists i, i ∈ issues r /\ code i = "IMPORT_DEPTH_EXCEEDED")).
Proof.
  split_and!.
  - intros fs root_path search_dirs. unfold resolve_model.
    destruct (load_yaml_model fs (fs_resolve fs root_path)) as [root|exc] eqn:E.
    + destruct (declared_imports root) as [|imp imps] eqn:Ei.
      * unfold resolve_model_walk. rewrite E, Ei. simpl.
        unfold count_code. simpl. lia.
      * rewrite (ResolverFacts.resolve_model_walk_imports _ _ _ _ E)
          by (by rewrite Ei).
        cbv zeta. cbn [result issues].
        rewrite WalkFacts.check_duplicates_count.
        set (st := _resolve_imports_recursive _ _ _ _ _ _ _ _).
        assert (ImportGraph.no_circular (issues (result st))) as Hst.
        { apply (proj2 (WalkFacts.grows_resolve_imports fs 11 10 _ _ _ _ _)).
          constructor. }
        destruct (_detect_cycle _ _ _ _ _) as [[[[] ?] ?]|].
        -- simpl. rewrite WalkFacts.count_code_app,
             (WalkFacts.count_no_circular _ Hst). done.
        -- rewrite (WalkFacts.count_no_circular _ Hst). lia.
        -- rewrite (WalkFacts.count_no_circular _ Hst). lia.
    + unfold resolve_model_walk. rewrite E. unfold count_code. simpl. lia.
  - intros fs root_path search_dirs root imp_b mb imp_a. cbv zeta.
    intros Hroot Hin_b Hb Hcache Hin_a Ha Hta Hwalked.
    assert (declared_imports root <> []) as Himports.
    { intros E. rewrite E in Hin_b. by apply elem_of_nil in Hin_b. }
    destruct (WalkedFacts.resolve_model_walk_graph fs root_path search_dirs
                root Hroot Himports) as (Hl & Hg & Hi & [_ HJ]).
    cbv zeta in Hl, Hg, Hi, HJ. unfold resolve_model in *.
    rewrite Hl in Hcache. rewrite Hg in Hwalked.
    assert (count_code "IMPORT_DEPTH_EXCEEDED"
              (issues (result (resolve_model_walk fs root_path search_dirs))) = 0
            -> ~ ImportGraph.too_deep
                   (_resolve_imports_recursive fs 11 10
                      (map (fs_resolve fs) search_dirs)
                      (declared_name "unknown" root) (declared_imports root)
                      (parent (fs_resolve fs root_path))
                      (mkWalk
                         (mkResolved root []
                            {[declared_name "unknown" root := []]}
                            {[declared_name "unknown" root
                                := fs_resolve fs root_path]} [])
                         ∅ [fs_resolve fs root_path]))) as Hdeep.
    { intros Hcount (i & Hin & Hc). apply Hi in Hin.
      by apply (WalkFacts.count_code_none _ _ i Hcount). }
    clear Hl Hg Hi.
    rewrite (ResolverFacts.resolve_model_walk_imports _ _ _ _ Hroot) in *
      by done.
    cbv zeta in *. cbn [result issues] in *.
    rewrite WalkFacts.check_duplicates_count.
    set (a := declared_name "unknown" root) in *.
    set (b := get_str (imp_model imp_b)) in *.
    set (st := _resolve_imports_recursive _ _ _ _ _ (declared_imports root) _ _)
      in *.
    assert (ImportGraph.no_circular (issues (result st))) as Hst.
    { apply (proj2 (WalkFacts.grows_resolve_imports fs 11 10 _ _ _ _ _)).
      constructor. }
    assert (ImportGraph.edge (ImportGraph.graph st) a b) as Hab.
    { subst st.
      change (_resolve_imports_recursive fs 11 10 ?d ?n ?i ?r ?s)
        with (foldl (resolve_import fs (_resolve_imports_recursive fs 10 10 d)
                       n r d) s i).
      apply WalkFacts.foldl_records; [|done|done].
      apply WalkFacts.grows_resolve_imports. }
    assert (ImportGraph.edge (ImportGraph.graph st) b a) as Hba.
    { destruct (decide (b = a)) as [E|Hne]; [by rewrite E in Hab |- *|].
      rewrite <- Ha.
      destruct (HJ b mb Hne (not_elem_of_empty _) Hcache) as [Hr|[Hd Ht]].
      - apply Hr; [done|by rewrite Ha].
      - destruct Hwalked as [Hkey|Hcount]; [|by apply Hdeep in Hcount].
        exfalso. apply Hd. unfold ImportGraph.graph. apply elem_of_dom.
        by destruct (import_graph (result st) !! b). }
    destruct (CycleFacts._detect_cycle_mutual _ _ _ Hab Hba) as (vg & vd & Hd).
    unfold ImportGraph.graph in Hd. rewrite Hd.
    simpl. rewrite WalkFacts.count_code_app,
      (WalkFacts.count_no_circular _ Hst). done.
  - intros fs root_path search_dirs root before imp_b rest pb mb imp_a
           Hroot Himports Hb Hcache Hpath Hload Hin Ha Hta.
    unfold resolve_model.
    rewrite (ResolverFacts.resolve_model_walk_imports _ _ _ _ Hroot)
      by (rewrite Himports; by destruct before).
    cbv zeta. cbn [result issues].
    rewrite WalkFacts.check_duplicates_count.
    unfold loaded_before in Hcache. cbv zeta in Hcache.
    change (S max_depth_default) with 11 in Hcache.
    change max_depth_default with 10 in Hcache.
    set (a := declared_name "unknown" root) in *.
    set (st := _resolve_imports_recursive _ _ _ _ _ (declared_imports root) _ _).
    assert (ImportGraph.no_circular (issues (result st))) as Hst.
    { apply (proj2 (WalkFacts.grows_resolve_imports fs 11 10 _ _ _ _ _)).
      constructor. }
    assert (ImportGraph.edge (ImportGraph.graph st) a (get_str (imp_model imp_b))
            /\ ImportGraph.edge (ImportGraph.graph st) (get_str (imp_model imp_b)) a)
      as [Hab Hba].
    { subst st. rewrite Himports.
      change (_resolve_imports_recursive fs 11 10 ?d ?n ?i ?r ?s)
        with (foldl (resolve_import fs (_resolve_imports_recursive fs 10 10 d)
                       n r d) s i) in *.
      set (rec := _resolve_imports_recursive fs 10 10 _) in *.
      assert (ImportGraph.rec_grows rec) as Hrec
        by apply WalkFacts.grows_resolve_imports.
      split.
      - apply WalkFacts.foldl_records; [done| |done].
        apply elem_of_app. right. by left.
      - rewrite foldl_app. cbn [foldl].
        set (st1 := foldl _ _ before) in *.
        apply (proj1 (WalkFacts.grows_foldl fs rec _ _ _ rest _ Hrec)).
        erewrite ResolverFacts.resolve_import_loaded;
          [|exact Hb|exact Hcache|exact Hpath|exact Hload].
        cbv zeta. apply (proj1 (WalkFacts.grows_apply_entity_filter _ _ _ _ _)).
        destruct (declared_imports mb) as [|i0 is0] eqn:Em;
          [by apply elem_of_nil in Hin|].
        subst rec.
        change (_resolve_imports_recursive fs 10 10 ?d ?n ?i ?r ?s)
          with (foldl (resolve_import fs (_resolve_imports_recursive fs 9 10 d)
                         n r d) s i).
        rewrite <- Ha.
        apply WalkFacts.foldl_records; [|done|by rewrite Ha].
        apply WalkFacts.grows_resolve_imports. }
    destruct (CycleFacts._detect_cycle_mutual _ _ _ Hab Hba) as (vg & vd & Hd).
    unfold ImportGraph.graph in Hd. rewrite Hd.
    simpl. rewrite WalkFacts.count_code_app,
      (WalkFacts.count_no_circular _ Hst). done.
  - intros fs root_path search_dirs root n m. cbv zeta.
    intros Hroot Hn Hm.
    destruct (declared_imports root) as [|i0 is0] eqn:Himports.
    { unfold resolve_model_walk in Hm. rewrite Hroot, Himports in Hm.
      simpl in Hm. by rewrite lookup_empty in Hm. }
    destruct (WalkedFacts.resolve_model_walk_graph fs root_path search_dirs
                root Hroot) as (Hl & Hg & Hi & [_ HJ]); [by rewrite Himports|].
    cbv zeta in Hl, Hg, Hi, HJ. rewrite Himports in *.
    unfold resolve_model. rewrite Hg. rewrite Hl in Hm.
    destruct (HJ n m Hn (not_elem_of_empty _) Hm) as [Hr|[Hd (i & Hin & Hc)]].
    + by left.
    + right. split; [by apply not_elem_of_dom|]. exists i. split; [|done].
      by apply Hi.
Qed.

Lemma mutual_import_one_circular_issue_witness :
  count_code "CIRCULAR_IMPORT"
    (issues (resolve_model Examples.through_cache (Examples.chain_file "a") []))
  = 1.
Proof.
  apply (proj1 (proj2 mutual_import_one_circular_issue)
           Examples.through_cache (Examples.chain_file "a") []
           (Examples.importing "a" ["c"; "b"])
           (mkImport (Some "b") None None None)
           (Examples.importing "b" ["a"])
           (mkImport (Some "a") None None None)).
  - reflexivity.
  - right. by left.
  - reflexivity.
  - by vm_compute.
  - by left.
  - reflexivity.
  - reflexivity.
  - left. by vm_compute.
Defined.

(** * Claim C7 *)

(** C7, against the claim as stated.  [app] imports [lib] with the
    filter [Keep] and then [mid], which imports [lib] without a filter:
    the second import registers the alias [lib] again, so the result
    exposes [Drop] as well, and no issue says so.  And an import whose
    filter is the empty list exposes every entity of the imported model,
    here [Customer], though no name is requested. *)
Lemma entity_filter_exposes_more :
  (let r := resolve_model Examples.lib_twice Examples.app_file [] in
   declared_imports (root_model r)
   = [mkImport (Some "lib") None None (Some ["Keep"]);
      mkImport (Some "mid") None None None]
   /\ (exists m,
         Py.dict_get "lib" (imported_models r) = Some m
         /\ entity_names m = ["Keep"; "Drop"])
   /\ issues r = [])
  /\ (Py.dict_get "shared"
        (imported_models (result Examples.after_empty_filter))
      = Some Scenario.shared_dimensions
      /\ entity_names Scenario.shared_dimensions = ["Customer"]
      /\ issues (result Examples.after_empty_filter) = []).
Proof.
  cbv zeta. split_and!; try by vm_compute.
  eexists. split; by vm_compute.
Qed.

(** C7 (amended).  When the loop of [_resolve_imports_recursive] is
    done with an import whose filter is a non-empty list and whose model
    is in the cache or is found and loads, the model registered under
    the alias of the import is the imported model with exactly the
    entities whose name is requested, so the names it exposes are the
    requested names that exist in the imported model; the issues end
    with one [IMPORT_ENTITY_NOT_FOUND] issue per requested name that the
    imported model lacks, in the order of the filter, and the import is
    registered all the same; the cache holds the whole model.
    [imported_models] has one entry per alias for all depths, and a
    later import under the same alias replaces it: the result of
    [resolve_model] has the filtered model under the alias whenever
    every import, of the root and of every model loaded, that is
    registered under this alias names the same model with the same
    filter; an import of the root is then exposed in this way by the
    result, or an issue of the result reports that it has failed.  The
    filter block itself, given a non-empty filter, stores
    the filtered model, appends the issues and leaves the cache alone;
    an empty filter behaves as an absent one.  In the store, for any
    filter, the statements update only the two objects behind
    [result.issues] and [result.imported_models] and objects they have
    created themselves, so a parsed model that contains neither of the
    two stands for the same document afterwards. *)
Theorem entity_filter_exposes_requested :
  (forall fs gap max_depth model_name root_dir search_dirs st imp
          requested rest md,
     let fl := requested :: rest in
     let name := get_str (imp_model imp) in
     let st' :=
       resolve_import fs
         (_resolve_imports_recursive fs gap max_depth search_dirs)
         model_name root_dir search_dirs st imp in
     Py.truthy name = true ->
     imp_entities imp = Some fl ->
     loaded_models st !! name = Some md
     \/ (loaded_models st !! name = None
         /\ exists p, _resolve_import_path fs imp root_dir search_dirs = Some p
                      /\ load_yaml_model fs p = inl md) ->
     (exists filtered,
        Py.dict_get (alias_of imp) (imported_models (result st'))
        = Some filtered
        /\ filtered
           = with_entities md
               (filter (fun e => get_str (ent_name e) ∈ fl)
                       (default [] (m_entities md)))
        /\ (forall n,
              n ∈ entity_names filtered <-> n ∈ fl /\ n ∈ entity_names md))
     /\ (exists before,
           issues (result st')
           = before
             ++ map (entity_not_found (alias_of imp) name)
                  (filter (fun r => r ∉ entity_names md) fl))
     /\ loaded_models st' !! name = Some md)
  /\ (forall fs root_path search_dirs root imp requested rest,
        let fl := requested :: rest in
        let name := get_str (imp_model imp) in
        let w := resolve_model_walk fs root_path search_dirs in
        load_yaml_model fs (fs_resolve fs root_path) = inl root ->
        imp_entities imp = Some fl ->
        alias_reserved (alias_of imp) name (fun ef => ef = Some fl) root ->
        cache_reserved (alias_of imp) name (fun ef => ef = Some fl) w ->
        forall m,
          Py.dict_get (alias_of imp) (imported_models (result w)) = Some m ->
          exists md,
            loaded_models w !! name = Some md
            /\ m = with_entities md
                     (filter (fun e => get_str (ent_name e) ∈ fl)
                             (default [] (m_entities md)))
            /\ (forall n,
                  n ∈ entity_names m <-> n ∈ fl /\ n ∈ entity_names md)
            /\ (forall n,
                  n ∈ fl -> n ∉ entity_names md ->
                  entity_not_found (alias_of imp) name n
                    ∈ issues (result w)))
  /\ (forall fs root_path search_dirs root imp requested rest,
        let fl := requested :: rest in
        let name := get_str (imp_model imp) in
        let w := resolve_model_walk fs root_path search_dirs in
        load_yaml_model fs (fs_resolve fs root_path) = inl root ->
        imp ∈ declared_imports root ->
        imp_entities imp = Some fl ->
        alias_reserved (alias_of imp) name (fun ef => ef = Some fl) root ->
        cache_reserved (alias_of imp) name (fun ef => ef = Some fl) w ->
        (exists m md,
           Py.dict_get (alias_of imp) (imported_models (result w)) = Some m
           /\ loaded_models w !! name = Some md
           /\ (forall n,
                 n ∈ entity_names m <-> n ∈ fl /\ n ∈ entity_names md)
           /\ (forall n,
                 n ∈ fl -> n ∉ entity_names md ->
                 entity_not_found (alias_of imp) name n
                   ∈ issues (result w)))
        \/ exists i, i ∈ issues (result w) /\ import_failure imp i)
  /\ (forall alias name requested rest md st,
     let fl := requested :: rest in
     let st' := apply_entity_filter alias name (Some fl) md st in
     (exists filtered,
        Py.dict_get alias (imported_models (result st')) = Some filtered
        /\ (forall n,
              n ∈ entity_names filtered <-> n ∈ fl /\ n ∈ entity_names md)
        /\ (forall e,
              e ∈ default [] (m_entities filtered)
              <-> e ∈ default [] (m_entities md) /\ get_str (ent_name e) ∈ fl))
     /\ issues (result st')
        = issues (result st)
          ++ map (entity_not_found alias name)
               (filter (fun r => r ∉ entity_names md) fl)
     /\ loaded_models st' = loaded_models st)
  /\ (forall alias name md st,
        apply_entity_filter alias name (Some []) md st
        = apply_entity_filter alias name None md st)
  /\ (forall limit lr attrs alias name entity_filter model_data h l,
        h !! lr = Some (Store.ODict attrs) ->
        l < length h ->
        Py.dict_get "issues" attrs <> Some (Store.VRef l) ->
        Py.dict_get "imported_models" attrs <> Some (Store.VRef l) ->
        (Store.apply_entity_filter limit (Store.VRef lr) alias name
           entity_filter model_data h).2 !! l = h !! l)
  /\ (forall limit lr attrs alias name entity_filter model_data h
             (S : nat -> Prop) fuel,
        h !! lr = Some (Store.ODict attrs) ->
        Store.closed h S ->
        (forall l, S l ->
           l < length h
           /\ Py.dict_get "issues" attrs <> Some (Store.VRef l)
           /\ Py.dict_get "imported_models" attrs <> Some (Store.VRef l)) ->
        (forall l, model_data = Store.VRef l -> S l) ->
        Store.dump fuel
          (Store.apply_entity_filter limit (Store.VRef lr) alias name
             entity_filter model_data h).2 model_data
        = Store.dump fuel h model_data).
Proof.
  assert (Hnames : forall (fl : list string) md n,
    n ∈ entity_names
          (with_entities md
             (filter (fun e => get_str (ent_name e) ∈ fl)
                     (default [] (m_entities md))))
    <-> n ∈ fl /\ n ∈ entity_names md).
  { intros fl md n. unfold entity_names, with_entities.
    cbn [m_entities default from_option id].
    rewrite !list_elem_of_fmap. split.
    - intros (e & -> & He). apply list_elem_of_filter in He as [Hf He].
      split; [done|]. by exists e.
    - intros (Hn & e & -> & He). exists e. split; [done|].
      by apply list_elem_of_filter. }
  assert (Hframe :
    forall limit lr attrs alias name entity_filter model_data h l,
      h !! lr = Some (Store.ODict attrs) ->
      l < length h ->
      Py.dict_get "issues" attrs <> Some (Store.VRef l) ->
      Py.dict_get "imported_models" attrs <> Some (Store.VRef l) ->
      (Store.apply_entity_filter limit (Store.VRef lr) alias name
         entity_filter model_data h).2 !! l = h !! l).
  { intros limit lr attrs alias name ef md h l Hr Hl Hi Hm.
    destruct (StoreFacts.apply_entity_filter_triple lr attrs (length h)
                (lookup_lt_Some _ _ _ Hr) limit alias name ef md h)
      as [[_ Hk] _]; [done|exact Hr|].
    apply Hk; [done|]. by split. }
  split_and!.
  - intros fs gap max_depth mn dir dirs st imp requested rest md.
    cbv zeta. intros Hname Hfl Hmd.
    destruct (AliasFacts.resolve_import_registers fs gap max_depth mn dir dirs
                st imp md Hname Hmd) as (st0 & -> & Hl0).
    rewrite Hfl, FilterFacts.apply_entity_filter_nonempty.
    cbn [result imported_models issues loaded_models]. split_and!.
    + eexists. split; [apply FilterFacts.dict_get_set_eq|].
      split; [done|]. apply Hnames.
    + by eexists.
    + done.
  - intros fs root_path search_dirs root imp requested rest. cbv zeta.
    intros Hroot Hfl Hres Hcache m Hm.
    destruct (AliasFacts.resolve_model_alias fs _ _ _ root_path search_dirs
                root Hroot Hres Hcache m Hm)
      as (md & ef & Hmd & -> & -> & Hi).
    exists md. split_and!; [done|done|apply Hnames|exact Hi].
  - intros fs root_path search_dirs root imp requested rest. cbv zeta.
    intros Hroot Hin Hfl Hres Hcache.
    destruct (SettledFacts.root_import_settled fs root_path search_dirs root
                imp Hroot Hin) as [Hkey|Hfail]; [left|by right].
    apply AliasFacts.dict_keys_get in Hkey as [m Hm].
    destruct (AliasFacts.resolve_model_alias fs _ _ _ root_path search_dirs
                root Hroot Hres Hcache m Hm)
      as (md & ef & Hmd & -> & -> & Hi).
    exists (registered (Some (requested :: rest)) md), md.
    split_and!; [done|done|apply Hnames|exact Hi].
  - intros alias name requested rest md st. cbv zeta.
    rewrite FilterFacts.apply_entity_filter_nonempty.
    cbn [result imported_models issues loaded_models]. split_and!; [|done..].
    eexists. split; [apply FilterFacts.dict_get_set_eq|]. split.
    + apply Hnames.
    + intros e. unfold with_entities. cbn [m_entities default from_option id].
      rewrite list_elem_of_filter. tauto.
  - done.
  - exact Hframe.
  - intros limit lr attrs alias name ef md h S fuel Hr Hc HS Hmd.
    apply (StoreFacts.dump_agree fuel h _ S); [done| |done].
    intros l Hl. destruct (HS l Hl) as (? & ? & ?). by eapply Hframe.
Qed.


Lemma entity_filter_exposes_requested_witness :
  let imp := mkImport (Some "shared_dimensions") (Some "shared") None
               (Some ["Customer"]) in
  let w := resolve_model_walk Scenario.project Scenario.orders_file
             Scenario.search_dirs in
  exists md,
    loaded_models w !! "shared_dimensions" = Some md
    /\ with_entities Scenario.shared_dimensions
         (default [] (m_entities Scenario.shared_dimensions))
       = with_entities md
           (filter (fun e => get_str (ent_name e) ∈ ["Customer"])
                   (default [] (m_entities md)))
    /\ (forall n,
          n ∈ entity_names
                (with_entities Scenario.shared_dimensions
                   (default [] (m_entities Scenario.shared_dimensions)))
          <-> n ∈ ["Customer"] /\ n ∈ entity_names md)
    /\ (forall n,
          n ∈ ["Customer"] -> n ∉ entity_names md ->
          entity_not_found "shared" "shared_dimensions" n ∈ issues (result w)).
Proof.
  cbv zeta.
  apply (proj1 (proj2 entity_filter_exposes_requested)
           Scenario.project Scenario.orders_file Scenario.search_dirs
           Scenario.orders
           (mkImport (Some "shared_dimensions") (Some "shared") None
              (Some ["Customer"]))
           "Customer" []).
  - reflexivity.
  - reflexivity.
  - repeat constructor; reflexivity.
  - apply map_Forall_to_list. set (l := map_to_list _).
    vm_compute in l. subst l. repeat constructor.
  - reflexivity.
Defined.

(** X24: When the root loads, every entry of its imports is either
    registered in [imported_models] under its alias, or reported by an
    issue that says what went wrong with it: [INVALID_IMPORT] for an
    entry without a model name, [IMPORT_NOT_FOUND] or
    [IMPORT_LOAD_FAILED] with the name of the model otherwise.  The
    entry under the alias is the one of the last import registered under
    it, at any depth; when every import, of the root and of every model
    loaded, that is registered under the alias names the model of this
    entry, the alias holds the model loaded under that name, whole or
    with some of its entities only, so the import is not lost. *)
Theorem root_imports_settled fs root_path search_dirs root imp :
  load_yaml_model fs (fs_resolve fs root_path) = inl root ->
  imp ∈ declared_imports root ->
  let w := resolve_model_walk fs root_path search_dirs in
  let r := resolve_model fs root_path search_dirs in
  let name := get_str (imp_model imp) in
  (alias_of imp ∈ Py.dict_keys (imported_models r)
   \/ exists i, i ∈ issues r /\ import_failure imp i)
  /\ (alias_reserved (alias_of imp) name (fun _ => True) root ->
      cache_reserved (alias_of imp) name (fun _ => True) w ->
      (exists m md,
         Py.dict_get (alias_of imp) (imported_models r) = Some m
         /\ loaded_models w !! name = Some md
         /\ filtered_from md m)
      \/ exists i, i ∈ issues r /\ import_failure imp i).
Proof.
  intros Hroot Hin. cbv zeta.
  pose proof (SettledFacts.root_import_settled fs root_path search_dirs root
                imp Hroot Hin) as Hsettled.
  unfold import_settled in Hsettled. fold (alias_of imp) in Hsettled.
  fold (resolve_model fs root_path search_dirs) in Hsettled.
  split; [exact Hsettled|]. intros Hres Hcache.
  destruct Hsettled as [Hkey|Hfail]; [left|by right].
  apply AliasFacts.dict_keys_get in Hkey as [m Hm].
  destruct (AliasFacts.resolve_model_alias fs _ _ _ root_path search_dirs
              root Hroot Hres Hcache m Hm) as (md & ef & Hmd & _ & -> & _).
  exists (registered ef md), md. split_and!; [done|done|].
  apply AliasFacts.registered_filtered_from.
Qed.

Lemma root_imports_settled_witness :
  let imp := mkImport (Some "shared_dimensions") (Some "shared") None
               (Some ["Customer"]) in
  let w := resolve_model_walk Scenario.project Scenario.orders_file
             Scenario.search_dirs in
  ("shared" ∈ Py.dict_keys (imported_models Scenario.resolved)
   \/ exists i, i ∈ issues Scenario.resolved /\ import_failure imp i)
  /\ ((exists m md,
         Py.dict_get "shared" (imported_models Scenario.resolved) = Some m
         /\ loaded_models w !! "shared_dimensions" = Some md
         /\ filtered_from md m)
      \/ exists i, i ∈ issues Scenario.resolved /\ import_failure imp i).
Proof.
  cbv zeta.
  destruct (root_imports_settled Scenario.project Scenario.orders_file
              Scenario.search_dirs Scenario.orders
              (mkImport (Some "shared_dimensions") (Some "shared") None
                 (Some ["Customer"]))) as [Hkey Hmodel].
  - reflexivity.
  - by left.
  - split; [exact Hkey|]. apply Hmodel.
    + repeat constructor; reflexivity.
    + apply map_Forall_to_list. set (l := map_to_list _).
      vm_compute in l. subst l. repeat constructor.
Defined.

(** * Missing keys and a root that does not load *)

(** X25: A key that is missing counts as its default: [compile_model] gives
    the same document whether a top-level collection or mapping, or the
    [fields] of an entity, is absent or present and empty, and more
    generally whether or not the defaults are filled in. *)
Theorem compile_model_missing_keys m :
  compile_model (with_defaults m) = compile_model m.
Proof.
  unfold compile_model, with_defaults. cbn [m_model m_entities m_relationships
    m_indexes m_rules m_governance m_glossary m_display default from_option id].
  assert (forall es,
            _sort_entities
              (map (fun e => mkEntity (ent_name e)
                               (Some (default [] (ent_fields e)))
                               (ent_tags e) (ent_extra e)) es)
            = _sort_entities es) as ->; [|done].
  intros es. unfold _sort_entities. cbv zeta. rewrite map_map. f_equal.
Qed.

(** X26: When the root does not load, the summary of the result still lists
    one model, the root under the name [unknown], without file, entity
    or import; it has no cross-model relationship, it carries the one
    issue, and [cmd_resolve] returns 1. *)
Theorem root_load_failure_summary fs root_path search_dirs exc :
  load_yaml_model fs (fs_resolve fs root_path) = inr exc ->
  let s := to_graph_summary (resolve_model fs root_path search_dirs) in
  gs_root_model s = "unknown"
  /\ gs_models s = [mkModelSummary "unknown" None None 0 [] [] true]
  /\ gs_model_count s = 1
  /\ gs_total_entities s = 0
  /\ gs_cross_model_relationships s = []
  /\ gs_issues s
     = [mkIssue "error" "ROOT_LOAD_FAILED"
          ("Failed to load root model: " ++ exc)%string "/"]
  /\ cmd_resolve fs root_path search_dirs = 1%Z.
Proof.
  intros Hload. cbv zeta. unfold cmd_resolve, resolve_model, resolve_model_walk.
  rewrite Hload. by vm_compute.
Qed.

Lemma root_load_failure_summary_witness :
  cmd_resolve Scenario.project ["proj"; "models"; "missing.model.yaml"]
    Scenario.search_dirs = 1%Z.
Proof.
  apply (root_load_failure_summary Scenario.project
           ["proj"; "models"; "missing.model.yaml"] Scenario.search_dirs
           "No such file or directory").
  reflexivity.
Defined.
